(** * Retention bot: the computational core of [app.py]

    A shallow embedding of the pure part of [app.py] (the helpers
    [parse_salary_to_int], [format_currency], [extract_player_name] and the body
    of [RetentionModal.on_submit]) together with the Python primitives it
    calls, and the properties of the specification proved or refuted on it.

    Conventions of the embedding.
    - A Python [str] is a list of code points.  Code points are [ascii]
      values, i.e. the texts covered are those whose code points are below
      256 (Latin-1).  On that range [\d] is exactly [0-9], and [str.isspace],
      the regex class [\s] and [str.splitlines] use the tables written out
      below.
    - A Python [int] is a [Z].
    - A Python [float] is an IEEE 754 binary64 number, a [spec_float] of the
      standard library with [prec = 53] and [emax = 1024]; every operation
      rounds to nearest, ties to even, as CPython does.
    - An exception that the source does not catch is an explicit outcome. *)

From Stdlib Require Import ZArith List Bool Ascii String Lia.
From Stdlib Require Import Floats.SpecFloat.
From Stdlib Require Reals Lra.
Import ListNotations.

Open Scope Z_scope.

(** ** Python strings *)

Module Py.

Definition str := list ascii.

(** A string literal of the source. *)
Definition lit (s : string) : str := list_ascii_of_string s.

Definition code (c : ascii) : Z := Z.of_N (N_of_ascii c).

Definition chr (n : Z) : ascii := ascii_of_N (Z.to_N n).

(** [len(s)] *)
Definition len (s : str) : Z := Z.of_nat (List.length s).

Definition str_eqb (a b : str) : bool :=
  if list_eq_dec ascii_dec a b then true else false.

(** [\d] on code points below 256. *)
Definition is_digit (c : ascii) : bool :=
  (48 <=? code c) && (code c <=? 57).

(** [str.isspace] and [\s] on code points below 256: tab, line feed, vertical
    tab, form feed, carriage return, the four separators 0x1c-0x1f, space,
    next line (0x85) and no-break space (0xa0). *)
Definition isspace (c : ascii) : bool :=
  let n := code c in
  ((9 <=? n) && (n <=? 13)) || ((28 <=? n) && (n <=? 32))
  || (n =? 133) || (n =? 160).

(** The line boundaries of [str.splitlines] below 256. *)
Definition is_linebreak (c : ascii) : bool :=
  let n := code c in
  ((10 <=? n) && (n <=? 13)) || ((28 <=? n) && (n <=? 30)) || (n =? 133).

Fixpoint lstrip (s : str) : str :=
  match s with
  | c :: s' => if isspace c then lstrip s' else s
  | [] => []
  end.

Definition rstrip (s : str) : str := rev (lstrip (rev s)).

(** [s.strip()] *)
Definition strip (s : str) : str := rstrip (lstrip s).

Fixpoint startswith (p s : str) : bool :=
  match p, s with
  | [], _ => true
  | a :: p', b :: s' => Ascii.eqb a b && startswith p' s'
  | _ :: _, [] => false
  end.

(** [s.find(sep)]: the index of the first occurrence, if any. *)
Fixpoint find (sep s : str) : option nat :=
  if startswith sep s then Some O
  else match s with
       | [] => None
       | _ :: s' => option_map S (find sep s')
       end.

(** [sep in s] *)
Definition contains (sep s : str) : bool :=
  match find sep s with Some _ => true | None => false end.

Fixpoint split_aux (sep : str) (maxsplit : option nat) (fuel : nat) (s : str)
  : list str :=
  match fuel with
  | O => [s]
  | S fuel' =>
      match maxsplit with
      | Some O => [s]
      | _ =>
          match find sep s with
          | None => [s]
          | Some i =>
              firstn i s
              :: split_aux sep (option_map Nat.pred maxsplit) fuel'
                   (skipn (i + List.length sep) s)
          end
      end
  end.

(** [s.split(sep)] ([maxsplit = None]) and [s.split(sep, n)]
    ([maxsplit = Some n]) for a non-empty separator.  Each split consumes at
    least one character, so [length s] rounds are enough. *)
Definition split (sep : str) (maxsplit : option nat) (s : str) : list str :=
  split_aux sep maxsplit (S (List.length s)) s.

(** [s.splitlines()]: [cur] is the current line, reversed.  A carriage
    return followed by a line feed is one boundary; a boundary at the very
    end opens no further line. *)
Fixpoint splitlines_aux (cur : str) (s : str) : list str :=
  match s with
  | [] => match cur with [] => [] | _ => [rev cur] end
  | c :: s' =>
      if is_linebreak c then
        rev cur ::
        match s' with
        | d :: s'' =>
            if (code c =? 13) && (code d =? 10) then splitlines_aux [] s''
            else splitlines_aux [] s'
        | [] => []
        end
      else splitlines_aux (c :: cur) s'
  end.

Definition splitlines (s : str) : list str := splitlines_aux [] s.

(** [re.sub(r"[^...]", "", s)]: what remains are the characters of the class. *)
Definition keep (cls : ascii -> bool) (s : str) : str := filter cls s.

Definition minus : ascii := chr 45.
Definition dot : ascii := chr 46.

(** The class of [[^\d\-]], complemented. *)
Definition digit_or_minus (c : ascii) : bool :=
  is_digit c || Ascii.eqb c minus.

(** The class of [[^\d\.-]], complemented. *)
Definition digit_dot_or_minus (c : ascii) : bool :=
  is_digit c || Ascii.eqb c dot || Ascii.eqb c minus.

Definition digit_val (c : ascii) : Z := code c - 48.

(** The value of a run of decimal digits. *)
Definition digits_val (ds : str) : Z :=
  fold_left (fun acc c => 10 * acc + digit_val c) ds 0.

Definition all_digits (ds : str) : bool := forallb is_digit ds.

(** [int(s)] for a text over the alphabet [0-9-], which is all the cleaning
    regex lets through: an optional minus sign and at least one digit.
    [None] is [ValueError].  The interpreter's bound on the number of digits
    (4300 unless configured) is left out: the form fields hold at most 50
    characters. *)
Definition int_of_str (s : str) : option Z :=
  match s with
  | [] => None
  | c :: ds =>
      if Ascii.eqb c minus then
        match ds with
        | [] => None
        | _ => if all_digits ds then Some (- digits_val ds) else None
        end
      else if all_digits s then Some (digits_val s) else None
  end.

End Py.

(** ** Python floats: IEEE 754 binary64 *)

Module F64.

Import Py.

Definition prec : Z := 53.
Definition emax : Z := 1024.

Definition float := spec_float.

Definition zero : float := S754_zero false.

(** [x * y] and [x / y] on floats. *)
Definition mul (x y : float) : float := SFmul prec emax x y.
Definition div (x y : float) : float := SFdiv prec emax x y.

(** [x < y] and [x > y] on floats. *)
Definition ltb (x y : float) : bool := SFltb x y.
Definition gtb (x y : float) : bool := SFltb y x.
Definition leb (x y : float) : bool := SFleb x y.

(** The float nearest to [n / d] (ties to even) with sign [neg], for
    [0 <= n] and [0 < d]; infinite when the quotient is out of range. *)
Definition of_ratio (neg : bool) (n d : Z) : float :=
  match n with
  | Z0 => S754_zero neg
  | _ =>
      let '(q, e, l) := SFdiv_core_binary prec emax n 0 d 0 in
      binary_round_aux prec emax neg q e l
  end.

(** The conversion of an [int] operand to [float]; [None] is
    [OverflowError]. *)
Definition of_int (z : Z) : option float :=
  match binary_normalize prec emax z 0 false with
  | S754_infinity _ => None
  | f => Some f
  end.

(** [a / b] on ints with [b <> 0], correctly rounded; [None] is
    [OverflowError]. *)
Definition int_truediv (a b : Z) : option float :=
  match of_ratio (xorb (a <? 0) (b <? 0)) (Z.abs a) (Z.abs b) with
  | S754_infinity _ => None
  | f => Some f
  end.

(** [int(x)]: truncation toward zero; [None] is the exception raised on an
    infinity or a NaN. *)
Definition to_int (x : float) : option Z :=
  match x with
  | S754_zero _ => Some 0
  | S754_finite s m e =>
      let a := Z.shiftl (Zpos m) e in
      Some (if s then - a else a)
  | _ => None
  end.

(** [math.floor(x)]; [None] is the exception raised on an infinity or a
    NaN. *)
Definition floor (x : float) : option Z :=
  match x with
  | S754_zero _ => Some 0
  | S754_finite s m e =>
      Some (Z.shiftl (if s then - Zpos m else Zpos m) e)
  | _ => None
  end.

(** [100.0] *)
Definition hundred : float := of_ratio false 100 1.

(** Python's [min] and [max] of two floats keep the first argument unless
    the second compares strictly better. *)
Definition py_min (a b : float) : float := if ltb b a then b else a.
Definition py_max (a b : float) : float := if gtb b a then b else a.

(** [max(0.0, min(100.0, pct))] *)
Definition clamp_pct (pct : float) : float :=
  py_max zero (py_min hundred pct).

(** The leading digits of [s] and what follows them. *)
Fixpoint span_digits (s : str) : str * str :=
  match s with
  | c :: s' =>
      if is_digit c then let '(ds, r) := span_digits s' in (c :: ds, r)
      else ([], s)
  | [] => ([], [])
  end.

Definition nonempty (s : str) : bool :=
  match s with [] => false | _ => true end.

(** [float(s)] for a text over the alphabet [0-9.-], which is all the
    cleaning regex lets through: an optional minus sign, then digits with an
    optional point, at least one digit in all.  [None] is [ValueError]. *)
Definition float_of_str (s : str) : option float :=
  let '(neg, body) :=
    match s with
    | c :: r => if Ascii.eqb c minus then (true, r) else (false, s)
    | [] => (false, [])
    end in
  let '(ip, rest) := span_digits body in
  match rest with
  | [] => if nonempty ip then Some (of_ratio neg (digits_val ip) 1) else None
  | c :: fp =>
      if Ascii.eqb c dot && all_digits fp && (nonempty ip || nonempty fp)
      then Some (of_ratio neg (digits_val (ip ++ fp)) (10 ^ len fp))
      else None
  end.

(** Decimal digits of a non-negative integer, most significant first. *)
Fixpoint digits_aux (fuel : nat) (n : Z) (acc : str) : str :=
  match fuel with
  | O => acc
  | S fuel' =>
      let acc' := chr (48 + n mod 10) :: acc in
      if n / 10 =? 0 then acc' else digits_aux fuel' (n / 10) acc'
  end.

Definition str_of_nonneg (n : Z) : str :=
  digits_aux (S (Z.to_nat (Z.log2 n))) n [].

(** [n / d] rounded to the nearest integer, ties to even ([0 <= n], [0 < d]). *)
Definition round_half_even (n d : Z) : Z :=
  let q := n / d in
  match 2 * (n mod d) ?= d with
  | Lt => q
  | Gt => q + 1
  | Eq => if Z.even q then q else q + 1
  end.

(** The hundredths of [m * 2^e], rounded. *)
Definition hundredths (m : positive) (e : Z) : Z :=
  match e with
  | Zneg p => round_half_even (Zpos m * 100) (2 ^ Zpos p)
  | _ => Zpos m * 100 * 2 ^ e
  end.

Definition two_digits (n : Z) : str :=
  [chr (48 + n / 10); chr (48 + n mod 10)].

(** [f"{x:.2f}"] *)
Definition format_2f (x : float) : str :=
  match x with
  | S754_nan => lit "nan"
  | S754_infinity s => if s then lit "-inf" else lit "inf"
  | S754_zero s => if s then lit "-0.00" else lit "0.00"
  | S754_finite s m e =>
      let h := hundredths m e in
      (if s then [minus] else [])
      ++ str_of_nonneg (h / 100) ++ [dot] ++ two_digits (h mod 100)
  end.

End F64.

(** ** The source: [app.py] *)

Module App.

Import Py F64.

(** *** Helpers *)

(** [parse_salary_to_int(s)]; [None] is Python's [None]. *)
Definition parse_salary_to_int (s : str) : option Z :=
  match s with
  | [] => None
  | _ =>
      let cleaned := keep digit_or_minus s in
      if str_eqb cleaned [] || str_eqb cleaned (lit "-")
         || str_eqb cleaned (lit "--")
      then None
      else int_of_str cleaned
  end.

(** Thousands grouping of a digit string given least significant digit
    first. *)
Fixpoint group3 (rs : str) : str :=
  match rs with
  | a :: b :: c :: ((_ :: _) as rest) => a :: b :: c :: chr 44 :: group3 rest
  | _ => rs
  end.

(** [format_currency(n)], i.e. [f"{n:,}"].  The interpreter refuses to
    write an integer of more than 4300 digits (unless configured); that
    error is left out here, so the definition stands for the code when
    [|n| < 10 ^ 4300], and a property about every amount says so. *)
Definition format_currency (n : Z) : str :=
  (if n <? 0 then [minus] else [])
  ++ rev (group3 (rev (str_of_nonneg (Z.abs n)))).

(** Case folding of [re.I] on the letters of the pattern. *)
Definition lower (c : ascii) : ascii :=
  if (65 <=? code c) && (code c <=? 90) then chr (code c + 32) else c.

(** The text after the literal [kw] (given in lower case) at the start of
    [s], compared case-insensitively. *)
Fixpoint after_keyword (kw s : str) : option str :=
  match kw, s with
  | [], _ => Some s
  | k :: kw', c :: s' =>
      if Ascii.eqb k (lower c) then after_keyword kw' s' else None
  | _ :: _, [] => None
  end.

(** The class [[:\s\-]]. *)
Definition is_sep (c : ascii) : bool :=
  (code c =? 58) || isspace c || Ascii.eqb c minus.

(** The length of the longest run of separators at the start of [s]. *)
Fixpoint sep_run (s : str) : nat :=
  match s with
  | c :: s' => if is_sep c then S (sep_run s') else O
  | [] => O
  end.

(** [.] matches everything but a line feed. *)
Definition is_dot_char (c : ascii) : bool := negb (code c =? 10).

(** [$] also matches just before a line feed that ends the text: [t]
    without such a line feed. *)
Fixpoint chomp (t : str) : str :=
  match t with
  | [] => []
  | c :: t' =>
      match t' with
      | [] => if code c =? 10 then [] else [c]
      | _ => c :: chomp t'
      end
  end.

(** [(.{2,60})$] against the whole of [t]: the group, if it matches. *)
Definition match_group (t : str) : option str :=
  let cap := chomp t in
  if forallb is_dot_char cap && (2 <=? len cap) && (len cap <=? 60)
  then Some cap else None.

(** The greedy [[:\s\-]+] followed by the group: the separator run gives
    back one character at a time, down to one. *)
Fixpoint match_seps (n : nat) (rest : str) : option str :=
  match n with
  | O => None
  | S n' =>
      match match_group (skipn n rest) with
      | Some cap => Some cap
      | None => match_seps n' rest
      end
  end.

Definition match_keyword (kw ln : str) : option str :=
  match after_keyword kw ln with
  | Some rest => match_seps (sep_run rest) rest
  | None => None
  end.

(** [re.search(r"^(?:Name|Player)[:\s\-]+(.{2,60})$", ln, flags=re.I)]:
    group 1 of the match, if any. *)
Definition name_search (ln : str) : option str :=
  match match_keyword (lit "name") ln with
  | Some cap => Some cap
  | None => match_keyword (lit "player") ln
  end.

(** The [for ln in lines[:8]] loop: the first line that matches. *)
Fixpoint first_match (lines : list str) : option str :=
  match lines with
  | [] => None
  | ln :: lines' =>
      match name_search ln with
      | Some cap => Some cap
      | None => first_match lines'
      end
  end.

Definition unknown_player : str := lit "Unknown Player".

(** [[ln.strip() for ln in stats_text.splitlines() if ln.strip()]] *)
Definition stat_lines (stats_text : str) : list str :=
  map strip (filter (fun ln => nonempty (strip ln)) (splitlines stats_text)).

(** Lines 65-70: the fallback on the first line. *)
Definition fallback (first : str) : str :=
  if contains (lit " - ") first then
    strip (hd [] (split (lit " - ") (Some 1%nat) first))
  else if contains (lit ",") first
          && (len (hd [] (split (lit ",") None first)) <? 40)
  then strip (hd [] (split (lit ",") (Some 1%nat) first))
  else strip (firstn 60 first).

(** [extract_player_name(stats_text)] *)
Definition extract_player_name (stats_text : str) : str :=
  match stats_text with
  | [] => unknown_player
  | _ =>
      let lines := stat_lines stats_text in
      match lines with
      | [] => unknown_player
      | first :: _ =>
          match first_match (firstn 8 lines) with
          | Some cap => strip cap
          | None => fallback first
          end
      end
  end.

(** *** The modal and its submit handler *)

(** The values of the five text inputs, and [retention_type], which the two
    buttons set to ["percent"] and ["number"]. *)
Record RetentionModal := {
  teams : str;
  player_stats : str;
  player_salary : str;
  retention_amount : str;
  years_retained : str;
  retention_type : str
}.

(** The ephemeral messages of the handler. *)
Inductive notice :=
| SalaryNotice (salary_raw : str)
| YearsNotice
| RetentionNotice
| PercentNotice
| NumericNotice.

Definition notice_text (n : notice) : str :=
  match n with
  | SalaryNotice salary_raw =>
      lit "Could not parse salary from `" ++ salary_raw
      ++ lit "`. Use digits and optional commas/dollar sign."
  | YearsNotice => lit "Invalid years retained; provide a positive integer."
  | RetentionNotice => lit "Invalid retention amount."
  | PercentNotice => lit "Invalid percent value for retention."
  | NumericNotice => lit "Invalid numeric retention value."
  end.

(** What the two branches on [retention_type] leave in the local variables. *)
Record retention := {
  pct : float;
  retained_amount : Z;
  remaining : Z;
  retention_display : str
}.

(** The values interpolated into the embed. *)
Record embed := {
  t_from : str;
  t_to : str;
  player_name : str;
  salary_val : Z;
  years : Z;
  kept : retention;
  expire_year : Z;
  ratio_denominator : Z;
  stats_preview : str;
  footer : str
}.

(** The ways the handler ends: an ephemeral message, the embed, or an
    exception that no [except] clause catches. *)
Inductive outcome (A : Type) :=
| Rejected (n : notice)
| Raised
| Done (a : A).

Arguments Rejected {A} n.
Arguments Raised {A}.
Arguments Done {A} a.

Definition bind {A B : Type} (x : outcome A) (f : A -> outcome B)
  : outcome B :=
  match x with
  | Rejected n => Rejected n
  | Raised => Raised
  | Done a => f a
  end.

Notation "x <- e ;; k" := (bind e (fun x => k))
  (at level 61, e at next level, right associativity).
Notation "' pat <- e ;; k" := (bind e (fun x => match x with pat => k end))
  (at level 61, pat pattern, e at next level, right associativity).

Definition or_reject {A : Type} (n : notice) (x : option A) : outcome A :=
  match x with Some a => Done a | None => Rejected n end.

Definition or_raise {A : Type} (x : option A) : outcome A :=
  match x with Some a => Done a | None => Raised end.

(** Lines 123-132: the two teams.  Unpacking into [t_from, t_to] raises
    unless the list has exactly two elements. *)
Definition unpack2 (parts : list str) : outcome (str * str) :=
  match parts with
  | [a; b] => Done (a, b)
  | _ => Raised
  end.

Definition split_teams (raw : str) : outcome (str * str) :=
  if contains (lit "->") raw then
    unpack2 (map strip (split (lit "->") (Some 1%nat) raw))
  else if contains (lit "/") raw then
    unpack2 (map strip (split (lit "/") (Some 1%nat) raw))
  else if contains (lit ",") raw then
    unpack2 (map strip (split (lit ",") (Some 1%nat) raw))
  else Done (raw, lit "Unknown").

(** Lines 148-154: the years, [None] when the [try] block raises. *)
Definition parse_years (value : str) : option Z :=
  let cleaned := keep digit_or_minus (strip value) in
  match int_of_str (if nonempty cleaned then cleaned else lit "0") with
  | Some y => if y <? 0 then None else Some y
  | None => None
  end.

Definition percent_sign : str := lit "%".

(** Lines 162-172: the percent branch. *)
Definition retention_percent (salary_val : Z) (retention_raw : str)
  : outcome retention :=
  pct0 <- or_reject PercentNotice (float_of_str retention_raw) ;;
  let pct := clamp_pct pct0 in
  let ratio := div pct hundred in
  salary_f <- or_raise (of_int salary_val) ;;
  retained_amount <- or_raise (floor (mul salary_f ratio)) ;;
  let remaining := salary_val - retained_amount in
  Done {| pct := pct;
          retained_amount := retained_amount;
          remaining := remaining;
          retention_display := format_2f pct ++ percent_sign |}.

(** Lines 173-183: the numeric branch. *)
Definition retention_number (salary_val : Z) (retention_raw : str)
  : outcome retention :=
  r0 <- or_reject NumericNotice
          (match float_of_str retention_raw with
           | Some f => to_int f
           | None => None
           end) ;;
  let retained_amount := Z.max 0 r0 in
  let remaining := Z.max 0 (salary_val - retained_amount) in
  pct <- (if salary_val >? 0 then
            q <- or_raise (int_truediv retained_amount salary_val) ;;
            Done (mul q hundred)
          else Done zero) ;;
  Done {| pct := pct;
          retained_amount := retained_amount;
          remaining := remaining;
          retention_display :=
            lit "$" ++ format_currency retained_amount ++ lit " ("
            ++ format_2f pct ++ lit "%)" |}.

(** Lines 162-183. *)
Definition compute_retention (retention_type : str) (salary_val : Z)
    (retention_raw : str) : outcome retention :=
  if str_eqb retention_type (lit "percent")
  then retention_percent salary_val retention_raw
  else retention_number salary_val retention_raw.

(** Line 211: the preview of the stats. *)
Definition preview (stats_text : str) : str :=
  if len stats_text <=? 1000 then stats_text
  else firstn 997 stats_text ++ lit "...".

(** [on_submit]; [now_year] is [datetime.now().year]. *)
Definition on_submit (self : RetentionModal) (now_year : Z) : outcome embed :=
  let raw := strip (teams self) in
  '(t_from, t_to) <- split_teams raw ;;
  let stats_text := strip (player_stats self) in
  let player_name := extract_player_name stats_text in
  let salary_raw := strip (player_salary self) in
  salary_val <- or_reject (SalaryNotice salary_raw)
                  (parse_salary_to_int salary_raw) ;;
  years <- or_reject YearsNotice (parse_years (years_retained self)) ;;
  let retention_raw :=
    keep digit_dot_or_minus (strip (retention_amount self)) in
  if str_eqb retention_raw [] then Rejected RetentionNotice
  else
    kept <- compute_retention (retention_type self) salary_val retention_raw ;;
    let expire_year := now_year + years in
    Done {| t_from := t_from;
            t_to := t_to;
            player_name := player_name;
            salary_val := salary_val;
            years := years;
            kept := kept;
            expire_year := expire_year;
            ratio_denominator := (if years >? 0 then years else 1);
            stats_preview := preview stats_text;
            footer :=
              lit "Retention type: "
              ++ (if str_eqb (retention_type self) (lit "percent")
                  then lit "Percent" else lit "Numeric") |}.

(** Line 212: the value of the stats field. *)
Definition stats_field (stats_preview : str) : str :=
  lit "```" ++ stats_preview ++ lit "```".

(** Line 97: the [max_length] of the salary input. *)
Definition salary_max_length : Z := 50.

End App.

(** ** The specification's vocabulary *)

Module Spec.

Import Py F64 App.

(** [sep] occurs in [s]. *)
Definition occurs (sep s : str) : Prop :=
  exists a b, s = a ++ sep ++ b.

(** [a] is what precedes the first occurrence of [sep] in [s], and [b] what
    follows it. *)
Definition first_occurrence (sep s a b : str) : Prop :=
  s = a ++ sep ++ b /\
  forall a' b', s = a' ++ sep ++ b' -> (List.length a <= List.length a')%nat.

(** An integer literal over the alphabet [0-9-]: an optional minus sign and
    at least one digit. *)
Definition int_literal (s : str) : Prop :=
  exists ds, ds <> [] /\ Forall (fun c => is_digit c = true) ds /\
             (s = ds \/ s = minus :: ds).

(** The team split in the specification's words: the separators are looked
    for in the order ["->"], ["/"], [","]; the text is cut at the first
    occurrence of the first one present and both sides are trimmed; with no
    separator the receiving team is ["Unknown"]. *)
Definition team_split (raw : str) (res : str * str) : Prop :=
  (exists a b, first_occurrence (lit "->") raw a b /\ res = (strip a, strip b))
  \/ (~ occurs (lit "->") raw /\
      exists a b, first_occurrence (lit "/") raw a b /\
                  res = (strip a, strip b))
  \/ (~ occurs (lit "->") raw /\ ~ occurs (lit "/") raw /\
      exists a b, first_occurrence (lit ",") raw a b /\
                  res = (strip a, strip b))
  \/ (~ occurs (lit "->") raw /\ ~ occurs (lit "/") raw /\
      ~ occurs (lit ",") raw /\ res = (raw, lit "Unknown")).

(** The name pattern in the specification's words: the line starts with
    [Name] or [Player] in any case, then come one or more of colon, white
    space and hyphen, then the capture [cap], 2 to 60 characters up to the end
    of the line.  As in the regular expression, a character is anything but
    a line feed and the end of line may be followed by one last line feed. *)
Definition name_pattern (ln cap : str) : Prop :=
  exists w seps tail,
    (map lower w = lit "name" \/ map lower w = lit "player")
    /\ seps <> [] /\ Forall (fun c => is_sep c = true) seps
    /\ Forall (fun c => code c <> 10) cap
    /\ 2 <= len cap <= 60
    /\ (tail = [] \/ tail = [chr 10])
    /\ ln = w ++ seps ++ cap ++ tail.

(** The capture of a line: the separators are greedy, so it is the shortest
    one the pattern allows. *)
Definition name_capture (ln cap : str) : Prop :=
  name_pattern ln cap
  /\ forall cap', name_pattern ln cap' ->
                  (List.length cap <= List.length cap')%nat.

Definition no_name (ln : str) : Prop := forall cap, ~ name_pattern ln cap.

(** The fallback on the first line; [post] is what is done to the text
    found before a separator. *)
Definition fallback_name (post : str -> str) (first name : str) : Prop :=
  (exists a b, first_occurrence (lit " - ") first a b /\ name = post a)
  \/ (~ occurs (lit " - ") first /\
      exists a b, first_occurrence (lit ",") first a b /\ len a < 40
                  /\ name = post a)
  \/ (~ occurs (lit " - ") first /\
      (~ occurs (lit ",") first \/
       exists a b, first_occurrence (lit ",") first a b /\ 40 <= len a)
      /\ name = strip (firstn 60 first)).

(** The rules of player-name extraction over the non-empty trimmed lines. *)
Definition player_name_rule (post : str -> str) (lines : list str)
    (name : str) : Prop :=
  match lines with
  | [] => name = unknown_player
  | first :: _ =>
      (exists i ln cap,
          (i < 8)%nat /\ nth_error lines i = Some ln /\ name_capture ln cap
          /\ (forall j lj, (j < i)%nat -> nth_error lines j = Some lj ->
                           no_name lj)
          /\ name = strip cap)
      \/ ((forall j lj, (j < 8)%nat -> nth_error lines j = Some lj ->
                        no_name lj)
          /\ fallback_name post first name)
  end.

(** The number of characters, 0 or 1, that the end of line leaves out. *)
Definition feed_end (t : str) : nat :=
  (List.length t - List.length (chomp t))%nat.

(** A non-empty trimmed line starts and ends with something visible. *)
Definition visible_ends (ln : str) : Prop :=
  (exists c r, ln = c :: r /\ isspace c = false)
  /\ (exists r c, ln = r ++ [c] /\ isspace c = false).

(** The first non-empty trimmed line starts with a comma. *)
Definition comma_first (stats_text : str) : Prop :=
  exists r rest, stat_lines stats_text = (chr 44 :: r) :: rest.

(** A float without a minus sign (a NaN has none). *)
Definition unsigned (x : float) : Prop :=
  match x with
  | S754_zero s | S754_infinity s | S754_finite s _ _ => s = false
  | S754_nan => True
  end.

(** Zero, or finite in the canonical form of binary64 and within its
    range. *)
Definition canonical (x : float) : Prop :=
  match x with
  | S754_zero _ => True
  | S754_finite _ m e => bounded prec emax m e = true
  | _ => False
  end.

(** Zero, or finite and at most [mt * 2^et] in absolute value. *)
Definition below (mt et : Z) (x : float) : Prop :=
  match x with
  | S754_zero _ => True
  | S754_finite _ m e => e <= et /\ Zpos m <= mt * 2 ^ (et - e)
  | _ => False
  end.

(** The largest finite binary64 number, an integer. *)
Definition max_float : Z := 9007199254740991 * 2 ^ 971.

(** [floor(s * p / 100)] in exact arithmetic, for a finite [p]. *)
Definition exact_floor_pct (s : Z) (p : float) : Z :=
  match p with
  | S754_finite sg m e =>
      let n := if sg then - Z.pos m else Z.pos m in
      (s * n * 2 ^ Z.max e 0) / (100 * 2 ^ Z.max (- e) 0)
  | _ => 0
  end.

(** [r] is [x] truncated toward zero. *)
Definition truncation (x : float) (r : Z) : Prop :=
  match x with
  | S754_zero _ => r = 0
  | S754_finite sg m e =>
      r = Z.quot ((if sg then - Z.pos m else Z.pos m) * 2 ^ Z.max e 0)
                 (2 ^ Z.max (- e) 0)
  | _ => False
  end.

(** A text made of one or more digits, a point and exactly two digits,
    which reads as [h] hundredths. *)
Definition two_decimals (txt : str) (h : Z) : Prop :=
  exists ip d1 d2,
    txt = ip ++ [dot; d1; d2] /\ ip <> [] /\ all_digits ip = true
    /\ is_digit d1 = true /\ is_digit d2 = true
    /\ 100 * digits_val ip + 10 * digit_val d1 + digit_val d2 = h.

(** The hundredths of a float that is zero or finite, rounded to the nearest
    integer, ties to even. *)
Definition rounded_hundredths (x : float) : Z :=
  match x with
  | S754_finite _ m e => hundredths m e
  | _ => 0
  end.

(** A decimal literal over [0-9.-]: an optional minus sign, digits, and
    possibly a point and digits, with a digit somewhere. *)
Definition float_literal (s : str) : Prop :=
  exists sign ip frac,
    s = sign ++ ip ++ frac
    /\ (sign = [] \/ sign = [minus])
    /\ all_digits ip = true
    /\ ((frac = [] /\ ip <> [])
        \/ exists fp, frac = dot :: fp /\ all_digits fp = true
                      /\ (ip <> [] \/ fp <> [])).

(** The real number [2 ^ e]. *)
Definition two_to (e : Z) : Rdefinitions.R :=
  Rfunctions.powerRZ (Rdefinitions.IZR 2) e.

End Spec.

(** ** Inputs used as examples *)

Module Inputs.

Import Py App.

(** A field of 1014 characters, a thousand of them leading blanks. *)
Definition padded_modal : RetentionModal :=
  {| teams := lit "Rangers -> Devils";
     player_stats := repeat (chr 32) 1000 ++ lit "Name: J. Smith";
     player_salary := lit "$8,000,000";
     retention_amount := lit "25";
     years_retained := lit "2";
     retention_type := lit "percent" |}.

(** The first line of this text has two blanks before the hyphen. *)
Definition spaced_stats : str := lit "Jane  - Fwd".

(** A submission with a negative salary. *)
Definition negative_modal : RetentionModal :=
  {| teams := lit "Rangers -> Devils";
     player_stats := lit "Name: J. Smith";
     player_salary := lit "-5";
     retention_amount := lit "25";
     years_retained := lit "2";
     retention_type := lit "percent" |}.

(** The first end-to-end scenario of the specification. *)
Definition scenario_percent : RetentionModal :=
  {| teams := lit "Rangers -> Devils";
     player_stats := lit "Name: J. Smith";
     player_salary := lit "$8,000,000";
     retention_amount := lit "25";
     years_retained := lit "2";
     retention_type := lit "percent" |}.

(** A stats field of 1000 letters followed by a blank. *)
Definition blank_tail_modal : RetentionModal :=
  {| teams := lit "Rangers -> Devils";
     player_stats := repeat (chr 120) 1000 ++ lit " ";
     player_salary := lit "$8,000,000";
     retention_amount := lit "25";
     years_retained := lit "2";
     retention_type := lit "percent" |}.

(** A short stats field with a blank on each side. *)
Definition blank_sides_modal : RetentionModal :=
  {| teams := lit "Rangers -> Devils";
     player_stats := lit " GP: 10 ";
     player_salary := lit "$8,000,000";
     retention_amount := lit "25";
     years_retained := lit "2";
     retention_type := lit "percent" |}.

(** A submission whose years text holds no digit. *)
Definition wordy_years_modal : RetentionModal :=
  {| teams := lit "Rangers -> Devils";
     player_stats := lit "Name: J. Smith";
     player_salary := lit "$8,000,000";
     retention_amount := lit "25";
     years_retained := lit "none";
     retention_type := lit "percent" |}.

(** A submission whose retention text has two points. *)
Definition dotted_retention_modal : RetentionModal :=
  {| teams := lit "Rangers -> Devils";
     player_stats := lit "Name: J. Smith";
     player_salary := lit "$8,000,000";
     retention_amount := lit "2.5.0";
     years_retained := lit "2";
     retention_type := lit "percent" |}.

End Inputs.

(** * Properties *)

(** Linear arithmetic with quotients by constants. *)
Ltac div_lia := Z.to_euclidean_division_equations; lia.

Import Py F64 App Spec Inputs.

(** ** Strings *)

Section StringFacts.

Lemma str_eqb_eq (a b : str) : str_eqb a b = true <-> a = b.
Proof.
  unfold str_eqb. destruct (list_eq_dec ascii_dec a b); split; congruence.
Qed.

Lemma str_eqb_neq (a b : str) : str_eqb a b = false <-> a <> b.
Proof.
  unfold str_eqb. destruct (list_eq_dec ascii_dec a b); split; congruence.
Qed.

Lemma nonempty_true (s : str) : nonempty s = true <-> s <> [].
Proof. destruct s; simpl; split; congruence. Qed.

Lemma len_nonneg (s : str) : 0 <= len s.
Proof. unfold len. lia. Qed.

Lemma len_app (a b : str) : len (a ++ b) = len a + len b.
Proof. unfold len. rewrite length_app. lia. Qed.

(** Cleaning with a class that holds no white space does not see [strip]. *)
Lemma keep_lstrip (cls : ascii -> bool) (s : str) :
  (forall c, cls c = true -> isspace c = false) ->
  keep cls (lstrip s) = keep cls s.
Proof.
  intros Hcls. induction s as [|c s IH]; simpl; [reflexivity|].
  destruct (isspace c) eqn:Hc; [|reflexivity].
  rewrite IH. destruct (cls c) eqn:Hk; [|reflexivity].
  apply Hcls in Hk. congruence.
Qed.

Lemma keep_rev (cls : ascii -> bool) (s : str) :
  keep cls (rev s) = rev (keep cls s).
Proof.
  unfold keep. induction s as [|c s IH]; simpl; [reflexivity|].
  rewrite filter_app, IH. simpl. destruct (cls c); simpl.
  - reflexivity.
  - now rewrite app_nil_r.
Qed.

Lemma keep_strip (cls : ascii -> bool) (s : str) :
  (forall c, cls c = true -> isspace c = false) ->
  keep cls (strip s) = keep cls s.
Proof.
  intros Hcls. unfold strip, rstrip.
  rewrite keep_rev, keep_lstrip, keep_rev, rev_involutive by assumption.
  now apply keep_lstrip.
Qed.

Lemma digit_not_space (c : ascii) : is_digit c = true -> isspace c = false.
Proof. unfold is_digit, isspace. lia. Qed.

Lemma minus_not_space (c : ascii) : Ascii.eqb c minus = true -> isspace c = false.
Proof. intros H. apply Ascii.eqb_eq in H. subst. reflexivity. Qed.

Lemma digit_or_minus_not_space (c : ascii) :
  digit_or_minus c = true -> isspace c = false.
Proof.
  unfold digit_or_minus. intros H. apply orb_true_iff in H.
  destruct H; auto using digit_not_space, minus_not_space.
Qed.

(** *** Searching *)

Lemma startswith_app (p r : str) : startswith p (p ++ r) = true.
Proof.
  induction p as [|a p IH]; simpl; [reflexivity|].
  now rewrite Ascii.eqb_refl.
Qed.

Lemma startswith_inv (p s : str) :
  startswith p s = true -> s = p ++ skipn (List.length p) s.
Proof.
  revert s. induction p as [|a p IH]; intros s H; simpl in *; [reflexivity|].
  destruct s as [|b s]; [discriminate|].
  apply andb_true_iff in H. destruct H as [Hab H].
  apply Ascii.eqb_eq in Hab. subst. simpl. f_equal. now apply IH.
Qed.

Lemma find_unfold (sep s : str) :
  find sep s =
  if startswith sep s then Some O
  else match s with
       | [] => None
       | _ :: s' => option_map S (find sep s')
       end.
Proof. destruct s; reflexivity. Qed.

Lemma find_some (sep s : str) (i : nat) :
  find sep s = Some i ->
  first_occurrence sep s (firstn i s) (skipn (i + List.length sep) s)
  /\ List.length (firstn i s) = i.
Proof.
  revert i. induction s as [|c s IH]; intros i H; rewrite find_unfold in H.
  - destruct (startswith sep []) eqn:Hp; [|discriminate].
    injection H as <-. destruct sep; [|discriminate]. simpl.
    split; [split|]; [reflexivity| |reflexivity]. intros; simpl; lia.
  - destruct (startswith sep (c :: s)) eqn:Hp.
    + injection H as <-. apply startswith_inv in Hp.
      split; [split|]; [exact Hp| |reflexivity]. intros; simpl; lia.
    + destruct (find sep s) as [j|] eqn:Hf; [|discriminate].
      injection H as <-. destruct (IH j eq_refl) as [[Heq Hmin] Hlen].
      split; [split|].
      * simpl. now f_equal.
      * intros a' b' H'. destruct a' as [|c' a'].
        -- simpl in H'. rewrite H', startswith_app in Hp. discriminate.
        -- simpl in H'. injection H' as -> H'.
           apply Hmin in H'. simpl. lia.
      * simpl. now f_equal.
Qed.

Lemma find_none (sep s : str) : find sep s = None -> ~ occurs sep s.
Proof.
  induction s as [|c s IH]; intros H [a [b Hab]]; rewrite find_unfold in H.
  - destruct (startswith sep []) eqn:Hp; [discriminate|].
    destruct a; [|discriminate]. simpl in Hab.
    rewrite Hab, startswith_app in Hp. discriminate.
  - destruct (startswith sep (c :: s)) eqn:Hp; [discriminate|].
    destruct (find sep s) eqn:Hf; [discriminate|].
    destruct a as [|c' a].
    + simpl in Hab. rewrite Hab, startswith_app in Hp. discriminate.
    + simpl in Hab. injection Hab as -> Hab. apply IH; [reflexivity|].
      now exists a, b.
Qed.

Lemma contains_true (sep s : str) :
  contains sep s = true <-> occurs sep s.
Proof.
  unfold contains. destruct (find sep s) as [i|] eqn:Hf.
  - split; [intros _|reflexivity].
    apply find_some in Hf. destruct Hf as [[Heq _] _]. eexists _, _; exact Heq.
  - split; [discriminate|]. intros H. now apply find_none in Hf.
Qed.

Lemma contains_false (sep s : str) :
  contains sep s = false <-> ~ occurs sep s.
Proof.
  rewrite <- contains_true. destruct (contains sep s); split; congruence.
Qed.

Lemma first_occurrence_unique (sep s a b a' b' : str) :
  first_occurrence sep s a b -> first_occurrence sep s a' b' ->
  a = a' /\ b = b'.
Proof.
  intros [H1 M1] [H2 M2].
  assert (Hlen : List.length a = List.length a').
  { apply Nat.le_antisymm; [now apply (M1 a' b')|now apply (M2 a b)]. }
  rewrite H1 in H2. apply app_eq_app in H2.
  destruct H2 as [l [[-> H2]|[-> H2]]]; rewrite length_app in Hlen;
    (destruct l; [|simpl in Hlen; lia]); rewrite app_nil_r; simpl in H2;
    apply app_inv_head in H2; auto.
Qed.

(** [s.split(sep, 1)] and the first element of [s.split(sep)]. *)
Lemma split_once (sep s : str) (i : nat) :
  find sep s = Some i ->
  split sep (Some 1%nat) s = [firstn i s; skipn (i + List.length sep) s].
Proof.
  intros H. unfold split. simpl. rewrite H. simpl.
  destruct (List.length s); reflexivity.
Qed.

Lemma split_head (sep s : str) (i : nat) :
  find sep s = Some i -> hd [] (split sep None s) = firstn i s.
Proof. intros H. unfold split. simpl. now rewrite H. Qed.

End StringFacts.

(** *** Integer literals *)

Section IntFacts.

Lemma all_digits_Forall (ds : str) :
  all_digits ds = true <-> Forall (fun c => is_digit c = true) ds.
Proof. unfold all_digits. rewrite forallb_forall, Forall_forall. tauto. Qed.

Lemma minus_not_digit : is_digit minus = false.
Proof. reflexivity. Qed.

(** [int()] accepts exactly the integer literals. *)
Lemma int_of_str_literal (s : str) :
  int_of_str s <> None <-> int_literal s.
Proof.
  unfold int_of_str, int_literal. split.
  - destruct s as [|c ds]; [congruence|].
    destruct (Ascii.eqb c minus) eqn:Hc.
    + apply Ascii.eqb_eq in Hc. subst c.
      destruct ds as [|d ds]; [congruence|].
      destruct (all_digits (d :: ds)) eqn:Hd; [|congruence]. intros _.
      exists (d :: ds). rewrite <- all_digits_Forall. intuition congruence.
    + destruct (all_digits (c :: ds)) eqn:Hd; [|congruence]. intros _.
      exists (c :: ds). rewrite <- all_digits_Forall. intuition congruence.
  - intros [ds [Hne [Hds [->| ->]]]].
    + destruct ds as [|c ds]; [congruence|].
      apply all_digits_Forall in Hds.
      destruct (Ascii.eqb c minus) eqn:Hc.
      * apply Ascii.eqb_eq in Hc. subst c.
        change (is_digit minus && all_digits ds = true) in Hds.
        rewrite minus_not_digit in Hds. discriminate.
      * rewrite Hds. discriminate.
    + rewrite Ascii.eqb_refl. destruct ds; [congruence|].
      apply all_digits_Forall in Hds. rewrite Hds. discriminate.
Qed.

Lemma int_of_str_none (s : str) : int_of_str s = None <-> ~ int_literal s.
Proof.
  rewrite <- int_of_str_literal. destruct (int_of_str s).
  - split; [discriminate|]. intros H. exfalso. apply H. discriminate.
  - split; [|reflexivity]. intros _ H. now apply H.
Qed.

End IntFacts.

(** ** The handler, step by step *)

Section HandlerFacts.

Lemma unpack2_split (sep raw : str) :
  contains sep raw = true ->
  exists a b, first_occurrence sep raw a b /\
    unpack2 (map strip (split sep (Some 1%nat) raw)) = Done (strip a, strip b).
Proof.
  unfold contains. destruct (find sep raw) as [i|] eqn:Hf; [|discriminate].
  intros _. rewrite (split_once _ _ _ Hf). simpl.
  apply find_some in Hf. destruct Hf as [Hf _]. eauto.
Qed.

(** The unpacking of the two teams never raises. *)
Lemma split_teams_done (raw : str) : exists p, split_teams raw = Done p.
Proof.
  unfold split_teams.
  destruct (contains (lit "->") raw) eqn:H1.
  { destruct (unpack2_split _ _ H1) as [a [b [_ ->]]]. eauto. }
  destruct (contains (lit "/") raw) eqn:H2.
  { destruct (unpack2_split _ _ H2) as [a [b [_ ->]]]. eauto. }
  destruct (contains (lit ",") raw) eqn:H3.
  { destruct (unpack2_split _ _ H3) as [a [b [_ ->]]]. eauto. }
  eauto.
Qed.

Lemma compute_retention_rejected (rt : str) (s : Z) (raw : str) (n : notice) :
  compute_retention rt s raw = Rejected n ->
  n = PercentNotice \/ n = NumericNotice.
Proof.
  unfold compute_retention, retention_percent, retention_number.
  destruct (str_eqb rt (lit "percent")).
  - destruct (float_of_str raw) as [p|]; simpl.
    + destruct (of_int s); simpl; [|discriminate].
      destruct (floor _); simpl; discriminate.
    + intros H; injection H as <-; auto.
  - destruct (match float_of_str raw with Some f => to_int f | None => None end);
      simpl.
    + destruct (s >? 0); simpl; [|discriminate].
      destruct (int_truediv _ _); simpl; discriminate.
    + intros H; injection H as <-; auto.
Qed.

(** What a submission that ends with the embed went through. *)
Lemma on_submit_done (self : RetentionModal) (now : Z) (e : embed) :
  on_submit self now = Done e ->
  let stats_text := strip (player_stats self) in
  let retention_raw := keep digit_dot_or_minus (strip (retention_amount self)) in
  split_teams (strip (teams self)) = Done (t_from e, t_to e)
  /\ player_name e = extract_player_name stats_text
  /\ parse_salary_to_int (strip (player_salary self)) = Some (salary_val e)
  /\ parse_years (years_retained self) = Some (years e)
  /\ retention_raw <> []
  /\ compute_retention (retention_type self) (salary_val e) retention_raw
     = Done (kept e)
  /\ expire_year e = now + years e
  /\ stats_preview e = preview stats_text.
Proof.
  unfold on_submit. intros H.
  destruct (split_teams (strip (teams self))) as [| |[tf tt]]; try discriminate.
  simpl in H.
  destruct (parse_salary_to_int (strip (player_salary self))) as [sv|];
    try discriminate.
  simpl in H.
  destruct (parse_years (years_retained self)) as [ys|]; try discriminate.
  simpl in H.
  destruct (str_eqb _ []) eqn:Hraw; try discriminate.
  apply str_eqb_neq in Hraw.
  destruct (compute_retention _ _ _) as [| |k] eqn:Hk; try discriminate.
  simpl in H. injection H as <-. simpl. repeat split; auto.
Qed.

Lemma on_submit_salary_notice (self : RetentionModal) (now : Z) :
  (exists salary_raw, on_submit self now = Rejected (SalaryNotice salary_raw))
  <-> parse_salary_to_int (strip (player_salary self)) = None.
Proof.
  unfold on_submit.
  destruct (split_teams_done (strip (teams self))) as [[tf tt] ->]. simpl.
  destruct (parse_salary_to_int (strip (player_salary self))) as [sv|]; simpl.
  - split; [|discriminate]. intros [raw H]. exfalso.
    destruct (parse_years (years_retained self)); simpl in H; [|discriminate].
    destruct (str_eqb _ []); [discriminate|].
    destruct (compute_retention _ _ _) eqn:Hc; simpl in H; try discriminate.
    injection H as ->. apply compute_retention_rejected in Hc.
    destruct Hc; discriminate.
  - split; eauto.
Qed.


End HandlerFacts.

(** ** Salary, years, teams and preview *)

Section Normalizer.

Lemma parse_salary_to_int_none (s : str) :
  let cleaned := keep digit_or_minus s in
  parse_salary_to_int s = None <->
  cleaned = [] \/ cleaned = lit "-" \/ cleaned = lit "--"
  \/ int_of_str cleaned = None.
Proof.
  unfold parse_salary_to_int. destruct s as [|c s].
  { simpl. split; auto. }
  cbv beta iota zeta.
  remember (keep digit_or_minus (c :: s)) as cleaned eqn:Hcl. clear Hcl.
  destruct (str_eqb cleaned []) eqn:H0.
  { apply str_eqb_eq in H0. simpl. split; auto. }
  destruct (str_eqb cleaned (lit "-")) eqn:H1.
  { apply str_eqb_eq in H1. simpl. split; auto. }
  destruct (str_eqb cleaned (lit "--")) eqn:H2.
  { apply str_eqb_eq in H2. simpl. split; auto. }
  apply str_eqb_neq in H0, H1, H2. simpl. intuition congruence.
Qed.

Lemma parse_salary_to_int_some (s : str) (v : Z) :
  parse_salary_to_int s = Some v ->
  int_of_str (keep digit_or_minus s) = Some v.
Proof.
  unfold parse_salary_to_int. destruct s as [|c s]; [discriminate|].
  destruct (_ || _ || _); [discriminate|auto].
Qed.

(** C5: salary parsing keeps the digits and minus signs of [salaryText] and
    fails (the handler answers with the salary notice) exactly when what is
    kept is empty, ["-"], ["--"] or not an integer literal; the four examples
    of the specification evaluate as stated. *)
Theorem C5_salary_parsing :
  (forall salaryText : str,
     let cleaned := keep digit_or_minus salaryText in
     (parse_salary_to_int (strip salaryText) = None <->
      cleaned = [] \/ cleaned = lit "-" \/ cleaned = lit "--"
      \/ int_of_str cleaned = None)
     /\ (int_of_str cleaned = None <-> ~ int_literal cleaned)
     /\ (forall v, parse_salary_to_int (strip salaryText) = Some v ->
                   int_of_str cleaned = Some v))
  /\ (forall (self : RetentionModal) (now : Z),
        (exists salary_raw,
            on_submit self now = Rejected (SalaryNotice salary_raw))
        <-> parse_salary_to_int (strip (player_salary self)) = None)
  /\ parse_salary_to_int (lit "$12,000,000") = Some 12000000
  /\ parse_salary_to_int (lit "12000000") = Some 12000000
  /\ parse_salary_to_int (lit "") = None
  /\ parse_salary_to_int (lit "-") = None.
Proof.
  split; [|split; [exact on_submit_salary_notice|repeat split]].
  intros salaryText cleaned. subst cleaned.
  rewrite <- (keep_strip digit_or_minus salaryText digit_or_minus_not_space).
  split; [apply parse_salary_to_int_none|].
  split; [apply int_of_str_none|apply parse_salary_to_int_some].
Qed.

Lemma C5_salary_parsing_witness :
  parse_salary_to_int (strip (lit " $2,500,000 ")) = Some 2500000
  /\ int_of_str (keep digit_or_minus (lit " $2,500,000 ")) = Some 2500000.
Proof.
  assert (H : parse_salary_to_int (strip (lit " $2,500,000 "))
              = Some 2500000) by reflexivity.
  split; [exact H|].
  destruct C5_salary_parsing as [Hall _].
  pose proof (Hall (lit " $2,500,000 ")) as Hone. cbv zeta in Hone.
  destruct Hone as (_ & _ & Hv). exact (Hv _ H).
Defined.


Lemma parse_years_some (value : str) (y : Z) :
  parse_years value = Some y -> 0 <= y.
Proof.
  unfold parse_years. destruct (int_of_str _) as [y'|]; [|discriminate].
  destruct (y' <? 0) eqn:Hy; [discriminate|].
  intros H; injection H as <-. lia.
Qed.



Lemma split_teams_spec (raw : str) :
  exists res, split_teams raw = Done res /\ team_split raw res.
Proof.
  unfold split_teams, team_split.
  destruct (contains (lit "->") raw) eqn:H1.
  { destruct (unpack2_split _ _ H1) as [a [b [Hf ->]]]. eauto 10. }
  destruct (contains (lit "/") raw) eqn:H2.
  { destruct (unpack2_split _ _ H2) as [a [b [Hf ->]]].
    apply contains_false in H1. eauto 10. }
  destruct (contains (lit ",") raw) eqn:H3.
  { destruct (unpack2_split _ _ H3) as [a [b [Hf ->]]].
    apply contains_false in H1, H2. eauto 12. }
  apply contains_false in H1, H2, H3. eauto 12.
Qed.

(** C7: the team split looks for ["->"], ["/"], [","] in that order, cuts
    the trimmed text at the first occurrence of the first separator present
    and trims both parts; without a separator it answers the trimmed text and
    ["Unknown"]; the three examples of the specification evaluate as stated. *)
Theorem C7_team_split :
  (forall teamsText : str,
     exists res, split_teams (strip teamsText) = Done res
                 /\ team_split (strip teamsText) res)
  /\ (forall (self : RetentionModal) (now : Z) (e : embed),
        on_submit self now = Done e ->
        team_split (strip (teams self)) (t_from e, t_to e))
  /\ split_teams (strip (lit "Rangers -> Devils"))
     = Done (lit "Rangers", lit "Devils")
  /\ split_teams (strip (lit "Rangers / Devils"))
     = Done (lit "Rangers", lit "Devils")
  /\ split_teams (strip (lit "Rangers")) = Done (lit "Rangers", lit "Unknown").
Proof.
  split; [intros; apply split_teams_spec|].
  split; [|repeat split].
  intros self now e He. apply on_submit_done in He.
  destruct He as (Ht & _).
  destruct (split_teams_spec (strip (teams self))) as [res [Hr Hs]].
  congruence.
Qed.

Lemma C7_team_split_witness :
  exists e,
    on_submit scenario_percent 2026 = Done e
    /\ team_split (lit "Rangers -> Devils") (t_from e, t_to e).
Proof.
  destruct (on_submit scenario_percent 2026) as [| |e] eqn:He;
    [vm_compute in He; discriminate He..|].
  exists e. split; [reflexivity|].
  destruct C7_team_split as (_ & H & _).
  exact (H scenario_percent 2026 e He).
Defined.

Lemma preview_short (stats_text : str) :
  len stats_text <= 1000 -> preview stats_text = stats_text.
Proof.
  intros H. unfold preview. destruct (len stats_text <=? 1000) eqn:E;
    [reflexivity|lia].
Qed.

Lemma preview_long (stats_text : str) :
  1000 < len stats_text ->
  preview stats_text = firstn 997 stats_text ++ lit "..."
  /\ len (preview stats_text) = 1000
  /\ skipn 997 (preview stats_text) = lit "...".
Proof.
  intros H. unfold preview. destruct (len stats_text <=? 1000) eqn:E; [lia|].
  assert (Hlen : List.length (firstn 997 stats_text) = 997%nat).
  { rewrite length_firstn. unfold len in H. lia. }
  split; [reflexivity|split].
  - rewrite len_app. unfold len. rewrite Hlen. reflexivity.
  - rewrite <- Hlen at 1. rewrite skipn_app, skipn_all, Nat.sub_diag.
    reflexivity.
Qed.

(** C9 as stated fails on the stats field as it is submitted: a field of
    1000 letters and a blank has 1001 characters and its preview is the 1000
    letters, not 997 of them and three dots; and a short field with a blank
    on each side is not shown unchanged. *)
Lemma C9_counterexample :
  (exists e,
     on_submit blank_tail_modal 2026 = Done e
     /\ 1000 < len (player_stats blank_tail_modal)
     /\ stats_preview e
        <> firstn 997 (player_stats blank_tail_modal) ++ lit "...")
  /\ (exists e,
        on_submit blank_sides_modal 2026 = Done e
        /\ len (player_stats blank_sides_modal) <= 1000
        /\ stats_preview e <> player_stats blank_sides_modal).
Proof.
  split.
  - destruct (on_submit blank_tail_modal 2026) as [| |e] eqn:He;
      [vm_compute in He; discriminate He..|].
    exists e. split; [reflexivity|]. split; [vm_compute; reflexivity|].
    apply on_submit_done in He. cbv zeta in He.
    destruct He as (_ & _ & _ & _ & _ & _ & _ & Hp). rewrite Hp.
    intros E. apply (f_equal (skipn 997)) in E. vm_compute in E.
    discriminate E.
  - destruct (on_submit blank_sides_modal 2026) as [| |e] eqn:He;
      [vm_compute in He; discriminate He..|].
    exists e. split; [reflexivity|]. split; [vm_compute; discriminate|].
    apply on_submit_done in He. cbv zeta in He.
    destruct He as (_ & _ & _ & _ & _ & _ & _ & Hp). rewrite Hp.
    vm_compute. discriminate.
Qed.

(** C9, amended: the preview is taken of the stats text stripped of the
    whitespace around it.  A stripped text of at most 1000 characters is its
    own preview; a longer one is cut to its first 997 characters followed by
    three dots, which makes 1000 characters ending in the dots; so a text of
    1001 characters with no whitespace around it gives 1000 characters
    ending in the dots, and one of 1000 is unchanged.  The embed of an
    accepted submission shows that preview. *)
Theorem C9_stats_preview :
  (forall statsText : str,
     let stats_text := strip statsText in
     (len stats_text <= 1000 -> preview stats_text = stats_text)
     /\ (1000 < len stats_text ->
         preview stats_text = firstn 997 stats_text ++ lit "..."
         /\ len (preview stats_text) = 1000
         /\ skipn 997 (preview stats_text) = lit "...")
     /\ (strip statsText = statsText -> len statsText = 1001 ->
         len (preview stats_text) = 1000
         /\ skipn 997 (preview stats_text) = lit "...")
     /\ (strip statsText = statsText -> len statsText = 1000 ->
         preview stats_text = statsText))
  /\ (forall (self : RetentionModal) (now : Z) (e : embed),
        on_submit self now = Done e ->
        stats_preview e = preview (strip (player_stats self))).
Proof.
  split.
  - intros statsText stats_text.
    split; [apply preview_short|]. split; [apply preview_long|]. split.
    + intros Hs H. apply preview_long. unfold stats_text. rewrite Hs. lia.
    + intros Hs H. unfold stats_text. rewrite Hs. apply preview_short. lia.
  - intros self now e He. apply on_submit_done in He. cbv zeta in He.
    apply He.
Qed.

Lemma C9_stats_preview_witness :
  preview (strip (lit " GP: 10 ")) = lit "GP: 10"
  /\ len (preview (strip (repeat (chr 120) 1001))) = 1000
  /\ skipn 997 (preview (strip (repeat (chr 120) 1001))) = lit "...".
Proof.
  destruct C9_stats_preview as [H _]. split.
  - pose proof (H (lit " GP: 10 ")) as Hs. cbv zeta in Hs.
    destruct Hs as (Hshort & _).
    rewrite Hshort; [reflexivity|vm_compute; discriminate].
  - pose proof (H (repeat (chr 120) 1001)) as Hl. cbv zeta in Hl.
    destruct Hl as (_ & _ & H1001 & _).
    apply H1001; vm_compute; reflexivity.
Defined.

(** C10: the handler trims the stats text first; the player name and the
    preview are computed from the trimmed text, so a field longer than 1000
    characters whose trimmed form has at most 1000 is shown whole. *)
Theorem C10_stats_trimmed_first :
  forall (self : RetentionModal) (now : Z) (e : embed),
    on_submit self now = Done e ->
    let stats_text := strip (player_stats self) in
    player_name e = extract_player_name stats_text
    /\ stats_preview e = preview stats_text
    /\ (len stats_text <= 1000 -> stats_preview e = stats_text).
Proof.
  intros self now e He stats_text. apply on_submit_done in He.
  destruct He as (_ & Hn & _ & _ & _ & _ & _ & Hp).
  split; [exact Hn|]. split; [exact Hp|].
  intros H. rewrite Hp. now apply preview_short.
Qed.

Lemma C10_stats_trimmed_first_witness :
  exists e,
    on_submit padded_modal 2026 = Done e
    /\ len (player_stats padded_modal) = 1014
    /\ player_name e = lit "J. Smith"
    /\ stats_preview e = lit "Name: J. Smith".
Proof.
  destruct (on_submit padded_modal 2026) as [| |e] eqn:He;
    [vm_compute in He; discriminate He..|].
  exists e. split; [reflexivity|]. split; [vm_compute; reflexivity|].
  destruct (C10_stats_trimmed_first padded_modal 2026 e He) as (Hn & _ & Hp).
  split.
  - rewrite Hn. vm_compute. reflexivity.
  - rewrite Hp; vm_compute; [reflexivity|discriminate].
Defined.

End Normalizer.

(** ** Player-name extraction *)

Section NameFacts.

Lemma after_keyword_some (kw s rest : str) :
  after_keyword kw s = Some rest ->
  exists w, map lower w = kw /\ s = w ++ rest.
Proof.
  revert s. induction kw as [|k kw IH]; intros s H; simpl in H.
  - injection H as <-. now exists [].
  - destruct s as [|c s]; [discriminate|].
    destruct (Ascii.eqb k (lower c)) eqn:Hk; [|discriminate].
    apply Ascii.eqb_eq in Hk. destruct (IH _ H) as [w [Hw ->]].
    exists (c :: w). simpl. now rewrite Hw, Hk.
Qed.

Lemma after_keyword_app (w rest : str) :
  after_keyword (map lower w) (w ++ rest) = Some rest.
Proof.
  induction w as [|c w IH]; simpl; [reflexivity|].
  now rewrite Ascii.eqb_refl.
Qed.

(** The two keywords exclude each other. *)
Lemma keywords_disjoint (w w' r r' : str) :
  map lower w = lit "name" -> map lower w' = lit "player" ->
  w ++ r <> w' ++ r'.
Proof.
  intros Hw Hw' Heq.
  destruct w as [|c w]; [discriminate|].
  destruct w' as [|c' w']; [discriminate|].
  simpl in Heq. injection Heq as -> _.
  simpl in Hw, Hw'. injection Hw as Hc _. injection Hw' as Hc' _.
  rewrite Hc in Hc'. discriminate.
Qed.

Lemma sep_run_prefix (seps r : str) :
  Forall (fun c => is_sep c = true) seps ->
  (List.length seps <= sep_run (seps ++ r))%nat.
Proof.
  induction 1 as [|c seps Hc _ IH]; simpl; [lia|]. rewrite Hc. lia.
Qed.

Lemma sep_run_firstn (k : nat) (s : str) :
  (k <= sep_run s)%nat -> Forall (fun c => is_sep c = true) (firstn k s).
Proof.
  revert k. induction s as [|c s IH]; intros k Hk.
  - rewrite firstn_nil. constructor.
  - destruct k as [|k]; [constructor|]. simpl in *.
    destruct (is_sep c) eqn:Hc; [|lia]. constructor; [assumption|].
    apply IH. lia.
Qed.

Lemma sep_run_length (s : str) : (sep_run s <= List.length s)%nat.
Proof.
  induction s as [|c s IH]; simpl; [lia|]. destruct (is_sep c); lia.
Qed.

(** *** The end of the line *)

Lemma chomp_cons (c d : ascii) (t : str) :
  chomp (c :: d :: t) = c :: chomp (d :: t).
Proof. reflexivity. Qed.

(** [chomp] removes a final line feed and nothing else. *)
Lemma chomp_cases (t : str) :
  (chomp t = t /\ forall r, t <> r ++ [chr 10])
  \/ t = chomp t ++ [chr 10].
Proof.
  induction t as [|c t IH].
  - left. split; [reflexivity|]. intros r H. now destruct r.
  - destruct t as [|d t].
    + simpl. destruct (code c =? 10) eqn:Hc.
      * right. simpl. f_equal.
        apply Z.eqb_eq in Hc. unfold code in Hc.
        rewrite <- (ascii_N_embedding c). unfold chr. f_equal. lia.
      * left. split; [reflexivity|]. intros r H.
        destruct r as [|x [|y r]]; try discriminate.
        injection H as ->. discriminate.
    + rewrite chomp_cons. destruct IH as [[IH Hn]| IH].
      * left. split; [now rewrite IH|]. intros r H.
        destruct r as [|x r]; [discriminate|]. injection H as _ H.
        now apply Hn in H.
      * right. simpl. now f_equal.
Qed.

Lemma chomp_no_feed (cap : str) :
  Forall (fun c => code c <> 10) cap -> chomp cap = cap.
Proof.
  intros H. destruct (chomp_cases cap) as [[Hc _]|Hc]; [assumption|].
  rewrite Hc in H. apply Forall_app in H. destruct H as [_ H].
  inversion H as [|x l Hx _]. now contradiction Hx.
Qed.

Lemma chomp_feed (cap : str) :
  Forall (fun c => code c <> 10) cap -> chomp (cap ++ [chr 10]) = cap.
Proof.
  intros H. destruct (chomp_cases (cap ++ [chr 10])) as [[_ Hc]|Hc].
  - now contradiction (Hc cap).
  - apply app_inj_tail in Hc. now destruct Hc.
Qed.

Lemma match_group_some (t cap : str) :
  match_group t = Some cap <->
  Forall (fun c => code c <> 10) cap /\ 2 <= len cap <= 60
  /\ (t = cap \/ t = cap ++ [chr 10]).
Proof.
  unfold match_group. split.
  - destruct (forallb is_dot_char (chomp t) && (2 <=? len (chomp t))
              && (len (chomp t) <=? 60)) eqn:H; [|discriminate].
    intros Hc; injection Hc as <-.
    apply andb_true_iff in H. destruct H as [H H60].
    apply andb_true_iff in H. destruct H as [Hd H2].
    split; [|split; [lia|]].
    + rewrite forallb_forall in Hd. apply Forall_forall. intros c Hc.
      apply Hd in Hc. unfold is_dot_char in Hc.
      destruct (code c =? 10) eqn:E; [discriminate|lia].
    + destruct (chomp_cases t) as [[Hc _]|Hc]; auto.
  - intros (Hd & Hlen & Ht).
    assert (Hc : chomp t = cap).
    { destruct Ht as [-> | ->]; auto using chomp_no_feed, chomp_feed. }
    rewrite Hc.
    assert (Hf : forallb is_dot_char cap = true).
    { apply forallb_forall. rewrite Forall_forall in Hd. intros c Hin.
      apply Hd in Hin. unfold is_dot_char.
      destruct (code c =? 10) eqn:E; [lia|reflexivity]. }
    rewrite Hf. destruct (2 <=? len cap) eqn:E2; [|lia].
    destruct (len cap <=? 60) eqn:E60; [reflexivity|lia].
Qed.

Lemma chomp_length (t : str) : (List.length (chomp t) <= List.length t)%nat.
Proof.
  destruct (chomp_cases t) as [[H _]|H].
  - rewrite H. lia.
  - rewrite H at 2. rewrite length_app. lia.
Qed.

Lemma feed_end_skipn (k : nat) (t : str) :
  (k < List.length t)%nat -> feed_end (skipn k t) = feed_end t.
Proof.
  revert t. induction k as [|k IH]; intros t Hk; [reflexivity|].
  destruct t as [|c t]; [simpl in Hk; lia|].
  simpl in Hk. simpl skipn. rewrite IH by lia.
  destruct t as [|d t]; [simpl in Hk; lia|].
  unfold feed_end. rewrite chomp_cons. simpl List.length.
  pose proof (chomp_length (d :: t)). simpl List.length in *. lia.
Qed.

Lemma match_group_length (t cap : str) :
  match_group t = Some cap ->
  (List.length cap + feed_end t = List.length t)%nat /\ t <> [].
Proof.
  intros H. assert (Hc : cap = chomp t).
  { unfold match_group in H. destruct (_ && _ && _); congruence. }
  apply match_group_some in H. destruct H as (_ & Hlen & Ht).
  unfold feed_end. pose proof (chomp_length t). subst cap. split; [lia|].
  intros ->. simpl in Hlen. unfold len in Hlen. simpl in Hlen. lia.
Qed.

(** *** The greedy separators *)

Lemma match_seps_succ (n : nat) (rest : str) :
  match_seps (S n) rest =
  match match_group (skipn (S n) rest) with
  | Some cap => Some cap
  | None => match_seps n rest
  end.
Proof. reflexivity. Qed.

Lemma match_seps_some (n : nat) (rest cap : str) :
  match_seps n rest = Some cap ->
  exists k, (1 <= k <= n)%nat /\ match_group (skipn k rest) = Some cap
            /\ forall k', (k < k' <= n)%nat ->
                          match_group (skipn k' rest) = None.
Proof.
  induction n as [|n IH]; [discriminate|].
  rewrite match_seps_succ.
  destruct (match_group (skipn (S n) rest)) as [c|] eqn:Hg.
  - intros H; injection H as <-. exists (S n).
    split; [lia|]. split; [assumption|]. intros; lia.
  - intros H. destruct (IH H) as [k (Hk & Hm & Hnone)].
    exists k. split; [lia|]. split; [assumption|].
    intros k' Hk'. destruct (Nat.eq_dec k' (S n)) as [->|]; [assumption|].
    apply Hnone. lia.
Qed.

Lemma match_seps_none (n : nat) (rest : str) :
  match_seps n rest = None ->
  forall k, (1 <= k <= n)%nat -> match_group (skipn k rest) = None.
Proof.
  induction n as [|n IH]; intros H k Hk; [lia|].
  rewrite match_seps_succ in H.
  destruct (match_group (skipn (S n) rest)) eqn:Hg; [discriminate|].
  destruct (Nat.eq_dec k (S n)) as [->|]; [assumption|].
  apply IH; [assumption|lia].
Qed.

(** What a keyword followed by [rest] captures, in the words of the
    pattern. *)
Lemma pattern_at (rest seps cap tail : str) :
  seps <> [] -> Forall (fun c => is_sep c = true) seps ->
  Forall (fun c => code c <> 10) cap -> 2 <= len cap <= 60 ->
  tail = [] \/ tail = [chr 10] ->
  rest = seps ++ cap ++ tail ->
  (1 <= List.length seps <= sep_run rest)%nat
  /\ match_group (skipn (List.length seps) rest) = Some cap.
Proof.
  intros Hne Hs Hd Hlen Ht ->. split.
  - split; [destruct seps; [congruence|simpl; lia]|now apply sep_run_prefix].
  - rewrite skipn_app, skipn_all, Nat.sub_diag. simpl.
    apply match_group_some. split; [assumption|]. split; [assumption|].
    destruct Ht as [-> | ->]; [left; now rewrite app_nil_r|now right].
Qed.

Lemma match_keyword_some (w ln cap : str) :
  match_keyword (map lower w) ln = Some cap ->
  exists w' seps tail,
    map lower w' = map lower w
    /\ seps <> [] /\ Forall (fun c => is_sep c = true) seps
    /\ Forall (fun c => code c <> 10) cap /\ 2 <= len cap <= 60
    /\ (tail = [] \/ tail = [chr 10])
    /\ ln = w' ++ seps ++ cap ++ tail
    /\ forall seps' cap' tail',
         seps' <> [] -> Forall (fun c => is_sep c = true) seps' ->
         Forall (fun c => code c <> 10) cap' -> 2 <= len cap' <= 60 ->
         tail' = [] \/ tail' = [chr 10] ->
         seps ++ cap ++ tail = seps' ++ cap' ++ tail' ->
         (List.length cap <= List.length cap')%nat.
Proof.
  unfold match_keyword.
  destruct (after_keyword (map lower w) ln) as [rest|] eqn:Hk; [|discriminate].
  intros Hm. apply after_keyword_some in Hk. destruct Hk as [w' [Hw' ->]].
  apply match_seps_some in Hm. destruct Hm as [k (Hk & Hg & Hmax)].
  pose proof (match_group_length _ _ Hg) as [Hlen Hnil].
  apply match_group_some in Hg. destruct Hg as (Hd & Hl & Ht).
  pose proof (sep_run_length rest) as Hrun.
  assert (Hkl : (k < List.length rest)%nat).
  { destruct (Nat.lt_ge_cases k (List.length rest)); [assumption|].
    rewrite skipn_all2 in Hnil by assumption. congruence. }
  assert (Htail : exists tail, (tail = [] \/ tail = [chr 10])
                               /\ skipn k rest = cap ++ tail).
  { destruct Ht as [Ht|Ht]; [exists []|exists [chr 10]]; split; auto.
    now rewrite app_nil_r. }
  destruct Htail as [tail [Htl Hsk]].
  exists w', (firstn k rest), tail.
  split; [assumption|]. split.
  { intros H. apply (f_equal (@List.length _)) in H.
    rewrite length_firstn in H. simpl in H. lia. }
  split; [apply sep_run_firstn; lia|].
  split; [assumption|]. split; [assumption|].
  split; [assumption|].
  assert (Hrest : rest = firstn k rest ++ cap ++ tail).
  { rewrite <- (firstn_skipn k rest) at 1. now f_equal. }
  split; [now f_equal|].
  intros seps' cap' tail' Hne' Hs' Hd' Hl' Ht' Heq.
  rewrite <- Hrest in Heq.
  destruct (pattern_at rest seps' cap' tail' Hne' Hs' Hd' Hl' Ht' Heq)
    as [Hrange Hg'].
  pose proof (match_group_length _ _ Hg') as [Hlen' _].
  assert (Hk' : (List.length seps' <= k)%nat).
  { destruct (Nat.le_gt_cases (List.length seps') k); [assumption|].
    rewrite Hmax in Hg' by lia. discriminate. }
  assert (Hkl' : (List.length seps' < List.length rest)%nat) by lia.
  rewrite feed_end_skipn in Hlen, Hlen' by assumption.
  rewrite length_skipn in Hlen, Hlen'. lia.
Qed.

Lemma match_keyword_none (w ln : str) :
  match_keyword (map lower w) ln = None ->
  forall w' seps cap tail,
    map lower w' = map lower w ->
    seps <> [] -> Forall (fun c => is_sep c = true) seps ->
    Forall (fun c => code c <> 10) cap -> 2 <= len cap <= 60 ->
    tail = [] \/ tail = [chr 10] ->
    ln <> w' ++ seps ++ cap ++ tail.
Proof.
  unfold match_keyword. intros Hm w' seps cap tail Hw' Hne Hs Hd Hl Ht ->.
  rewrite <- Hw', after_keyword_app in Hm.
  destruct (pattern_at _ seps cap tail Hne Hs Hd Hl Ht eq_refl) as [Hr Hg].
  rewrite (match_seps_none _ _ Hm _ Hr) in Hg. discriminate.
Qed.


Lemma app_inv_length (w w' r r' : str) :
  w ++ r = w' ++ r' -> List.length w = List.length w' -> w = w' /\ r = r'.
Proof.
  revert w'. induction w as [|c w IH]; intros [|c' w'] H Hl;
    try discriminate; simpl in *.
  - auto.
  - injection H as -> H. injection Hl as Hl.
    destruct (IH _ H Hl) as [-> ->]. auto.
Qed.

Lemma same_keyword (w w' r r' : str) :
  map lower w = map lower w' -> w ++ r = w' ++ r' -> r = r'.
Proof.
  intros Hw H. apply (f_equal (@List.length _)) in Hw.
  rewrite !length_map in Hw. now destruct (app_inv_length _ _ _ _ H Hw).
Qed.

Lemma match_keyword_capture (w : str) (ln cap : str) :
  map lower w = lit "name" \/ map lower w = lit "player" ->
  match_keyword (map lower w) ln = Some cap ->
  (forall w' r, map lower w' <> map lower w ->
                map lower w' = lit "name" \/ map lower w' = lit "player" ->
                ln <> w' ++ r) ->
  name_capture ln cap.
Proof.
  intros Hw Hm Hother. apply match_keyword_some in Hm.
  destruct Hm as (w1 & seps & tail & Hw1 & Hne & Hs & Hd & Hl & Ht & Hln & Hmin).
  split.
  - exists w1, seps, tail. rewrite Hw1. auto 10.
  - intros cap' (w2 & seps' & tail' & Hw2 & Hne' & Hs' & Hd' & Hl' & Ht' & Hln').
    destruct (list_eq_dec ascii_dec (map lower w2) (map lower w)) as [E|E].
    + apply (Hmin seps' cap' tail'); auto.
      rewrite Hln in Hln'. apply (same_keyword w1 w2); congruence.
    + exfalso. now apply (Hother w2 (seps' ++ cap' ++ tail')).
Qed.

(** The search finds the capture of the pattern, and fails only on a line
    the pattern does not match. *)
Lemma name_search_some (ln cap : str) :
  name_search ln = Some cap -> name_capture ln cap.
Proof.
  unfold name_search.
  change (lit "name") with (map lower (lit "name")).
  change (lit "player") with (map lower (lit "player")).
  destruct (match_keyword (map lower (lit "name")) ln) as [c|] eqn:Hn.
  - intros H; injection H as <-.
    apply (match_keyword_capture (lit "name")); auto.
    intros w' r Hw' Hk ->.
    destruct Hk as [Hk|Hk]; [now apply Hw'|].
    apply match_keyword_some in Hn.
    destruct Hn as (w1 & seps & tail & Hw1 & _ & _ & _ & _ & _ & Hln & _).
    symmetry in Hln. now apply keywords_disjoint in Hln.
  - intros Hp. apply (match_keyword_capture (lit "player")); auto.
    intros w' r Hw' Hk ->.
    destruct Hk as [Hk|Hk]; [|now apply Hw'].
    apply match_keyword_some in Hp.
    destruct Hp as (w1 & seps & tail & Hw1 & _ & _ & _ & _ & _ & Hln & _).
    now apply keywords_disjoint in Hln.
Qed.

Lemma name_search_none (ln : str) : name_search ln = None -> no_name ln.
Proof.
  unfold name_search.
  change (lit "name") with (map lower (lit "name")).
  change (lit "player") with (map lower (lit "player")).
  destruct (match_keyword (map lower (lit "name")) ln) eqn:Hn; [discriminate|].
  intros Hp cap (w & seps & tail & Hw & Hne & Hs & Hd & Hl & Ht & Hln).
  destruct Hw as [Hw|Hw].
  - now apply (match_keyword_none _ _ Hn w seps cap tail).
  - now apply (match_keyword_none _ _ Hp w seps cap tail).
Qed.

Lemma first_match_some (lines : list str) (cap : str) :
  first_match lines = Some cap ->
  exists i ln,
    nth_error lines i = Some ln /\ name_search ln = Some cap
    /\ forall j lj, (j < i)%nat -> nth_error lines j = Some lj ->
                    name_search lj = None.
Proof.
  induction lines as [|l lines IH]; [discriminate|]. simpl.
  destruct (name_search l) as [c|] eqn:Hl.
  - intros H; injection H as <-. exists O, l.
    split; [reflexivity|]. split; [assumption|]. intros; lia.
  - intros H. destruct (IH H) as (i & ln & Hi & Hs & Hbefore).
    exists (S i), ln. split; [assumption|]. split; [assumption|].
    intros [|j] lj Hj Hn; simpl in Hn; [congruence|].
    apply (Hbefore j); [lia|assumption].
Qed.

Lemma first_match_none (lines : list str) :
  first_match lines = None ->
  forall j lj, nth_error lines j = Some lj -> name_search lj = None.
Proof.
  induction lines as [|l lines IH]; intros H j lj Hj.
  - destruct j; discriminate.
  - simpl in H. destruct (name_search l) eqn:Hl; [discriminate|].
    destruct j as [|j]; simpl in Hj; [congruence|]. now apply (IH H j).
Qed.

Lemma nth_error_firstn_some (n i : nat) (lines : list str) (ln : str) :
  nth_error (firstn n lines) i = Some ln ->
  (i < n)%nat /\ nth_error lines i = Some ln.
Proof.
  rewrite nth_error_firstn. destruct (Nat.ltb i n) eqn:E; [|discriminate].
  apply Nat.ltb_lt in E. auto.
Qed.

Lemma nth_error_firstn_lt (n i : nat) (lines : list str) :
  (i < n)%nat -> nth_error (firstn n lines) i = nth_error lines i.
Proof.
  intros H. rewrite nth_error_firstn. apply Nat.ltb_lt in H. now rewrite H.
Qed.

Lemma fallback_spec (first : str) :
  fallback_name strip first (fallback first).
Proof.
  unfold fallback, fallback_name, contains.
  destruct (find (lit " - ") first) as [i|] eqn:Hd.
  { left. rewrite (split_once _ _ _ Hd). apply find_some in Hd.
    destruct Hd as [Hd _]. simpl. eauto. }
  right. apply find_none in Hd.
  destruct (find (lit ",") first) as [i|] eqn:Hc.
  - rewrite (split_head _ _ _ Hc), (split_once _ _ _ Hc).
    apply find_some in Hc. destruct Hc as [Hc _]. simpl.
    destruct (len (firstn i first) <? 40) eqn:E.
    + left. split; [assumption|]. eexists _, _. split; [exact Hc|].
      split; [lia|reflexivity].
    + right. split; [assumption|]. split; [|reflexivity].
      right. eexists _, _. split; [exact Hc|lia].
  - apply find_none in Hc. right. simpl. auto.
Qed.

Lemma extract_player_name_unfold (stats_text : str) :
  extract_player_name stats_text =
  match stat_lines stats_text with
  | [] => unknown_player
  | first :: _ =>
      match first_match (firstn 8 (stat_lines stats_text)) with
      | Some cap => strip cap
      | None => fallback first
      end
  end.
Proof. destruct stats_text; reflexivity. Qed.

Lemma extract_player_name_rule (stats_text : str) :
  player_name_rule strip (stat_lines stats_text)
    (extract_player_name stats_text).
Proof.
  rewrite extract_player_name_unfold. unfold player_name_rule.
  destruct (stat_lines stats_text) as [|first lines] eqn:Hlines;
    [reflexivity|].
  destruct (first_match (firstn 8 (first :: lines))) as [cap|] eqn:Hm.
  - left. apply first_match_some in Hm.
    destruct Hm as (i & ln & Hi & Hs & Hbefore).
    apply nth_error_firstn_some in Hi. destruct Hi as [Hi8 Hi].
    exists i, ln, cap. split; [assumption|]. split; [assumption|].
    split; [now apply name_search_some|]. split; [|reflexivity].
    intros j lj Hj Hn. apply name_search_none, (Hbefore j); [assumption|].
    rewrite nth_error_firstn_lt by lia. assumption.
  - right. split; [|apply fallback_spec].
    intros j lj Hj Hn. apply name_search_none.
    apply (first_match_none _ Hm j). now rewrite nth_error_firstn_lt.
Qed.

End NameFacts.

(** *** Trimmed texts *)

Section StripFacts.

Lemma lstrip_suffix (l : str) :
  exists p, l = p ++ lstrip l /\ Forall (fun c => isspace c = true) p.
Proof.
  induction l as [|c l [p [IH Hp]]]; simpl.
  - exists []. auto.
  - destruct (isspace c) eqn:Hc.
    + exists (c :: p). simpl. split; [now f_equal|now constructor].
    + exists []. auto.
Qed.

Lemma lstrip_head (l r : str) (c : ascii) :
  lstrip l = c :: r -> isspace c = false.
Proof.
  induction l as [|d l IH]; simpl; [discriminate|].
  destruct (isspace d) eqn:Hd; [assumption|]. intros H; injection H as <- _.
  assumption.
Qed.

Lemma In_lstrip (c : ascii) (l : str) :
  In c l -> isspace c = false -> In c (lstrip l).
Proof.
  induction l as [|d l IH]; simpl; [tauto|]. intros [->|H] Hc.
  - rewrite Hc. now left.
  - destruct (isspace d); [auto|now right].
Qed.

Lemma In_strip (c : ascii) (s : str) :
  In c s -> isspace c = false -> In c (strip s).
Proof.
  intros H Hc. unfold strip, rstrip. apply in_rev. rewrite rev_involutive.
  apply In_lstrip; [|assumption]. apply -> in_rev. now apply In_lstrip.
Qed.

Lemma strip_nonempty (c : ascii) (s : str) :
  In c s -> isspace c = false -> strip s <> [].
Proof.
  intros H Hc E. apply (In_strip c s H) in Hc. rewrite E in Hc. contradiction.
Qed.

Lemma rstrip_prefix (t : str) : exists q, t = rstrip t ++ q.
Proof.
  unfold rstrip. destruct (lstrip_suffix (rev t)) as [p [H _]].
  exists (rev p). rewrite <- rev_app_distr, <- H. now rewrite rev_involutive.
Qed.

Lemma strip_head (s r : str) (c : ascii) :
  strip s = c :: r -> isspace c = false.
Proof.
  unfold strip. intros H. destruct (rstrip_prefix (lstrip s)) as [q Hq].
  rewrite H in Hq. simpl in Hq. now apply lstrip_head in Hq.
Qed.

Lemma strip_last (s r : str) (c : ascii) :
  strip s = r ++ [c] -> isspace c = false.
Proof.
  unfold strip, rstrip. intros H. apply (f_equal (@rev _)) in H.
  rewrite rev_involutive, rev_app_distr in H. simpl in H.
  now apply lstrip_head in H.
Qed.

Lemma strip_visible_ends (x : str) :
  nonempty (strip x) = true -> visible_ends (strip x).
Proof.
  intros H. apply nonempty_true in H. split.
  - destruct (strip x) as [|c r] eqn:E; [congruence|].
    exists c, r. split; [reflexivity|]. now apply strip_head in E.
  - destruct (exists_last H) as [r [c E]]. exists r, c.
    split; [assumption|]. now apply strip_last in E.
Qed.

Lemma stat_lines_visible (stats_text ln : str) :
  In ln (stat_lines stats_text) -> visible_ends ln.
Proof.
  unfold stat_lines. intros H. apply in_map_iff in H.
  destruct H as [x [<- Hx]]. apply filter_In in Hx.
  now apply strip_visible_ends.
Qed.


Lemma capture_visible (ln cap : str) :
  visible_ends ln -> name_pattern ln cap -> strip cap <> [].
Proof.
  intros [_ (r & c & Hln & Hc)]
         (w & seps & tail & _ & _ & _ & _ & Hlen & Ht & Heq).
  assert (Hne : cap <> []).
  { intros ->. unfold len in Hlen. simpl in Hlen. lia. }
  destruct (exists_last Hne) as [cap0 [x ->]].
  destruct Ht as [-> | ->].
  - rewrite app_nil_r, !app_assoc in Heq. rewrite Hln in Heq.
    apply app_inj_tail in Heq. destruct Heq as [_ ->].
    apply (strip_nonempty x); [|assumption]. apply in_or_app. right. now left.
  - rewrite !app_assoc in Heq. rewrite Hln in Heq.
    apply app_inj_tail in Heq. destruct Heq as [_ ->]. discriminate.
Qed.

Lemma prefix_visible (first sep a b : str) (c : ascii) (r : str) :
  first = c :: r -> isspace c = false -> first = a ++ sep ++ b ->
  a <> [] -> strip a <> [].
Proof.
  intros -> Hc Heq Ha. destruct a as [|x a]; [congruence|].
  simpl in Heq. injection Heq as <- _.
  apply (strip_nonempty c); [now left|assumption].
Qed.

Lemma fallback_visible (first name : str) :
  visible_ends first -> fallback_name strip first name ->
  (forall r, first <> chr 44 :: r) -> name <> [].
Proof.
  intros [(c & r & Hf & Hc) _] H Hcomma.
  destruct H as [(a & b & [Heq _] & ->)
                |[(_ & a & b & [Heq _] & _ & ->)|(_ & _ & ->)]].
  - apply (prefix_visible first _ a b c r Hf Hc Heq).
    intros ->. subst first. simpl in Heq. injection Heq as -> _. discriminate.
  - apply (prefix_visible first _ a b c r Hf Hc Heq).
    intros ->. simpl in Heq. now apply Hcomma in Heq.
  - subst first. simpl. apply (strip_nonempty c); [now left|assumption].
Qed.

Lemma player_name_visible (lines : list str) (name : str) :
  (forall ln, In ln lines -> visible_ends ln) ->
  player_name_rule strip lines name ->
  (forall r rest, lines <> (chr 44 :: r) :: rest) ->
  name <> [].
Proof.
  intros Hvis H Hcomma. destruct lines as [|first rest]; simpl in H.
  - subst name. discriminate.
  - destruct H as [(i & ln & cap & _ & Hi & [Hp _] & _ & ->)|[_ H]].
    + apply (capture_visible ln); [|assumption].
      apply Hvis. eapply nth_error_In; eassumption.
    + apply (fallback_visible first); [apply Hvis; now left|assumption|].
      intros r ->. now apply (Hcomma r rest).
Qed.

Lemma extract_player_name_visible (stats_text : str) :
  ~ comma_first stats_text -> extract_player_name stats_text <> [].
Proof.
  intros Hc.
  apply (player_name_visible (stat_lines stats_text)).
  - intros ln. apply stat_lines_visible.
  - apply extract_player_name_rule.
  - intros r rest H. apply Hc. now exists r, rest.
Qed.

Lemma digits_fold_nonneg (ds : str) (acc : Z) :
  0 <= acc -> all_digits ds = true ->
  0 <= fold_left (fun acc c => 10 * acc + digit_val c) ds acc.
Proof.
  revert acc. induction ds as [|c ds IH]; intros acc Hacc H; cbn [fold_left].
  - assumption.
  - simpl in H. apply andb_true_iff in H. destruct H as [Hc H].
    apply IH; [|assumption]. unfold is_digit in Hc. unfold digit_val. lia.
Qed.

Lemma digits_val_nonneg (ds : str) : all_digits ds = true -> 0 <= digits_val ds.
Proof. apply digits_fold_nonneg. lia. Qed.

End StripFacts.

(** *** The claims on player names and on the normalized fields *)

Section NameClaims.

(** C8 as stated fails: with the text before the first [" - "] returned as
    it is, the rules give ["Jane "] on ["Jane  - Fwd"], and the code
    answers ["Jane"]. *)
Lemma C8_counterexample :
  ~ player_name_rule (fun a => a) (stat_lines spaced_stats)
      (extract_player_name spaced_stats).
Proof.
  assert (Hl : stat_lines spaced_stats = [spaced_stats]) by reflexivity.
  assert (Hn : extract_player_name spaced_stats = lit "Jane")
    by reflexivity.
  assert (Hs : name_search spaced_stats = None) by reflexivity.
  assert (Hf : find (lit " - ") spaced_stats = Some 5%nat) by reflexivity.
  rewrite Hl, Hn. simpl.
  intros [(i & ln & cap & _ & Hi & [Hp _] & _)|[_ H]].
  - destruct i as [|[|i]]; simpl in Hi; try discriminate.
    injection Hi as <-. now apply (name_search_none _ Hs cap).
  - apply find_some in Hf. destruct Hf as [Hf _].
    assert (Hocc : occurs (lit " - ") spaced_stats).
    { destruct Hf as [Hf _]. eexists _, _; exact Hf. }
    destruct H as [(a & b & Ha & E)|[(Hno & _)|(Hno & _)]];
      try contradiction.
    destruct (first_occurrence_unique _ _ _ _ _ _ Ha Hf) as [-> _].
    discriminate E.
Qed.

(** C8, amended: player-name extraction is a total function that follows
    the rules of the specification with the text found before [" - "] or
    before the comma trimmed: no line gives ["Unknown Player"]; else the
    trimmed capture of the first of the first 8 lines that match the name
    pattern; else, on the first line, the trimmed text before the first
    [" - "], else the trimmed text before the first comma when that text
    has fewer than 40 characters, else the first 60 characters trimmed.  The
    three examples of the specification evaluate as stated. *)
Theorem C8_player_name_extraction :
  (forall statsText : str,
     player_name_rule strip (stat_lines statsText)
       (extract_player_name statsText))
  /\ extract_player_name (lit "Name: Jane Doe" ++ [chr 10] ++ lit "GP: 10")
     = lit "Jane Doe"
  /\ extract_player_name (lit "Jane Doe - Forward") = lit "Jane Doe"
  /\ extract_player_name (lit "") = lit "Unknown Player".
Proof.
  split; [exact extract_player_name_rule|]. repeat split.
Qed.

(** C4 as stated fails: a salary text with a minus sign is accepted and the
    salary is negative. *)
Lemma C4_counterexample :
  exists e, on_submit negative_modal 2026 = Done e /\ salary_val e < 0.
Proof.
  destruct (on_submit negative_modal 2026) as [| |e] eqn:He;
    [vm_compute in He; discriminate He..|].
  exists e. split; [reflexivity|].
  apply on_submit_done in He. destruct He as (_ & _ & Hs & _).
  assert (Hv : parse_salary_to_int (strip (player_salary negative_modal))
               = Some (-5)) by reflexivity.
  rewrite Hv in Hs. injection Hs as Hs. rewrite <- Hs. reflexivity.
Qed.

(** The slip next to it: a first line that starts with a comma gives an
    empty player name. *)
Example empty_player_name : extract_player_name (lit ",abc") = [].
Proof. reflexivity. Qed.

Lemma keep_no_minus (s : str) :
  ~ In minus s -> all_digits (keep digit_or_minus s) = true.
Proof.
  intros H. apply forallb_forall. intros c Hc. apply filter_In in Hc.
  destruct Hc as [Hin Hc]. unfold digit_or_minus in Hc.
  apply orb_true_iff in Hc. destruct Hc as [Hc|Hc]; [assumption|].
  apply Ascii.eqb_eq in Hc. subst c. contradiction.
Qed.

Lemma int_of_str_digits (s : str) (v : Z) :
  all_digits s = true -> int_of_str s = Some v -> 0 <= v.
Proof.
  intros Hd. unfold int_of_str. destruct s as [|c ds]; [discriminate|].
  destruct (Ascii.eqb c minus) eqn:Hc.
  - apply Ascii.eqb_eq in Hc. subst c.
    change (is_digit minus && all_digits ds = true) in Hd.
    rewrite minus_not_digit in Hd. discriminate.
  - rewrite Hd. intros H; injection H as <-. now apply digits_val_nonneg.
Qed.

(** C4, amended: on a submission that is accepted, the salary is the integer
    written by the digits and minus signs of the salary text, of either
    sign, and not negative when the text holds no minus sign; the player
    name is not empty unless the first non-empty trimmed line of the stats
    starts with a comma. *)
Theorem C4_normalized_fields :
  forall (self : RetentionModal) (now : Z) (e : embed),
    on_submit self now = Done e ->
    int_of_str (keep digit_or_minus (player_salary self)) = Some (salary_val e)
    /\ (~ In minus (player_salary self) -> 0 <= salary_val e)
    /\ (~ comma_first (strip (player_stats self)) -> player_name e <> []).
Proof.
  intros self now e He. apply on_submit_done in He.
  destruct He as (_ & Hn & Hs & _).
  apply parse_salary_to_int_some in Hs.
  rewrite (keep_strip _ _ digit_or_minus_not_space) in Hs.
  split; [assumption|]. split.
  - intros Hm. apply (int_of_str_digits _ _ (keep_no_minus _ Hm) Hs).
  - intros Hc. rewrite Hn. now apply extract_player_name_visible.
Qed.

Lemma C4_normalized_fields_witness :
  exists e,
    on_submit scenario_percent 2026 = Done e
    /\ int_of_str (lit "8000000") = Some (salary_val e)
    /\ 0 <= salary_val e
    /\ player_name e <> [].
Proof.
  destruct (on_submit scenario_percent 2026) as [| |e] eqn:He;
    [vm_compute in He; discriminate He..|].
  exists e. split; [reflexivity|].
  destruct (C4_normalized_fields scenario_percent 2026 e He) as (Hs & Hp & Hn).
  split; [exact Hs|]. split.
  - apply Hp. vm_compute. intuition discriminate.
  - apply Hn. intros (r & rest & H). vm_compute in H. discriminate H.
Defined.

End NameClaims.

(** ** Floats: signs *)

Section FloatSigns.

Lemma binary_round_aux_unsigned (m e : Z) (l : location) :
  unsigned (binary_round_aux prec emax false m e l).
Proof.
  unfold binary_round_aux.
  destruct (shr_fexp prec emax m e l) as [mrs' e'].
  destruct (shr_fexp prec emax _ e' loc_Exact) as [mrs'' e''].
  destruct (shr_m mrs''); [exact eq_refl| |exact I].
  destruct (e'' <=? emax - prec); exact eq_refl.
Qed.

Lemma mul_unsigned (x y : float) :
  unsigned x -> unsigned y -> unsigned (mul x y).
Proof.
  destruct x as [sx|sx| |sx mx ex], y as [sy|sy| |sy my ey]; simpl;
    try intros -> ->; try intros -> _; try intros _ ->; try intros _ _;
    try exact I; try reflexivity.
  apply binary_round_aux_unsigned.
Qed.

Lemma div_unsigned (x y : float) :
  unsigned x -> unsigned y -> unsigned (div x y).
Proof.
  destruct x as [sx|sx| |sx mx ex], y as [sy|sy| |sy my ey]; simpl;
    try intros -> ->; try intros -> _; try intros _ ->; try intros _ _;
    try exact I; try reflexivity.
  unfold div, SFdiv. simpl xorb.
  destruct (SFdiv_core_binary prec emax (Z.pos mx) ex (Z.pos my) ey)
    as [[mz ez] lz].
  apply binary_round_aux_unsigned.
Qed.

Lemma of_int_unsigned (z : Z) (f : float) :
  0 <= z -> of_int z = Some f -> unsigned f.
Proof.
  unfold of_int. intros Hz.
  assert (H : unsigned (binary_normalize prec emax z 0 false)).
  { destruct z as [|p|p]; [reflexivity| |lia]. simpl.
    unfold binary_round.
    destruct (shl_align p 0 _) as [mz ez]. apply binary_round_aux_unsigned. }
  destruct (binary_normalize prec emax z 0 false); try discriminate;
    intros E; injection E as <-; assumption.
Qed.

Lemma hundred_unsigned : unsigned hundred.
Proof. reflexivity. Qed.

Lemma floor_unsigned (x : float) (v : Z) :
  unsigned x -> floor x = Some v -> 0 <= v.
Proof.
  destruct x as [s|s| |s m e]; simpl; try discriminate.
  - intros _ H; injection H as <-. lia.
  - intros -> H; injection H as <-. apply Z.shiftl_nonneg. lia.
Qed.

(** *** The clamp *)

Lemma clamp_pct_cases (p : float) :
  clamp_pct p = zero \/ clamp_pct p = hundred
  \/ (clamp_pct p = p /\ ltb zero p = true /\ ltb p hundred = true).
Proof.
  unfold clamp_pct, py_max, py_min, gtb.
  destruct (ltb p hundred) eqn:H1.
  - fold (ltb zero p). destruct (ltb zero p) eqn:H0; [|now left].
    right. right. repeat split; assumption.
  - right. left. reflexivity.
Qed.

Lemma ltb_zero_unsigned (p : float) : ltb zero p = true -> unsigned p.
Proof.
  destruct p as [s|s| |s m e]; simpl; try discriminate; auto;
    destruct s; try discriminate; reflexivity.
Qed.

Lemma clamp_pct_unsigned (p : float) : unsigned (clamp_pct p).
Proof.
  destruct (clamp_pct_cases p) as [-> |[-> |[-> [H _]]]];
    [reflexivity|reflexivity|now apply ltb_zero_unsigned].
Qed.

Lemma ltb_leb (x y : float) : ltb x y = true -> leb x y = true.
Proof.
  unfold ltb, leb, SFltb, SFleb. destruct (SFcompare x y) as [[| |]|];
    congruence.
Qed.

(** The clamped percentage lies between 0 and 100. *)
Lemma clamp_pct_range (p : float) :
  leb zero (clamp_pct p) = true /\ leb (clamp_pct p) hundred = true.
Proof.
  destruct (clamp_pct_cases p) as [-> |[-> |[-> [H0 H1]]]];
    [split; reflexivity|split; reflexivity|].
  split; now apply ltb_leb.
Qed.

End FloatSigns.

(** ** The retention: what holds of every result *)

Section RetentionFacts.

Lemma retention_percent_done (s : Z) (raw : str) (r : retention) :
  retention_percent s raw = Done r ->
  exists p sf,
    float_of_str raw = Some p
    /\ pct r = clamp_pct p
    /\ of_int s = Some sf
    /\ floor (mul sf (div (clamp_pct p) hundred)) = Some (retained_amount r)
    /\ remaining r = s - retained_amount r
    /\ retention_display r = format_2f (clamp_pct p) ++ percent_sign.
Proof.
  unfold retention_percent.
  destruct (float_of_str raw) as [p|]; [|discriminate]. simpl.
  destruct (of_int s) as [sf|]; [|discriminate]. simpl.
  destruct (floor _) as [v|] eqn:Hv; [|discriminate]. simpl.
  intros H; injection H as <-. exists p, sf. simpl. auto 10.
Qed.

Lemma retention_number_done (s : Z) (raw : str) (r : retention) :
  retention_number s raw = Done r ->
  exists f r0,
    float_of_str raw = Some f /\ to_int f = Some r0
    /\ retained_amount r = Z.max 0 r0
    /\ remaining r = Z.max 0 (s - retained_amount r)
    /\ (0 < s -> exists q, int_truediv (retained_amount r) s = Some q
                           /\ pct r = mul q hundred)
    /\ (s <= 0 -> pct r = zero)
    /\ retention_display r =
         lit "$" ++ format_currency (retained_amount r) ++ lit " ("
         ++ format_2f (pct r) ++ lit "%)".
Proof.
  unfold retention_number.
  destruct (float_of_str raw) as [f|] eqn:Hf; [|discriminate].
  destruct (to_int f) as [r0|] eqn:Hr; [|discriminate]. simpl.
  destruct (s >? 0) eqn:Hs.
  - destruct (int_truediv (Z.max 0 r0) s) as [q|] eqn:Hq; [|discriminate].
    simpl. intros H; injection H as <-. exists f, r0. simpl.
    split; [reflexivity|]. split; [assumption|].
    do 2 (split; [reflexivity|]). split; [|split; [lia|reflexivity]].
    intros _. now exists q.
  - simpl. intros H; injection H as <-. exists f, r0. simpl.
    split; [reflexivity|]. split; [assumption|].
    do 2 (split; [reflexivity|]). split; [lia|]. split; reflexivity.
Qed.

Lemma retention_percent_nonneg (s : Z) (raw : str) (r : retention) :
  0 <= s -> retention_percent s raw = Done r -> 0 <= retained_amount r.
Proof.
  intros Hs H. apply retention_percent_done in H.
  destruct H as (p & sf & _ & _ & Hsf & Hfl & _).
  apply (floor_unsigned _ _ (mul_unsigned _ _ (of_int_unsigned _ _ Hs Hsf)
           (div_unsigned _ _ (clamp_pct_unsigned p) hundred_unsigned)) Hfl).
Qed.

Lemma retention_percent_zero (raw : str) (r : retention) :
  retention_percent 0 raw = Done r -> retained_amount r = 0.
Proof.
  intros H. apply retention_percent_done in H.
  destruct H as (p & sf & _ & _ & Hsf & Hfl & _).
  injection Hsf as <-. revert Hfl.
  destruct (div (clamp_pct p) hundred) as [s|s| |s m e]; simpl;
    try discriminate; intros H; now injection H as <-.
Qed.

End RetentionFacts.

(** ** Floats: digits, shifts and rounding *)

Section Rounding.

Lemma fexp_eq (x : Z) : fexp prec emax x = Z.max (x - 53) (-1074).
Proof. reflexivity. Qed.

Lemma digits2_pos_size (p : positive) : digits2_pos p = Pos.size p.
Proof. induction p; simpl; congruence. Qed.

Lemma Zdigits2_log2 (m : Z) : 0 < m -> Zdigits2 m = Z.log2 m + 1.
Proof.
  destruct m as [|p|p]; try lia. intros _. simpl.
  rewrite digits2_pos_size. destruct p; simpl; lia.
Qed.

Lemma Zdigits2_nonneg (m : Z) : 0 <= Zdigits2 m.
Proof. destruct m; simpl; lia. Qed.

Lemma Zdigits2_pos (m : Z) : 0 < m -> 0 < Zdigits2 m.
Proof. destruct m; simpl; lia. Qed.

(** [m] has at most [k] digits exactly when it is below [2^k]. *)
Lemma Zdigits2_le (m k : Z) : 0 <= m -> 0 <= k -> Zdigits2 m <= k <-> m < 2 ^ k.
Proof.
  intros Hm Hk. destruct (Z.eq_dec m 0) as [->|Hne].
  - simpl. split; [intros _; apply Z.pow_pos_nonneg; lia|lia].
  - rewrite Zdigits2_log2 by lia. rewrite Z.log2_lt_pow2 by lia. lia.
Qed.

Lemma Zdigits2_gt (m k : Z) : 0 <= k -> k < Zdigits2 m <-> 2 ^ k <= Z.abs m.
Proof.
  intros Hk. destruct (Z.eq_dec m 0) as [->|Hne].
  - simpl. pose proof (Z.pow_pos_nonneg 2 k). lia.
  - assert (E : Zdigits2 m = Zdigits2 (Z.abs m)) by (destruct m; reflexivity).
    rewrite E, Zdigits2_log2 by lia. rewrite Z.log2_le_pow2 by lia. lia.
Qed.

Lemma Zdigits2_mono (a b : Z) : 0 <= a <= b -> Zdigits2 a <= Zdigits2 b.
Proof.
  intros H. pose proof (Zdigits2_nonneg b) as Hb.
  apply Zdigits2_le; [lia|assumption|].
  apply Z.le_lt_trans with b; [lia|]. apply Zdigits2_le; lia.
Qed.

Lemma Zdigits2_mul_pow2 (m k : Z) :
  0 < m -> 0 <= k -> Zdigits2 (m * 2 ^ k) = Zdigits2 m + k.
Proof.
  intros Hm Hk. pose proof (Z.pow_pos_nonneg 2 k).
  rewrite !Zdigits2_log2 by nia. rewrite Z.log2_mul_pow2 by lia. lia.
Qed.

Lemma Zdigits2_div_pow2 (m k : Z) :
  0 <= m -> 0 <= k -> 0 < m / 2 ^ k ->
  Zdigits2 (m / 2 ^ k) = Zdigits2 m - k.
Proof.
  intros Hm Hk Hq.
  assert (Hm' : 0 < m).
  { destruct (Z.eq_dec m 0) as [->|]; [|lia]. rewrite Z.div_0_l in Hq; lia. }
  rewrite !Zdigits2_log2 by lia.
  rewrite <- Z.shiftr_div_pow2 in * by lia.
  rewrite Z.log2_shiftr by lia.
  destruct (Z.le_gt_cases k (Z.log2 m)); [lia|].
  rewrite Z.shiftr_eq_0 in Hq by lia. lia.
Qed.

(** What is below in value has no more digits, exponents counted. *)
Lemma Zdigits2_scaled (m mt k : Z) :
  0 <= m -> 0 < mt -> 0 <= k -> m <= mt * 2 ^ k ->
  Zdigits2 m <= Zdigits2 mt + k.
Proof.
  intros Hm Hmt Hk H. rewrite <- Zdigits2_mul_pow2 by lia.
  apply Zdigits2_mono. lia.
Qed.

(** *** Shifting out low bits *)

Lemma pow2_xI (p : positive) :
  2 ^ Z.pos p~1 = 2 * (2 ^ Z.pos p * 2 ^ Z.pos p).
Proof.
  replace (Z.pos p~1) with (Z.pos p + Z.pos p + 1) by lia.
  rewrite !Z.pow_add_r by lia. ring.
Qed.

Lemma pow2_xO (p : positive) : 2 ^ Z.pos p~0 = 2 ^ Z.pos p * 2 ^ Z.pos p.
Proof.
  replace (Z.pos p~0) with (Z.pos p + Z.pos p) by lia.
  rewrite Z.pow_add_r by lia. ring.
Qed.

Lemma shr_1_m (mrs : shr_record) :
  0 <= shr_m mrs -> shr_m (shr_1 mrs) = shr_m mrs / 2.
Proof.
  destruct mrs as [m r s].
  destruct m as [|[p|p|]|p]; cbv [shr_1 shr_m]; intros H; try lia;
    try reflexivity.
  - rewrite Pos2Z.inj_xI. div_lia.
  - rewrite Pos2Z.inj_xO. div_lia.
Qed.

Lemma iter_shr_m (p : positive) (mrs : shr_record) :
  0 <= shr_m mrs ->
  shr_m (iter_pos shr_1 p mrs) = shr_m mrs / 2 ^ Zpos p.
Proof.
  revert mrs. induction p as [p IH|p IH|]; intros mrs H; cbn [iter_pos].
  - assert (H1 : 0 <= shr_m (shr_1 mrs)).
    { rewrite shr_1_m by assumption. apply Z.div_pos; lia. }
    assert (H2 : 0 <= shr_m (iter_pos shr_1 p (shr_1 mrs))).
    { rewrite IH by assumption. apply Z.div_pos; lia. }
    rewrite !IH, shr_1_m by assumption.
    rewrite !Z.div_div by lia. f_equal. rewrite pow2_xI. ring.
  - assert (H2 : 0 <= shr_m (iter_pos shr_1 p mrs)).
    { rewrite IH by assumption. apply Z.div_pos; lia. }
    rewrite !IH by assumption. rewrite Z.div_div by lia. f_equal.
    rewrite pow2_xO. ring.
  - now rewrite shr_1_m.
Qed.

(** Shifting out zeros keeps an exact location exact. *)
Lemma shr_1_exact (c : Z) :
  0 <= c ->
  shr_1 (Build_shr_record (2 * c) false false) = Build_shr_record c false false.
Proof. destruct c as [|p|p]; simpl; intros H; [reflexivity|reflexivity|lia]. Qed.

Lemma iter_shr_exact (p : positive) (c : Z) :
  0 <= c ->
  iter_pos shr_1 p (Build_shr_record (c * 2 ^ Zpos p) false false)
  = Build_shr_record c false false.
Proof.
  revert c. induction p as [p IH|p IH|]; intros c Hc; cbn [iter_pos].
  - replace (c * 2 ^ Z.pos p~1) with (2 * (c * 2 ^ Z.pos p * 2 ^ Z.pos p)).
    + rewrite shr_1_exact by (pose proof (Z.pow_pos_nonneg 2 (Z.pos p)); nia).
      rewrite IH by (pose proof (Z.pow_pos_nonneg 2 (Z.pos p)); nia).
      now apply IH.
    + rewrite pow2_xI. ring.
  - replace (c * 2 ^ Z.pos p~0) with (c * 2 ^ Z.pos p * 2 ^ Z.pos p).
    + rewrite IH by (pose proof (Z.pow_pos_nonneg 2 (Z.pos p)); nia).
      now apply IH.
    + rewrite pow2_xO. ring.
  - replace (c * 2 ^ 1) with (2 * c) by lia. now apply shr_1_exact.
Qed.

(** The first step of rounding: the exponent is raised to [e'], the
    mantissa loses the bits below it, and an exact value whose lost bits
    are zero stays exact. *)
Lemma shr_fexp_spec (m e : Z) (l : location) :
  0 <= m ->
  let e' := Z.max e (fexp prec emax (Zdigits2 m + e)) in
  exists mrs,
    shr_fexp prec emax m e l = (mrs, e')
    /\ shr_m mrs = m / 2 ^ (e' - e)
    /\ (l = loc_Exact -> m mod 2 ^ (e' - e) = 0 ->
        loc_of_shr_record mrs = loc_Exact).
Proof.
  intros Hm e'. unfold shr_fexp, shr.
  assert (Hrec : shr_m (shr_record_of_loc m l) = m)
    by (destruct l as [|[| |]]; reflexivity).
  destruct (fexp prec emax (Zdigits2 m + e) - e) as [|p|p] eqn:Hn.
  - exists (shr_record_of_loc m l). replace e' with e by lia.
    rewrite Z.sub_diag, Z.div_1_r. split; [reflexivity|]. split; [assumption|].
    intros -> _. reflexivity.
  - exists (iter_pos shr_1 p (shr_record_of_loc m l)).
    replace e' with (e + Z.pos p) by lia.
    replace (e + Z.pos p - e) with (Z.pos p) by lia.
    split; [reflexivity|]. split.
    + rewrite iter_shr_m by lia. now rewrite Hrec.
    + intros -> Hmod. simpl shr_record_of_loc.
      apply Z.div_exact in Hmod; [|lia].
      rewrite Hmod at 1. rewrite Z.mul_comm, iter_shr_exact; [reflexivity|].
      apply Z.div_pos; lia.
  - exists (shr_record_of_loc m l). replace e' with e by lia.
    rewrite Z.sub_diag, Z.div_1_r. split; [reflexivity|]. split; [assumption|].
    intros -> _. reflexivity.
Qed.

Lemma round_nearest_even_cases (m : Z) (l : location) :
  round_nearest_even m l = m \/ round_nearest_even m l = m + 1.
Proof.
  destruct l as [|[| |]]; simpl; auto. destruct (Z.even m); auto.
Qed.

(** The rounding of [m * 2^e], located by [l], unfolded: [m1 * 2^e1] is the
    value cut at the first exponent of the format, [m2] the rounded mantissa,
    [m3 * 2^e3] the result after a carry. *)
Lemma binary_round_aux_spec (sx : bool) (m e : Z) (l : location) :
  0 <= m ->
  let e1 := Z.max e (fexp prec emax (Zdigits2 m + e)) in
  let m1 := m / 2 ^ (e1 - e) in
  exists m2,
    (m2 = m1 \/ m2 = m1 + 1)
    /\ (l = loc_Exact -> m mod 2 ^ (e1 - e) = 0 -> m2 = m1)
    /\ let e3 := Z.max e1 (fexp prec emax (Zdigits2 m2 + e1)) in
       binary_round_aux prec emax sx m e l =
       match m2 / 2 ^ (e3 - e1) with
       | Z0 => S754_zero sx
       | Zpos p =>
           if e3 <=? emax - prec then S754_finite sx p e3
           else S754_infinity sx
       | Zneg _ => S754_nan
       end.
Proof.
  intros Hm e1 m1. unfold binary_round_aux.
  destruct (shr_fexp_spec m e l Hm) as (mrs & -> & Hm1 & Hex).
  cbv beta iota. fold e1 in Hm1, Hex. fold m1 in Hm1. fold e1.
  set (m2 := round_nearest_even (shr_m mrs) (loc_of_shr_record mrs)).
  assert (Hm1pos : 0 <= m1).
  { apply Z.div_pos; [lia|]. apply Z.pow_pos_nonneg; lia. }
  assert (Hm2 : m2 = m1 \/ m2 = m1 + 1).
  { unfold m2. rewrite <- Hm1. apply round_nearest_even_cases. }
  destruct (shr_fexp_spec m2 e1 loc_Exact) as (mrs2 & -> & Hm3 & _); [lia|].
  cbv beta iota. exists m2. split; [assumption|]. split.
  - intros Hl Hmod. unfold m2. rewrite (Hex Hl Hmod). simpl. assumption.
  - cbv zeta. now rewrite Hm3.
Qed.


Lemma pow2_pos (k : Z) : 0 <= k -> 0 < 2 ^ k.
Proof. intros. apply Z.pow_pos_nonneg; lia. Qed.

Lemma pow2_split (a b c : Z) : a <= b <= c -> 2 ^ (c - a) = 2 ^ (c - b) * 2 ^ (b - a).
Proof. intros H. rewrite <- Z.pow_add_r by lia. f_equal. lia. Qed.

Lemma div_pow2_le (m t k : Z) :
  0 <= k -> m <= t * 2 ^ k -> m / 2 ^ k <= t.
Proof.
  intros Hk H. pose proof (pow2_pos k Hk).
  apply Z.div_le_upper_bound; [assumption|]. lia.
Qed.

(** Rounding something with enough digits gives an infinity or a canonical
    float. *)
Lemma binary_round_aux_canonical (sx : bool) (m e : Z) (l : location) :
  0 <= m -> e <= fexp prec emax (Zdigits2 m + e) ->
  binary_round_aux prec emax sx m e l = S754_infinity sx
  \/ canonical (binary_round_aux prec emax sx m e l).
Proof.
  intros Hm He.
  destruct (binary_round_aux_spec sx m e l Hm) as (m2 & Hm2 & _ & ->).
  set (e1 := Z.max e (fexp prec emax (Zdigits2 m + e))) in *.
  set (m1 := m / 2 ^ (e1 - e)) in *.
  set (e3 := Z.max e1 (fexp prec emax (Zdigits2 m2 + e1))).
  pose proof (fexp_eq (Zdigits2 m + e)) as F1.
  pose proof (fexp_eq (Zdigits2 m2 + e1)) as F2.
  assert (Hk : 0 <= e1 - e) by lia.
  assert (Hm1 : 0 <= m1) by (apply Z.div_pos; [lia|now apply pow2_pos]).
  assert (He1 : e1 <= fexp prec emax (Zdigits2 m2 + e1)).
  { destruct (Z.eq_dec m1 0) as [Hz|Hnz].
    - assert (Hd : Zdigits2 m <= e1 - e).
      { apply Zdigits2_le; [lia|lia|].
        apply Z.div_small_iff in Hz; [lia|]. pose proof (pow2_pos _ Hk). lia. }
      lia.
    - assert (Hd1 : Zdigits2 m1 = Zdigits2 m - (e1 - e))
        by (apply Zdigits2_div_pow2; lia).
      assert (Hd2 : Zdigits2 m1 <= Zdigits2 m2)
        by (apply Zdigits2_mono; lia).
      lia. }
  destruct (m2 / 2 ^ (e3 - e1)) as [|p|p] eqn:Hm3.
  - right. exact I.
  - destruct (e3 <=? emax - prec) eqn:Hb; [right|now left].
    unfold canonical, bounded, canonical_mantissa. rewrite Hb, andb_true_r.
    apply Z.eqb_eq.
    change (Z.pos (digits2_pos p)) with (Zdigits2 (Z.pos p)).
    assert (Hm2pos : 0 <= m2) by (destruct Hm2; lia).
    assert (Hd3 : Zdigits2 (m2 / 2 ^ (e3 - e1)) = Zdigits2 m2 - (e3 - e1))
      by (apply Zdigits2_div_pow2; lia).
    rewrite <- Hm3, Hd3.
    replace (Zdigits2 m2 - (e3 - e1) + e3) with (Zdigits2 m2 + e1) by lia.
    lia.
  - exfalso. assert (0 <= m2 / 2 ^ (e3 - e1)).
    { apply Z.div_pos; [lia|]. apply pow2_pos. unfold e3. lia. }
    lia.
Qed.

(** Rounding is monotone: what is at most a float of the format is rounded
    to at most that float; in particular it does not overflow. *)
Lemma binary_round_aux_below (sx : bool) (m e : Z) (l : location) (mt et : Z) :
  0 <= m -> 0 < mt ->
  fexp prec emax (Zdigits2 mt + et) <= et -> et <= emax - prec ->
  e <= et -> m <= mt * 2 ^ (et - e) ->
  (l <> loc_Exact -> m < mt * 2 ^ (et - e)) ->
  below mt et (binary_round_aux prec emax sx m e l).
Proof.
  intros Hm Hmt Hcan Hmax He Hle Hlt.
  destruct (binary_round_aux_spec sx m e l Hm) as (m2 & Hm2 & Hex & ->).
  set (e1 := Z.max e (fexp prec emax (Zdigits2 m + e))) in *.
  set (m1 := m / 2 ^ (e1 - e)) in *.
  set (e3 := Z.max e1 (fexp prec emax (Zdigits2 m2 + e1))).
  assert (Hk : 0 <= e1 - e) by lia.
  pose proof (pow2_pos _ Hk) as Hpk.
  assert (Hm1 : 0 <= m1) by (apply Z.div_pos; lia).
  pose proof (fexp_eq (Zdigits2 m + e)) as F1.
  pose proof (fexp_eq (Zdigits2 m2 + e1)) as F2.
  pose proof (fexp_eq (Zdigits2 mt + et)) as F3.
  assert (Hd : Zdigits2 m <= Zdigits2 mt + (et - e))
    by (apply Zdigits2_scaled; lia).
  assert (He1 : e1 <= et) by lia.
  assert (Hsplit : 2 ^ (et - e) = 2 ^ (et - e1) * 2 ^ (e1 - e))
    by (apply pow2_split; lia).
  assert (Hpt : 0 < 2 ^ (et - e1)) by (apply pow2_pos; lia).
  assert (Ht : m1 <= mt * 2 ^ (et - e1)).
  { apply div_pow2_le; [lia|]. rewrite <- Z.mul_assoc, <- Hsplit. lia. }
  assert (Hm2t : m2 <= mt * 2 ^ (et - e1)).
  { destruct (Z.eq_dec m1 (mt * 2 ^ (et - e1))) as [Heq|Hne];
      [|destruct Hm2; lia].
    assert (Hmk : m = m1 * 2 ^ (e1 - e)).
    { assert (m1 * 2 ^ (e1 - e) <= m).
      { unfold m1. rewrite Z.mul_comm. apply Z.mul_div_le. lia. }
      rewrite Heq in *. rewrite Hsplit in Hle. lia. }
    assert (Hl : l = loc_Exact).
    { destruct l as [|c]; [reflexivity|]. exfalso.
      assert (m < mt * 2 ^ (et - e)) by (apply Hlt; discriminate).
      rewrite Hsplit in *. rewrite Heq in Hmk. lia. }
    rewrite (Hex Hl); [lia|]. rewrite Hmk. apply Z.mod_mul. lia. }
  assert (Hm2pos : 0 <= m2) by (destruct Hm2; lia).
  assert (Hd2 : Zdigits2 m2 <= Zdigits2 mt + (et - e1))
    by (apply Zdigits2_scaled; lia).
  assert (He3 : e3 <= et) by lia.
  assert (Hk3 : 0 <= e3 - e1) by (unfold e3; lia).
  assert (Hm3 : m2 / 2 ^ (e3 - e1) <= mt * 2 ^ (et - e3)).
  { apply div_pow2_le; [lia|].
    rewrite <- Z.mul_assoc, <- (pow2_split e1 e3 et) by lia. assumption. }
  destruct (m2 / 2 ^ (e3 - e1)) as [|p|p] eqn:E.
  - exact I.
  - destruct (e3 <=? emax - prec) eqn:Hb; [|lia]. simpl. split; lia.
  - exfalso. assert (0 <= m2 / 2 ^ (e3 - e1)).
    { apply Z.div_pos; [lia|]. apply pow2_pos. lia. }
    lia.
Qed.

End Rounding.

(** ** Floats: the operations of the handler *)

Section Operations.

Lemma canonical_digits (s : bool) (m : positive) (e : Z) :
  canonical (S754_finite s m e) ->
  fexp prec emax (Zdigits2 (Zpos m) + e) = e /\ e <= emax - prec
  /\ Zdigits2 (Zpos m) <= 53.
Proof.
  unfold canonical, bounded, canonical_mantissa. intros H.
  apply andb_true_iff in H. destruct H as [H1 H2].
  apply Z.eqb_eq in H1. apply Z.leb_le in H2.
  change (Z.pos (digits2_pos m)) with (Zdigits2 (Z.pos m)) in H1.
  pose proof (fexp_eq (Zdigits2 (Z.pos m) + e)). lia.
Qed.

(** *** Quotients *)

Lemma div_eucl_eq (a b : Z) : Z.div_eucl a b = (a / b, a mod b).
Proof. unfold Z.div, Z.modulo. now destruct (Z.div_eucl a b). Qed.

Lemma SFdiv_core_binary_spec (m1 e1 m2 e2 : Z) :
  let e' := Z.min (fexp prec emax (Zdigits2 m1 + e1 - (Zdigits2 m2 + e2)))
                  (e1 - e2) in
  let a := m1 * 2 ^ (e1 - e2 - e') in
  SFdiv_core_binary prec emax m1 e1 m2 e2
  = (a / m2, e', new_location m2 (a mod m2)).
Proof.
  intros e' a. unfold SFdiv_core_binary. fold e'.
  assert (Hs : 0 <= e1 - e2 - e') by lia.
  assert (Ha : match e1 - e2 - e' with
               | Z0 => m1
               | Zpos _ => Z.shiftl m1 (e1 - e2 - e')
               | Zneg _ => 0
               end = a).
  { unfold a. destruct (e1 - e2 - e') as [|p|p] eqn:E.
    - rewrite Z.pow_0_r. lia.
    - apply Z.shiftl_mul_pow2. lia.
    - lia. }
  rewrite Ha, div_eucl_eq. reflexivity.
Qed.

Lemma new_location_inexact (nb k : Z) : new_location nb k <> loc_Exact -> k <> 0.
Proof.
  intros H ->. apply H. unfold new_location, new_location_even,
    new_location_odd. destruct (Z.even nb); reflexivity.
Qed.

(** A quotient that is at most a float of the format rounds to at most
    that float. *)
Lemma round_quotient_below (sx : bool) (a m2 e' mt et : Z) :
  0 <= a -> 0 < m2 -> 0 < mt ->
  fexp prec emax (Zdigits2 mt + et) <= et -> et <= emax - prec ->
  e' <= et -> a <= mt * 2 ^ (et - e') * m2 ->
  below mt et
    (binary_round_aux prec emax sx (a / m2) e' (new_location m2 (a mod m2))).
Proof.
  intros Ha Hm2 Hmt Hcan Hmax He Hle.
  assert (Hq : 0 <= a / m2) by (apply Z.div_pos; lia).
  assert (Hqm : a / m2 * m2 <= a) by (rewrite Z.mul_comm; apply Z.mul_div_le; lia).
  pose proof (pow2_pos (et - e') ltac:(lia)) as Hp.
  apply binary_round_aux_below; try assumption.
  - apply Z.div_le_upper_bound; lia.
  - intros Hl. apply new_location_inexact in Hl.
    assert (a / m2 * m2 < a).
    { pose proof (Z.div_mod a m2 ltac:(lia)).
      pose proof (Z.mod_pos_bound a m2 Hm2). lia. }
    nia.
Qed.

(** A quotient that has as many digits as the format asks for. *)
Lemma quotient_digits (m1 e1 m2 e2 : Z) :
  0 < m1 -> 0 < m2 ->
  let e' := Z.min (fexp prec emax (Zdigits2 m1 + e1 - (Zdigits2 m2 + e2)))
                  (e1 - e2) in
  let a := m1 * 2 ^ (e1 - e2 - e') in
  e' <= fexp prec emax (Zdigits2 (a / m2) + e').
Proof.
  intros Hm1 Hm2 e' a.
  pose proof (fexp_eq (Zdigits2 m1 + e1 - (Zdigits2 m2 + e2))) as F1.
  pose proof (fexp_eq (Zdigits2 (a / m2) + e')) as F2.
  pose proof (Zdigits2_nonneg (a / m2)) as Hdq.
  destruct (Z.le_gt_cases e' (-1074)) as [Hlow|Hhigh]; [lia|].
  set (s := e1 - e2 - e') in *.
  set (t := Zdigits2 m1 - 1 + s - Zdigits2 m2).
  pose proof (Zdigits2_pos m1 Hm1) as Hd1.
  pose proof (Zdigits2_pos m2 Hm2) as Hd2.
  assert (Ht : 52 <= t) by (unfold t; lia).
  assert (Hs : 0 <= s) by (unfold s; lia).
  assert (H1 : 2 ^ (Zdigits2 m1 - 1) <= m1).
  { pose proof (proj1 (Zdigits2_gt m1 (Zdigits2 m1 - 1) ltac:(lia))
                  ltac:(lia)). lia. }
  assert (H2 : m2 < 2 ^ Zdigits2 m2) by (apply Zdigits2_le; lia).
  assert (Hq : 2 ^ t <= a / m2).
  { apply Z.div_le_lower_bound; [lia|].
    assert (E : 2 ^ (Zdigits2 m1 - 1) * 2 ^ s = 2 ^ t * 2 ^ Zdigits2 m2).
    { rewrite <- !Z.pow_add_r by lia. f_equal. unfold t. lia. }
    pose proof (pow2_pos t ltac:(lia)). pose proof (pow2_pos s Hs).
    unfold a. nia. }
  assert (Hdq' : t < Zdigits2 (a / m2)).
  { apply Zdigits2_gt; [lia|]. pose proof (pow2_pos t ltac:(lia)). lia. }
  unfold t in Hdq'. lia.
Qed.

(** The nearest float to a ratio is an infinity or canonical. *)
Lemma of_ratio_canonical (neg : bool) (n d : Z) :
  0 <= n -> 0 < d ->
  of_ratio neg n d = S754_infinity neg \/ canonical (of_ratio neg n d).
Proof.
  intros Hn Hd. unfold of_ratio.
  destruct n as [|p|p]; [right; exact I| |lia]. cbv beta iota.
  rewrite SFdiv_core_binary_spec. cbv beta iota zeta.
  apply binary_round_aux_canonical.
  - apply Z.div_pos; [|lia]. pose proof (pow2_pos (0 - 0 - Z.min
      (fexp prec emax (Zdigits2 (Z.pos p) + 0 - (Zdigits2 d + 0))) (0 - 0))
      ltac:(lia)). nia.
  - apply quotient_digits; lia.
Qed.


(** *** Parsing *)

Lemma span_digits_all (s ds r : str) :
  span_digits s = (ds, r) -> all_digits ds = true.
Proof.
  revert ds r. induction s as [|c s IH]; intros ds r; simpl.
  - intros H; injection H as <- _. reflexivity.
  - destruct (is_digit c) eqn:Hc.
    + destruct (span_digits s) as [ds' r'].
      intros H; injection H as <- _. simpl. rewrite Hc. now apply (IH ds' r').
    + intros H; injection H as <- _. reflexivity.
Qed.

Lemma all_digits_app (a b : str) :
  all_digits a = true -> all_digits b = true -> all_digits (a ++ b) = true.
Proof. unfold all_digits. intros Ha Hb. now rewrite forallb_app, Ha, Hb. Qed.

(** [float()] gives an infinity or a canonical float. *)
Lemma float_of_str_canonical (raw : str) (p : float) :
  float_of_str raw = Some p ->
  (exists sg, p = S754_infinity sg) \/ canonical p.
Proof.
  unfold float_of_str.
  destruct (match raw with
            | [] => (false, [])
            | c :: r => if Ascii.eqb c minus then (true, r) else (false, raw)
            end) as [neg body].
  destruct (span_digits body) as [ip rest] eqn:Hspan.
  apply span_digits_all in Hspan.
  assert (Hr : forall n d, 0 <= n -> 0 < d ->
            (exists sg, of_ratio neg n d = S754_infinity sg)
            \/ canonical (of_ratio neg n d)).
  { intros n d Hn Hd. destruct (of_ratio_canonical neg n d Hn Hd); eauto. }
  destruct rest as [|c fp].
  - destruct (nonempty ip); [|discriminate]. intros H; injection H as <-.
    apply Hr; [now apply digits_val_nonneg|lia].
  - destruct (Ascii.eqb c dot && all_digits fp && (nonempty ip || nonempty fp))
      eqn:Hc; [|discriminate].
    intros H; injection H as <-.
    apply andb_true_iff in Hc. destruct Hc as [Hc _].
    apply andb_true_iff in Hc. destruct Hc as [_ Hfp].
    apply Hr; [apply digits_val_nonneg; now apply all_digits_app|].
    apply Z.pow_pos_nonneg; [lia|apply len_nonneg].
Qed.

(** *** The percentage *)

Lemma hundred_eq : hundred = S754_finite false 7036874417766400 (-46).
Proof. reflexivity. Qed.

Lemma leb_hundred_below (c : float) :
  canonical c -> unsigned c -> leb c hundred = true ->
  below 7036874417766400 (-46) c.
Proof.
  destruct c as [s|s| |s m e]; try contradiction; [intros; exact I|].
  intros Hcan Hs. simpl in Hs. subst s.
  apply canonical_digits in Hcan. destruct Hcan as (_ & _ & Hd).
  apply Zdigits2_le in Hd; [|lia|lia].
  rewrite hundred_eq. unfold leb, SFleb, SFcompare.
  destruct (Z.compare_spec e (-46)) as [-> |Hlt|Hgt].
  - intros H. unfold below. split; [lia|].
    assert (Hc : (m ?= 7036874417766400)%positive <> Gt).
    { unfold Pos.compare.
      destruct (Pos.compare_cont Eq m 7036874417766400); congruence. }
    change (m <= 7036874417766400)%positive in Hc.
    change (2 ^ (-46 - -46)) with 1. rewrite Z.mul_1_r.
    now apply Pos2Z.pos_le_pos.
  - intros _. unfold below. split; [lia|].
    assert (2 ^ 1 <= 2 ^ (-46 - e)) by (apply Z.pow_le_mono_r; lia).
    change (2 ^ 53) with 9007199254740992 in Hd. change (2 ^ 1) with 2 in H.
    nia.
  - discriminate.
Qed.

(** The clamped percentage over 100 is at most 1. *)
Lemma div_hundred_below (c : float) :
  canonical c -> unsigned c -> leb c hundred = true ->
  below 4503599627370496 (-52) (div c hundred).
Proof.
  intros Hcan Hs Hle. pose proof (leb_hundred_below c Hcan Hs Hle) as Hb.
  destruct c as [s|s| |s m e]; try contradiction; [exact I|].
  simpl in Hs. subst s. destruct Hb as [He Hm].
  apply canonical_digits in Hcan. destruct Hcan as (_ & _ & Hd).
  rewrite hundred_eq. unfold div, SFdiv.
  rewrite SFdiv_core_binary_spec. cbv beta iota zeta.
  change (Zdigits2 (Z.pos 7036874417766400)) with 53.
  set (e' := Z.min (fexp prec emax (Zdigits2 (Z.pos m) + e - (53 + -46)))
                   (e - -46)).
  pose proof (fexp_eq (Zdigits2 (Z.pos m) + e - (53 + -46))) as F.
  assert (He' : e' <= -53) by lia.
  pose proof (pow2_pos (e - -46 - e') ltac:(lia)) as Hp1.
  pose proof (pow2_pos (-46 - e) ltac:(lia)) as Hp2.
  assert (E : 2 ^ (-46 - e) * 2 ^ (e - -46 - e')
              = 4503599627370496 * 2 ^ (-52 - e')).
  { change 4503599627370496 with (2 ^ 52).
    rewrite <- !Z.pow_add_r by lia. f_equal. lia. }
  apply round_quotient_below.
  - apply Z.mul_nonneg_nonneg; lia.
  - reflexivity.
  - reflexivity.
  - vm_compute. discriminate.
  - vm_compute. discriminate.
  - lia.
  - apply Z.le_trans
      with (7036874417766400 * 2 ^ (-46 - e) * 2 ^ (e - -46 - e')).
    + apply Z.mul_le_mono_nonneg_r; lia.
    + rewrite <- Z.mul_assoc, E. lia.
Qed.

Lemma mul_below (sx : bool) (mx : positive) (ex : Z) (y : float) :
  canonical (S754_finite sx mx ex) -> below 4503599627370496 (-52) y ->
  below (Zpos mx) ex (mul (S754_finite sx mx ex) y).
Proof.
  intros Hcan Hy. apply canonical_digits in Hcan.
  destruct Hcan as (Hf & Hmax & _).
  destruct y as [sy|sy| |sy my ey]; try contradiction; [exact I|].
  destruct Hy as [Hey Hmy]. unfold mul, SFmul.
  pose proof (pow2_pos (-52 - ey) ltac:(lia)) as Hp.
  assert (E : 4503599627370496 * 2 ^ (-52 - ey) = 2 ^ (ex - (ex + ey))).
  { change 4503599627370496 with (2 ^ 52).
    rewrite <- Z.pow_add_r by lia. f_equal. lia. }
  apply binary_round_aux_below.
  - lia.
  - lia.
  - change (Z.pos mx) with (Z.pos mx) in Hf. lia.
  - assumption.
  - lia.
  - rewrite <- E, Pos2Z.inj_mul. apply Z.mul_le_mono_nonneg_l; lia.
  - intros H. now contradiction H.
Qed.

(** *** Floors *)

Lemma shiftl_mono (a b n : Z) : a <= b -> Z.shiftl a n <= Z.shiftl b n.
Proof.
  intros H. destruct (Z.le_gt_cases 0 n) as [Hn|Hn].
  - rewrite !Z.shiftl_mul_pow2 by assumption.
    pose proof (pow2_pos n Hn). nia.
  - rewrite !Z.shiftl_div_pow2 by lia.
    apply Z.div_le_mono; [apply pow2_pos; lia|assumption].
Qed.

Lemma floor_below (mt et : Z) (x : float) :
  unsigned x -> 0 <= mt -> below mt et x ->
  exists v, floor x = Some v /\ 0 <= v <= Z.shiftl mt et.
Proof.
  intros Hs Hmt Hb. destruct x as [s|s| |s m e]; try contradiction.
  - exists 0. split; [reflexivity|]. split; [lia|].
    apply Z.shiftl_nonneg. assumption.
  - simpl in Hs. subst s. destruct Hb as [He Hm]. simpl.
    exists (Z.shiftl (Z.pos m) e). split; [reflexivity|].
    split; [apply Z.shiftl_nonneg; lia|].
    assert (E : Z.shiftl mt et = Z.shiftl (mt * 2 ^ (et - e)) e).
    { rewrite <- Z.shiftl_mul_pow2, Z.shiftl_shiftl by lia. f_equal. lia. }
    rewrite E. now apply shiftl_mono.
Qed.


(** *** Integers as floats *)

Lemma pos_iter_xO (m d : positive) :
  Z.pos (Pos.iter xO m d) = Z.pos m * 2 ^ Z.pos d.
Proof.
  induction d as [|d IH] using Pos.peano_ind.
  - simpl. lia.
  - rewrite Pos.iter_succ, Pos2Z.inj_xO, IH, Pos2Z.inj_succ.
    rewrite Z.pow_succ_r; [ring|apply Pos2Z.is_nonneg].
Qed.

Lemma shl_align_spec (mx : positive) (ex ex' : Z) :
  snd (shl_align mx ex ex') = Z.min ex ex'
  /\ Z.pos (fst (shl_align mx ex ex')) = Z.pos mx * 2 ^ (ex - Z.min ex ex').
Proof.
  unfold shl_align. destruct (ex' - ex) as [|d|d] eqn:E; cbn [fst snd].
  - replace (Z.min ex ex') with ex by lia.
    rewrite Z.sub_diag, Z.pow_0_r. split; [reflexivity|ring].
  - replace (Z.min ex ex') with ex by lia.
    rewrite Z.sub_diag, Z.pow_0_r. split; [reflexivity|ring].
  - replace (Z.min ex ex') with ex' by lia.
    replace (ex - ex') with (Z.pos d) by lia. split; [reflexivity|].
    apply pos_iter_xO.
Qed.

Lemma binary_normalize_pos (p : positive) :
  let ez := Z.min 0 (fexp prec emax (Zdigits2 (Z.pos p))) in
  binary_normalize prec emax (Z.pos p) 0 false
  = binary_round_aux prec emax false (Z.pos p * 2 ^ (- ez)) ez loc_Exact.
Proof.
  intros ez. unfold binary_normalize, binary_round.
  pose proof (shl_align_spec p 0 (fexp prec emax (Z.pos (digits2_pos p) + 0)))
    as [H1 H2].
  destruct (shl_align p 0 (fexp prec emax (Z.pos (digits2_pos p) + 0)))
    as [mz e0]. cbn [fst snd] in H1, H2.
  rewrite Z.add_0_r in H1, H2.
  change (Z.pos (digits2_pos p)) with (Zdigits2 (Z.pos p)) in H1, H2.
  fold ez in H1, H2. rewrite H1, H2. f_equal.
Qed.

(** The largest finite float, as an integer. *)
Lemma max_float_canonical :
  fexp prec emax (Zdigits2 9007199254740991 + 971) <= 971.
Proof. vm_compute. discriminate. Qed.

Lemma of_int_some (z : Z) :
  0 <= z <= 9007199254740991 * 2 ^ 971 ->
  exists sf,
    of_int z = Some sf /\ canonical sf /\ unsigned sf
    /\ (z < 2 ^ 53 -> floor sf = Some z).
Proof.
  intros Hz. unfold of_int. destruct z as [|p|p]; [| |lia].
  { exists zero. repeat split. }
  rewrite binary_normalize_pos.
  set (d := Zdigits2 (Z.pos p)).
  set (ez := Z.min 0 (fexp prec emax d)).
  pose proof (fexp_eq d) as Fd.
  assert (Hd : 0 < d) by (apply Zdigits2_pos; lia).
  pose proof (pow2_pos (- ez) ltac:(lia)) as Hp.
  assert (Hdm : Zdigits2 (Z.pos p * 2 ^ (- ez)) = d - ez)
    by (rewrite Zdigits2_mul_pow2 by lia; unfold d; lia).
  assert (Hm : 0 <= Z.pos p * 2 ^ (- ez)) by lia.
  pose proof (binary_round_aux_unsigned (Z.pos p * 2 ^ (- ez)) ez loc_Exact)
    as Hu.
  assert (Hb : below 9007199254740991 971
                 (binary_round_aux prec emax false (Z.pos p * 2 ^ (- ez)) ez
                    loc_Exact)).
  { apply binary_round_aux_below.
    - assumption.
    - reflexivity.
    - exact max_float_canonical.
    - vm_compute. discriminate.
    - lia.
    - replace (971 - ez) with (971 + - ez) by lia.
      rewrite Z.pow_add_r, Z.mul_assoc by lia.
      apply Z.mul_le_mono_nonneg_r; lia.
    - intros H. now contradiction H. }
  assert (Hc : binary_round_aux prec emax false (Z.pos p * 2 ^ (- ez)) ez
                 loc_Exact = S754_infinity false
               \/ canonical (binary_round_aux prec emax false
                               (Z.pos p * 2 ^ (- ez)) ez loc_Exact)).
  { apply binary_round_aux_canonical; [assumption|].
    rewrite Hdm. replace (d - ez + ez) with d by lia. lia. }
  assert (Hex : Z.pos p < 2 ^ 53 ->
                floor (binary_round_aux prec emax false (Z.pos p * 2 ^ (- ez))
                         ez loc_Exact) = Some (Z.pos p)).
  { intros Hsmall.
    assert (Hd53 : d <= 53) by (apply Zdigits2_le; lia).
    destruct (binary_round_aux_spec false (Z.pos p * 2 ^ (- ez)) ez loc_Exact Hm)
      as (m2 & _ & Hexact & ->).
    rewrite Hdm in *. replace (d - ez + ez) with d in * by lia.
    replace (Z.max ez (fexp prec emax d)) with ez in * by lia.
    rewrite Z.sub_diag, Z.pow_0_r, Z.div_1_r in Hexact.
    rewrite (Hexact eq_refl (Z.mod_1_r _)).
    rewrite Hdm. replace (d - ez + ez) with d by lia.
    replace (Z.max ez (fexp prec emax d)) with ez by lia.
    rewrite Z.sub_diag, Z.pow_0_r, Z.div_1_r.
    destruct (Z.pos p * 2 ^ (- ez)) as [|q|q] eqn:Eq; try lia.
    destruct (ez <=? emax - prec) eqn:Hle.
    - simpl. f_equal. rewrite <- Eq, <- Z.shiftl_mul_pow2 by lia.
      rewrite Z.shiftl_shiftl by lia. replace (- ez + ez) with 0 by lia.
      apply Z.shiftl_0_r.
    - apply Z.leb_gt in Hle. change (emax - prec) with 971 in Hle. lia. }
  destruct (binary_round_aux prec emax false (Z.pos p * 2 ^ (- ez)) ez
              loc_Exact) as [s|s| |s m e] eqn:ER; try contradiction.
  - exists (S754_zero s). repeat split; auto.
  - exists (S754_finite s m e). destruct Hc as [Hc|Hc]; [discriminate|].
    repeat split; auto.
Qed.

(** *** True division *)

Lemma shiftl_digits (m : positive) (e : Z) :
  0 < Z.shiftl (Z.pos m) e ->
  Zdigits2 (Z.shiftl (Z.pos m) e) = Zdigits2 (Z.pos m) + e.
Proof.
  intros H. destruct (Z.le_gt_cases 0 e) as [He|He].
  - rewrite Z.shiftl_mul_pow2 by lia. apply Zdigits2_mul_pow2; lia.
  - rewrite Z.shiftl_div_pow2 in * by lia.
    rewrite Zdigits2_div_pow2 by lia. lia.
Qed.

Lemma shiftl_scaled (m : positive) (e k : Z) :
  0 <= k -> 0 <= e + k ->
  Z.shiftl (Z.pos m) e * 2 ^ k <= Z.pos m * 2 ^ (e + k).
Proof.
  intros Hk Hek. destruct (Z.le_gt_cases 0 e) as [He|He].
  - rewrite Z.shiftl_mul_pow2, Z.pow_add_r by lia. lia.
  - rewrite Z.shiftl_div_pow2 by lia.
    replace k with (- e + (e + k)) at 1 by lia.
    rewrite Z.pow_add_r, Z.mul_assoc by lia.
    apply Z.mul_le_mono_nonneg_r; [apply Z.lt_le_incl, pow2_pos; lia|].
    rewrite Z.mul_comm. apply Z.mul_div_le. apply pow2_pos. lia.
Qed.

(** The quotient of a truncated float by a positive integer is a float. *)
Lemma int_truediv_some (f : float) (r0 s : Z) :
  canonical f -> to_int f = Some r0 -> 0 < s ->
  exists q, int_truediv (Z.max 0 r0) s = Some q.
Proof.
  intros Hcan Hr Hs. unfold int_truediv.
  replace (Z.max 0 r0 <? 0) with false by (symmetry; apply Z.ltb_ge; lia).
  replace (s <? 0) with false by (symmetry; apply Z.ltb_ge; lia).
  rewrite (Z.abs_eq (Z.max 0 r0)), (Z.abs_eq s) by lia. simpl xorb.
  destruct (Z.eq_dec (Z.max 0 r0) 0) as [->|Hne]; [now exists zero|].
  assert (Hr0 : 0 < r0) by lia.
  replace (Z.max 0 r0) with r0 by lia.
  destruct f as [sf|sf| |sf mf ef]; simpl in Hr; try discriminate;
    [injection Hr as <-; lia|].
  destruct sf; injection Hr as <-;
    [pose proof (Z.shiftl_nonneg (Z.pos mf) ef); lia|].
  apply canonical_digits in Hcan. destruct Hcan as (Hf & Hmax & _).
  set (r := Z.shiftl (Z.pos mf) ef) in *.
  assert (Hb : below (Z.pos mf) ef (of_ratio false r s)).
  { unfold of_ratio. destruct r as [|p|p] eqn:Er; [lia| |lia].
    cbv beta iota. rewrite SFdiv_core_binary_spec. cbv beta iota zeta.
    rewrite <- Er.
    set (e' := Z.min (fexp prec emax (Zdigits2 r + 0 - (Zdigits2 s + 0)))
                     (0 - 0)).
    pose proof (fexp_eq (Zdigits2 r + 0 - (Zdigits2 s + 0))) as F1.
    pose proof (fexp_eq (Zdigits2 (Z.pos mf) + ef)) as F2.
    pose proof (Zdigits2_pos s Hs) as Hds.
    assert (Hdr : Zdigits2 r = Zdigits2 (Z.pos mf) + ef)
      by (apply shiftl_digits; fold r; lia).
    assert (He' : e' <= ef) by lia.
    assert (Hk : 0 <= 0 - 0 - e') by lia.
    pose proof (pow2_pos _ Hk) as Hp.
    apply round_quotient_below.
    - apply Z.mul_nonneg_nonneg; lia.
    - assumption.
    - reflexivity.
    - lia.
    - assumption.
    - assumption.
    - apply Z.le_trans with (Z.pos mf * 2 ^ (ef - e')).
      + replace (ef - e') with (ef + (0 - 0 - e')) by lia.
        apply shiftl_scaled; lia.
      + pose proof (pow2_pos (ef - e') ltac:(lia)). nia. }
  destruct (of_ratio false r s) as [x|x| |x m e]; try contradiction; eauto.
Qed.

End Operations.

(** ** The two retention branches *)

Section Branches.

(** *** The display of a percentage *)

Lemma code_chr (n : Z) : 0 <= n < 256 -> code (chr n) = n.
Proof.
  intros H. unfold code, chr. rewrite N_ascii_embedding; lia.
Qed.

Lemma is_digit_chr (k : Z) : 0 <= k <= 9 -> is_digit (chr (48 + k)) = true.
Proof.
  intros H. unfold is_digit. rewrite code_chr by lia. lia.
Qed.

Lemma digits_aux_all (fuel : nat) (n : Z) (acc : str) :
  0 <= n -> all_digits acc = true ->
  all_digits (digits_aux fuel n acc) = true.
Proof.
  revert n acc. induction fuel as [|fuel IH]; intros n acc Hn Hacc;
    [assumption|].
  cbn [digits_aux].
  assert (Hd : all_digits (chr (48 + n mod 10) :: acc) = true).
  { cbn [all_digits forallb]. fold (all_digits acc).
    rewrite Hacc, is_digit_chr; [reflexivity|div_lia]. }
  destruct (n / 10 =? 0); [assumption|]. apply IH; [div_lia|assumption].
Qed.

Lemma digits_aux_nonempty (fuel : nat) (n : Z) (acc : str) :
  acc <> [] -> digits_aux fuel n acc <> [].
Proof.
  revert n acc. induction fuel as [|fuel IH]; intros n acc Hacc;
    [assumption|].
  cbn [digits_aux]. destruct (n / 10 =? 0); [discriminate|].
  apply IH. discriminate.
Qed.

Lemma str_of_nonneg_digits (n : Z) :
  0 <= n -> str_of_nonneg n <> [] /\ all_digits (str_of_nonneg n) = true.
Proof.
  intros Hn. unfold str_of_nonneg. split.
  - cbn [digits_aux]. destruct (n / 10 =? 0); [discriminate|].
    apply digits_aux_nonempty. discriminate.
  - now apply digits_aux_all.
Qed.

Lemma digit_val_chr (k : Z) : 0 <= k <= 9 -> digit_val (chr (48 + k)) = k.
Proof.
  intros H. unfold digit_val. rewrite code_chr by lia. lia.
Qed.

Lemma digits_val_snoc (ds : str) (c : ascii) :
  digits_val (ds ++ [c]) = 10 * digits_val ds + digit_val c.
Proof.
  unfold digits_val. rewrite fold_left_app. reflexivity.
Qed.

Lemma digits_aux_val (fuel : nat) (n : Z) (acc : str) :
  0 <= n < 10 ^ Z.of_nat fuel ->
  exists ds, digits_aux fuel n acc = ds ++ acc /\ digits_val ds = n.
Proof.
  revert n acc. induction fuel as [|fuel IH]; intros n acc Hn.
  - exists []. split; [reflexivity|]. change (10 ^ Z.of_nat 0) with 1 in Hn.
    unfold digits_val. cbn [fold_left]. lia.
  - rewrite Nat2Z.inj_succ, Z.pow_succ_r in Hn by lia.
    cbn [digits_aux]. destruct (Z.eqb_spec (n / 10) 0) as [Hq|Hq].
    + exists [chr (48 + n mod 10)]. split; [reflexivity|].
      unfold digits_val. cbn [fold_left].
      rewrite digit_val_chr by div_lia. div_lia.
    + destruct (IH (n / 10) (chr (48 + n mod 10) :: acc)) as [ds [E V]];
        [div_lia|].
      exists (ds ++ [chr (48 + n mod 10)]). split.
      * rewrite E, <- app_assoc. reflexivity.
      * rewrite digits_val_snoc, V, digit_val_chr by div_lia. div_lia.
Qed.

(** The digits written for a non-negative integer read back as it: the
    fuel of [str_of_nonneg] is enough. *)
Lemma str_of_nonneg_val (n : Z) : 0 <= n -> digits_val (str_of_nonneg n) = n.
Proof.
  intros Hn. unfold str_of_nonneg.
  destruct (digits_aux_val (S (Z.to_nat (Z.log2 n))) n []) as [ds [E V]].
  - rewrite Nat2Z.inj_succ, Z2Nat.id by apply Z.log2_nonneg.
    split; [assumption|].
    apply Z.lt_le_trans with (2 ^ Z.succ (Z.log2 n)).
    + destruct (Z.eq_dec n 0) as [-> |Hz]; [reflexivity|].
      apply Z.log2_spec. lia.
    + apply Z.pow_le_mono_l. lia.
  - rewrite E, app_nil_r. exact V.
Qed.

Lemma round_half_even_nonneg (n d : Z) :
  0 <= n -> 0 < d -> 0 <= round_half_even n d.
Proof.
  intros Hn Hd. unfold round_half_even.
  assert (0 <= n / d) by (apply Z.div_pos; lia).
  destruct (2 * (n mod d) ?= d); [destruct (Z.even (n / d))| |]; lia.
Qed.

Lemma hundredths_nonneg (m : positive) (e : Z) : 0 <= hundredths m e.
Proof.
  unfold hundredths. destruct e as [|p|p].
  - rewrite Z.pow_0_r. lia.
  - pose proof (pow2_pos (Z.pos p) ltac:(lia)). nia.
  - apply round_half_even_nonneg; [lia|]. apply pow2_pos. lia.
Qed.

(** A float that is zero or positive and finite is displayed as digits, a
    point and two digits, which read as its rounded hundredths. *)
Lemma format_2f_shape (x : float) :
  unsigned x -> canonical x ->
  two_decimals (format_2f x) (rounded_hundredths x).
Proof.
  destruct x as [s|s| |s m e]; try contradiction; simpl unsigned;
    intros -> _.
  - exists (lit "0"), (chr 48), (chr 48). repeat split. discriminate.
  - cbn [format_2f app rounded_hundredths].
    pose proof (hundredths_nonneg m e) as Hh.
    set (h := hundredths m e) in *.
    destruct (str_of_nonneg_digits (h / 100)) as [Hne Hall]; [div_lia|].
    exists (str_of_nonneg (h / 100)), (chr (48 + h mod 100 / 10)),
      (chr (48 + h mod 100 mod 10)).
    split; [reflexivity|]. split; [assumption|]. split; [assumption|].
    split; [apply is_digit_chr; div_lia|].
    split; [apply is_digit_chr; div_lia|].
    rewrite str_of_nonneg_val, !digit_val_chr by div_lia. div_lia.
Qed.

(** *** The percent branch *)

Lemma clamp_pct_canonical (p : float) :
  (exists sg, p = S754_infinity sg) \/ canonical p ->
  canonical (clamp_pct p).
Proof.
  intros Hp. destruct (clamp_pct_cases p) as [-> |[-> |[-> [H0 H1]]]].
  - exact I.
  - reflexivity.
  - destruct Hp as [[sg ->]|Hp]; [|assumption].
    destruct sg; discriminate.
Qed.

(** Whatever parses and whatever salary converts to a float, the percent
    branch returns, with a retained amount between 0 and the salary as a
    float sees it. *)
Lemma retention_percent_total (s : Z) (raw : str) (p : float) :
  0 <= s <= max_float -> float_of_str raw = Some p ->
  exists r sf v,
    retention_percent s raw = Done r
    /\ of_int s = Some sf /\ floor sf = Some v /\ (s < 2 ^ 53 -> v = s)
    /\ 0 <= retained_amount r <= v.
Proof.
  intros Hs Hp. unfold retention_percent, bind, or_reject, or_raise.
  rewrite Hp. cbv beta iota.
  pose proof (clamp_pct_canonical p (float_of_str_canonical raw p Hp)) as Hcan.
  pose proof (clamp_pct_unsigned p) as Hu.
  destruct (clamp_pct_range p) as [_ Hle].
  pose proof (div_hundred_below _ Hcan Hu Hle) as Hratio.
  pose proof (div_unsigned _ _ Hu hundred_unsigned) as Hru.
  destruct (of_int_some s Hs) as (sf & Hsf & Hsfc & Hsfu & Hexact).
  rewrite Hsf. cbv beta iota.
  set (ratio := div (clamp_pct p) hundred) in *.
  assert (Hfl : exists v w, floor sf = Some v /\ floor (mul sf ratio) = Some w
                            /\ 0 <= w <= v).
  { destruct sf as [sx|sx| |sx mx ex]; try contradiction.
    - exists 0, 0. split; [reflexivity|].
      destruct ratio as [sy|sy| |sy my ey]; try contradiction;
        (split; [reflexivity|lia]).
    - simpl in Hsfu. subst sx.
      pose proof (mul_below false mx ex ratio Hsfc Hratio) as Hb.
      destruct (floor_below (Z.pos mx) ex (mul (S754_finite false mx ex) ratio))
        as (w & Hw & Hrange);
        [now apply mul_unsigned|lia|assumption|].
      exists (Z.shiftl (Z.pos mx) ex), w. auto. }
  destruct Hfl as (v & w & Hv & Hw & Hrange). rewrite Hw. cbv beta iota.
  eexists _, sf, v. split; [reflexivity|]. split; [reflexivity|].
  split; [assumption|]. split; [|exact Hrange].
  intros Hsmall. specialize (Hexact Hsmall). congruence.
Qed.

(** *** The numeric branch *)

Lemma to_int_truncation (f : float) (r0 : Z) :
  to_int f = Some r0 -> truncation f r0.
Proof.
  destruct f as [s|s| |s m e]; unfold to_int, truncation; try discriminate.
  - intros H; now injection H as <-.
  - intros H; injection H as <-.
    assert (E : Z.shiftl (Z.pos m) e
                = Z.quot (Z.pos m * 2 ^ Z.max e 0) (2 ^ Z.max (- e) 0)).
    { destruct (Z.le_gt_cases 0 e) as [He|He].
      - replace (Z.max e 0) with e by lia. replace (Z.max (- e) 0) with 0 by lia.
        rewrite Z.pow_0_r, Z.quot_1_r. apply Z.shiftl_mul_pow2. lia.
      - replace (Z.max e 0) with 0 by lia.
        replace (Z.max (- e) 0) with (- e) by lia.
        rewrite Z.pow_0_r, Z.mul_1_r, Z.shiftl_div_pow2 by lia.
        symmetry. apply Z.quot_div_nonneg; [lia|]. apply pow2_pos. lia. }
    destruct s; [|exact E].
    rewrite Z.mul_opp_l, Z.quot_opp_l, E; [reflexivity|].
    pose proof (pow2_pos (Z.max (- e) 0) ltac:(lia)). lia.
Qed.

Lemma retention_number_total (s : Z) (raw : str) (f : float) (r0 : Z) :
  0 <= s -> float_of_str raw = Some f -> to_int f = Some r0 ->
  exists r,
    retention_number s raw = Done r
    /\ retained_amount r = Z.max 0 r0
    /\ remaining r = Z.max 0 (s - retained_amount r)
    /\ (0 < s -> exists q, int_truediv (retained_amount r) s = Some q
                           /\ pct r = mul q hundred)
    /\ (s = 0 -> pct r = zero).
Proof.
  intros Hs Hf Hr. unfold retention_number, bind, or_reject, or_raise.
  rewrite Hf, Hr. cbv beta iota.
  destruct (s >? 0) eqn:Hpos.
  - assert (Hcan : canonical f).
    { destruct (float_of_str_canonical raw f Hf) as [[sg ->]|H];
        [discriminate|assumption]. }
    destruct (int_truediv_some f r0 s Hcan Hr ltac:(lia)) as [q Hq].
    rewrite Hq. cbv beta iota. eexists. split; [reflexivity|].
    cbn [retained_amount remaining pct].
    repeat split; try reflexivity; [|lia]. intros _. now exists q.
  - cbv beta iota. eexists. split; [reflexivity|].
    cbn [retained_amount remaining pct].
    repeat split; try reflexivity. lia.
Qed.

Lemma retention_number_rejected (s : Z) (raw : str) :
  retention_number s raw = Rejected NumericNotice <->
  float_of_str raw = None
  \/ exists f, float_of_str raw = Some f /\ to_int f = None.
Proof.
  unfold retention_number.
  destruct (float_of_str raw) as [f|] eqn:Hf.
  - destruct (to_int f) as [r0|] eqn:Hr.
    + simpl. split.
      * destruct (s >? 0); simpl; [|discriminate].
        destruct (int_truediv _ _); simpl; discriminate.
      * intros [H|[f' [H1 H2]]]; [discriminate|]. congruence.
    + simpl. split; [|reflexivity]. intros _. right. now exists f.
  - simpl. split; auto.
Qed.

End Branches.

(** ** The claims on the retention *)

Section RetentionClaims.

Lemma compute_retention_percent (s : Z) (raw : str) :
  compute_retention (lit "percent") s raw = retention_percent s raw.
Proof. reflexivity. Qed.

Lemma compute_retention_number (rt : str) (s : Z) (raw : str) :
  rt <> lit "percent" ->
  compute_retention rt s raw = retention_number s raw.
Proof.
  intros H. unfold compute_retention. apply str_eqb_neq in H. now rewrite H.
Qed.

(** C1 as stated fails twice: in numeric mode a retention above the salary
    is kept as it is and the two amounts add up to more than the salary; in
    percent mode a salary above 2^53 is rounded when it becomes a float, and
    the remaining amount can be negative. *)
Lemma C1_counterexample :
  (exists r,
      compute_retention (lit "number") 100 (lit "200") = Done r
      /\ 100 > 0 /\ retained_amount r + remaining r <> 100)
  /\ (exists r,
         compute_retention (lit "percent") 9007199254740995 (lit "100") = Done r
         /\ remaining r < 0).
Proof.
  split.
  - eexists. split; [vm_compute; reflexivity|]. split; [reflexivity|].
    vm_compute. discriminate.
  - eexists. split; [vm_compute; reflexivity|]. reflexivity.
Qed.

(** C1, amended: for every salary [s >= 0] and every result of the
    computation, the retained amount is not negative and the remaining amount
    is 0 when the salary is 0; in percent mode the two amounts add up to the
    salary, and the remaining amount is not negative when the salary is below
    2^53; in numeric mode the remaining amount is [max(0, s - retained)], not
    negative, and the two amounts add up to the salary exactly when the
    retained amount does not exceed it. *)
Theorem C1_retention_invariants :
  forall (rt : str) (s : Z) (raw : str) (r : retention),
    0 <= s ->
    compute_retention rt s raw = Done r ->
    0 <= retained_amount r
    /\ (s = 0 -> remaining r = 0)
    /\ (rt = lit "percent" ->
        retained_amount r + remaining r = s
        /\ (s < 2 ^ 53 -> 0 <= remaining r))
    /\ (rt <> lit "percent" ->
        remaining r = Z.max 0 (s - retained_amount r)
        /\ 0 <= remaining r
        /\ (retained_amount r + remaining r = s <-> retained_amount r <= s)).
Proof.
  intros rt s raw r Hs H.
  destruct (list_eq_dec ascii_dec rt (lit "percent")) as [->|Hrt].
  - rewrite compute_retention_percent in H.
    pose proof (retention_percent_nonneg s raw r Hs H) as Hnn.
    pose proof (retention_percent_done s raw r H)
      as (p & sf & Hp & _ & _ & _ & Hrem & _).
    split; [assumption|]. split; [|split; [|congruence]].
    + intros ->. apply retention_percent_zero in H. lia.
    + intros _. split; [lia|]. intros Hsmall.
      assert (Hmax : 0 <= s <= max_float).
      { unfold max_float. change (2 ^ 53) with 9007199254740992 in Hsmall.
        pose proof (pow2_pos 971 ltac:(lia)). nia. }
      destruct (retention_percent_total s raw p Hmax Hp)
        as (r' & sf' & v & Hr' & _ & _ & Hv & Hrange).
      rewrite H in Hr'. injection Hr' as <-. specialize (Hv Hsmall). lia.
  - rewrite (compute_retention_number rt s raw Hrt) in H.
    pose proof (retention_number_done s raw r H)
      as (f & r0 & _ & _ & Hret & Hrem & _).
    split; [lia|]. split; [lia|]. split; [congruence|].
    intros _. split; [assumption|]. split; lia.
Qed.

Lemma C1_retention_invariants_witness :
  exists r,
    compute_retention (lit "number") 5000000 (lit "1000000") = Done r
    /\ 0 <= retained_amount r
    /\ retained_amount r + remaining r = 5000000.
Proof.
  destruct (compute_retention (lit "number") 5000000 (lit "1000000"))
    as [| |r] eqn:Hr; [vm_compute in Hr; discriminate Hr..|].
  exists r. split; [reflexivity|].
  assert (Hs : 0 <= 5000000) by lia.
  destruct (C1_retention_invariants (lit "number") 5000000 (lit "1000000") r
              Hs Hr) as (Hnn & _ & _ & Hnum).
  split; [exact Hnn|].
  destruct Hnum as (_ & _ & Hsum); [discriminate|].
  apply Hsum. vm_compute in Hr. injection Hr as <-. vm_compute. discriminate.
Defined.

(** C2: the code misses the floor the claim states.  It multiplies the
    salary by the float [pct / 100.0]: at 29 percent a salary of 100 retains
    28 and leaves 72, and a salary of 800000 retains 231999, where
    [floor (s * p / 100)] is 29 and 232000.  Dividing the float product
    [s * pct] by [100.0], the order in which the claim writes the formula,
    gives 29 and 232000 on these inputs. *)
Lemma C2_floor_slip :
  (exists p r sf,
     float_of_str (lit "29") = Some p
     /\ of_int 100 = Some sf
     /\ compute_retention (lit "percent") 100 (lit "29") = Done r
     /\ retained_amount r = 28 /\ remaining r = 72
     /\ exact_floor_pct 100 (clamp_pct p) = 29
     /\ floor (div (mul sf (clamp_pct p)) hundred) = Some 29)
  /\ (exists p r sf,
        float_of_str (lit "29") = Some p
        /\ of_int 800000 = Some sf
        /\ compute_retention (lit "percent") 800000 (lit "29") = Done r
        /\ retained_amount r = 231999 /\ remaining r = 568001
        /\ exact_floor_pct 800000 (clamp_pct p) = 232000
        /\ floor (div (mul sf (clamp_pct p)) hundred) = Some 232000).
Proof.
  split; eexists _, _, _; (split; [vm_compute; reflexivity|]);
    (split; [vm_compute; reflexivity|]);
    (split; [vm_compute; reflexivity|]); repeat split.
Qed.

(** C3: in numeric mode, for every salary [s >= 0], a text that does not
    parse as a float, or whose float has no integer part, is rejected;
    otherwise the float is truncated toward zero, the retained amount is the
    truncation raised to 0 at least (and not lowered to the salary), the
    remaining amount is [max(0, s - retained)], and the implied percentage
    is the float [retained / s] times 100 when [s > 0] and 0 when [s = 0]. *)
Theorem C3_numeric_mode :
  forall (s : Z) (raw : str),
    0 <= s ->
    (compute_retention (lit "number") s raw = Rejected NumericNotice <->
     float_of_str raw = None
     \/ exists f, float_of_str raw = Some f /\ to_int f = None)
    /\ forall f r0,
         float_of_str raw = Some f -> to_int f = Some r0 ->
         truncation f r0
         /\ exists r,
              compute_retention (lit "number") s raw = Done r
              /\ retained_amount r = Z.max 0 r0
              /\ remaining r = Z.max 0 (s - retained_amount r)
              /\ (0 < s ->
                  exists q, int_truediv (retained_amount r) s = Some q
                            /\ pct r = mul q hundred)
              /\ (s = 0 -> pct r = zero).
Proof.
  intros s raw Hs.
  rewrite (compute_retention_number (lit "number") s raw) by discriminate.
  split; [apply retention_number_rejected|].
  intros f r0 Hf Hr. split; [now apply to_int_truncation|].
  now apply (retention_number_total s raw f r0).
Qed.

Lemma C3_numeric_mode_witness :
  exists r,
    compute_retention (lit "number") 5000000 (lit "1000000") = Done r
    /\ retained_amount r = 1000000
    /\ remaining r = 4000000
    /\ retention_display r = lit "$1,000,000 (20.00%)".
Proof.
  assert (Hs : 0 <= 5000000) by lia.
  destruct (float_of_str (lit "1000000")) as [f|] eqn:Hf;
    [|vm_compute in Hf; discriminate Hf].
  destruct (to_int f) as [r0|] eqn:Hr0;
    [|vm_compute in Hf; injection Hf as <-; vm_compute in Hr0;
      discriminate Hr0].
  destruct (C3_numeric_mode 5000000 (lit "1000000") Hs) as [_ H].
  destruct (H f r0 Hf Hr0) as (_ & r & Hr & _).
  exists r. split; [exact Hr|].
  vm_compute in Hr. injection Hr as <-. repeat split.
Defined.

(** Beyond the largest float the conversion of the salary raises. *)
Example percent_mode_overflow :
  compute_retention (lit "percent") (2 ^ 1024) (lit "25") = Raised.
Proof. vm_compute. reflexivity. Qed.

End RetentionClaims.

(** * Further properties of the code *)

(** ** Trimming *)

Section Trimming.

Lemma strip_visible (s : str) : visible_ends s -> strip s = s.
Proof.
  intros [(c & r & -> & Hc) (r' & c' & E & Hc')].
  unfold strip. cbn [lstrip]. rewrite Hc. unfold rstrip.
  rewrite E, rev_app_distr. cbn [rev app lstrip]. rewrite Hc'.
  change (c' :: rev r') with (rev [c'] ++ rev r').
  rewrite <- rev_app_distr. apply rev_involutive.
Qed.

(** Trimming twice is trimming once. *)
Lemma strip_idem (s : str) : strip (strip s) = strip s.
Proof.
  destruct (strip s) as [|c r] eqn:E; [reflexivity|].
  rewrite <- E. apply strip_visible, strip_visible_ends.
  rewrite E. reflexivity.
Qed.

Lemma rstrip_length (s : str) : (List.length (rstrip s) <= List.length s)%nat.
Proof.
  destruct (rstrip_prefix s) as [q E]. rewrite E at 2.
  rewrite length_app. lia.
Qed.

Lemma lstrip_length (s : str) : (List.length (lstrip s) <= List.length s)%nat.
Proof.
  destruct (lstrip_suffix s) as [p [E _]]. rewrite E at 2.
  rewrite length_app. lia.
Qed.

(** Trimming cuts a piece out of a text. *)
Lemma strip_piece (s : str) : exists p q, s = p ++ strip s ++ q.
Proof.
  destruct (lstrip_suffix s) as [p [E _]].
  destruct (rstrip_prefix (lstrip s)) as [q E'].
  exists p, q. unfold strip. rewrite <- E'. exact E.
Qed.

Lemma len_strip (s : str) : len (strip s) <= len s.
Proof.
  destruct (strip_piece s) as (p & q & E). rewrite E at 2.
  rewrite !len_app. pose proof (len_nonneg p). pose proof (len_nonneg q). lia.
Qed.

Lemma strip_In (c : ascii) (s : str) : In c (strip s) -> In c s.
Proof.
  destruct (strip_piece s) as (p & q & E). intros H. rewrite E.
  apply in_or_app. right. apply in_or_app. now left.
Qed.

Lemma piece_trans (s a t b u : str) :
  s = a ++ t ++ b -> (exists p q, t = p ++ u ++ q) ->
  exists p q, s = p ++ u ++ q.
Proof.
  intros -> (p & q & ->). exists (a ++ p), (q ++ b).
  now rewrite <- !app_assoc.
Qed.

End Trimming.

(** ** Lines *)

Section Lines.

Lemma splitlines_aux_lines (n : nat) :
  forall (s cur : str) (l : str),
    (List.length s <= n)%nat ->
    In l (splitlines_aux cur s) ->
    (exists a b, rev cur ++ s = a ++ l ++ b)
    /\ ((forall c, In c cur -> is_linebreak c = false) ->
        forall c, In c l -> is_linebreak c = false).
Proof.
  induction n as [|n IH]; intros s cur l Hn Hl.
  - destruct s; [|simpl in Hn; lia]. cbn [splitlines_aux] in Hl.
    destruct cur as [|c0 cur0]; [contradiction|].
    destruct Hl as [<-|[]]. split.
    + exists [], []. now rewrite !app_nil_r.
    + intros Hcur c Hc. apply Hcur. now apply in_rev.
  - destruct s as [|c s'].
    { cbn [splitlines_aux] in Hl.
      destruct cur as [|c0 cur0]; [contradiction|].
      destruct Hl as [<-|[]]. split.
      + exists [], []. now rewrite !app_nil_r.
      + intros Hcur c Hc. apply Hcur. now apply in_rev. }
    cbn [splitlines_aux] in Hl. cbn [List.length] in Hn.
    destruct (is_linebreak c) eqn:Hb.
    + destruct Hl as [<-|Hl].
      { split; [now exists [], (c :: s')|].
        intros Hcur c1 Hc. apply Hcur. now apply in_rev. }
      destruct s' as [|d s'']; [contradiction|]. cbn [List.length] in Hn.
      destruct ((code c =? 13) && (code d =? 10)).
      * destruct (IH s'' [] l ltac:(lia) Hl) as [(a & b & E) Hline].
        cbn [rev app] in E. split.
        -- exists (rev cur ++ [c; d] ++ a), b. rewrite E.
           now rewrite <- !app_assoc.
        -- intros _. apply Hline. intros c1 [].
      * destruct (IH (d :: s'') [] l ltac:(simpl; lia) Hl)
          as [(a & b & E) Hline].
        cbn [rev app] in E. split.
        -- exists (rev cur ++ [c] ++ a), b. rewrite E.
           now rewrite <- !app_assoc.
        -- intros _. apply Hline. intros c1 [].
    + destruct (IH s' (c :: cur) l ltac:(lia) Hl) as [(a & b & E) Hline].
      split.
      * exists a, b. rewrite <- E. cbn [rev]. now rewrite <- app_assoc.
      * intros Hcur. apply Hline. intros c1 [<-|Hc]; [assumption|].
        now apply Hcur.
Qed.

(** A line of [splitlines] is a piece of the text and holds no line
    boundary. *)
Lemma splitlines_line (s l : str) :
  In l (splitlines s) ->
  (exists a b, s = a ++ l ++ b)
  /\ forall c, In c l -> is_linebreak c = false.
Proof.
  intros H.
  destruct (splitlines_aux_lines (List.length s) s [] l (le_n _) H) as [Hp Hl].
  split; [exact Hp|]. apply Hl. intros c [].
Qed.

Lemma stat_lines_line (stats_text ln : str) :
  In ln (stat_lines stats_text) ->
  exists l, In l (splitlines stats_text) /\ ln = strip l.
Proof.
  unfold stat_lines. intros H. apply in_map_iff in H.
  destruct H as (l & <- & Hl). apply filter_In in Hl.
  exists l. split; [apply Hl|reflexivity].
Qed.

Lemma piece_In (s a t b : str) (c : ascii) :
  s = a ++ t ++ b -> In c t -> In c s.
Proof.
  intros -> H. apply in_or_app. right. apply in_or_app. now left.
Qed.

Lemma piece_len (s a t b : str) : s = a ++ t ++ b -> len t <= len s.
Proof.
  intros ->. rewrite !len_app.
  pose proof (len_nonneg a). pose proof (len_nonneg b). lia.
Qed.

Lemma occurs_piece (sep s a t b : str) :
  s = a ++ t ++ b -> occurs sep t -> occurs sep s.
Proof.
  intros -> (p & q & ->). exists (a ++ p), (q ++ b).
  now rewrite <- !app_assoc.
Qed.

End Lines.

(** ** The player name *)

Section PlayerName.

(** Where the name comes from: a line of the stats, trimmed, and a piece
    [src] of that line, trimmed again; [src] is the regex capture, or the
    text before the first [" - "], or the text before the first comma when
    it has fewer than 40 characters, or the first 60 characters. *)
Lemma extract_player_name_origin (stats_text : str) :
  extract_player_name stats_text = unknown_player
  \/ exists ln src p q,
       In ln (stat_lines stats_text)
       /\ ln = p ++ src ++ q
       /\ extract_player_name stats_text = strip src
       /\ (len src <= 60 \/ occurs (lit " - ") ln).
Proof.
  rewrite extract_player_name_unfold.
  destruct (stat_lines stats_text) as [|first rest] eqn:El; [now left|].
  right. destruct (first_match (firstn 8 (first :: rest))) as [cap|] eqn:Em.
  - apply first_match_some in Em. destruct Em as (i & ln & Hi & Hs & _).
    apply nth_error_In in Hi.
    assert (Hin : In ln (first :: rest)).
    { rewrite <- (firstn_skipn 8 (first :: rest)). apply in_or_app. now left. }
    apply name_search_some in Hs.
    destruct Hs as [(w & seps & tail & _ & _ & _ & _ & Hlen & _ & E) _].
    exists ln, cap, (w ++ seps), tail. split; [assumption|].
    split; [now rewrite <- app_assoc|]. split; [reflexivity|]. left. lia.
  - pose proof (fallback_spec first) as Hf.
    exists first.
    destruct Hf as [(a & b & [E _] & Hn)|[(_ & a & b & [E _] & Hl & Hn)
                                         |(_ & _ & Hn)]].
    + exists a, [], (lit " - " ++ b). split; [now left|].
      split; [exact E|]. split; [exact Hn|]. right. now exists a, b.
    + exists a, [], (lit "," ++ b). split; [now left|].
      split; [exact E|]. split; [exact Hn|]. left. lia.
    + exists (firstn 60 first), [], (skipn 60 first). split; [now left|].
      split; [symmetry; apply firstn_skipn|]. split; [exact Hn|]. left.
      unfold len. rewrite length_firstn. lia.
Qed.

End PlayerName.

Section PlayerNameProps.

(** The extracted name has no blank at either end and no line boundary
    inside, and it is the default name or a piece of the stats text. *)
Theorem player_name_trimmed_piece (stats_text : str) :
  strip (extract_player_name stats_text) = extract_player_name stats_text
  /\ (forall c, In c (extract_player_name stats_text) ->
                is_linebreak c = false)
  /\ (extract_player_name stats_text = unknown_player
      \/ exists a b, stats_text = a ++ extract_player_name stats_text ++ b).
Proof.
  destruct (extract_player_name_origin stats_text)
    as [->|(ln & src & p & q & Hin & E & -> & _)].
  { split; [reflexivity|]. split; [|now left].
    intros c Hc. vm_compute in Hc.
    repeat (destruct Hc as [<-|Hc]; [reflexivity|]). contradiction. }
  destruct (stat_lines_line _ _ Hin) as (l & Hl & ->).
  destruct (splitlines_line _ _ Hl) as [(a & b & Es) Hline].
  assert (Hp : exists a b, l = a ++ strip src ++ b).
  { destruct (strip_piece l) as (p1 & q1 & E1).
    apply (piece_trans _ _ _ _ _ E1).
    apply (piece_trans _ _ _ _ _ E). destruct (strip_piece src) as (x & y & Ex).
    now exists x, y. }
  split; [apply strip_idem|]. split.
  - intros c Hc. apply Hline. destruct Hp as (x & y & Ep).
    now apply (piece_In _ _ _ _ _ Ep).
  - right. now apply (piece_trans _ _ _ _ _ Es).
Qed.

(** Without [" - "] in the stats text the extracted name has at most 60
    characters. *)
Theorem player_name_length (stats_text : str) :
  ~ occurs (lit " - ") stats_text ->
  len (extract_player_name stats_text) <= 60.
Proof.
  intros Hno.
  destruct (extract_player_name_origin stats_text)
    as [->|(ln & src & p & q & Hin & E & -> & [Hlen|Hocc])].
  - vm_compute. discriminate.
  - pose proof (len_strip src). lia.
  - contradiction Hno.
    destruct (stat_lines_line _ _ Hin) as (l & Hl & ->).
    destruct (splitlines_line _ _ Hl) as [(a & b & Es) _].
    apply (occurs_piece _ _ _ _ _ Es).
    destruct (strip_piece l) as (p1 & q1 & E1).
    now apply (occurs_piece _ _ _ _ _ E1).
Qed.

Lemma player_name_length_witness :
  len (extract_player_name (lit "Jane Doe, Forward, 82 GP")) <= 60.
Proof.
  apply player_name_length. apply find_none. reflexivity.
Defined.

End PlayerNameProps.

Section LabelledName.

Lemma splitlines_aux_first (line rest : str) :
  (forall c, In c line -> is_linebreak c = false) ->
  forall cur,
    splitlines_aux cur (line ++ chr 10 :: rest)
    = (rev cur ++ line) :: splitlines rest.
Proof.
  induction line as [|c line IH]; intros Hline cur.
  - cbn [app splitlines_aux]. rewrite app_nil_r.
    change (is_linebreak (chr 10)) with true. cbv iota.
    change (code (chr 10) =? 13) with false. cbn [andb].
    destruct rest; reflexivity.
  - cbn [app splitlines_aux]. rewrite (Hline c) by now left.
    rewrite IH by (intros d Hd; apply Hline; now right).
    cbn [rev]. now rewrite <- app_assoc.
Qed.

Lemma lower_letter (c : ascii) :
  (97 <=? code (lower c)) && (code (lower c) <=? 122) = true ->
  isspace c = false /\ is_linebreak c = false /\ is_sep c = false.
Proof.
  destruct c as [b0 b1 b2 b3 b4 b5 b6 b7].
  destruct b0, b1, b2, b3, b4, b5, b6, b7; vm_compute;
    intros H; try discriminate H; repeat split.
Qed.

Lemma label_letters (label : str) :
  map lower label = lit "name" \/ map lower label = lit "player" ->
  forall c, In c label ->
    isspace c = false /\ is_linebreak c = false /\ is_sep c = false.
Proof.
  intros Hl c Hc. apply lower_letter.
  apply (in_map lower) in Hc. remember (lower c) as k eqn:Ek. clear Ek.
  destruct Hl as [Hl|Hl]; rewrite Hl in Hc;
    cbn [lit list_ascii_of_string In] in Hc;
    repeat (destruct Hc as [<-|Hc]; [reflexivity|]); contradiction.
Qed.

Lemma match_keyword_label (label name : str) :
  (forall c r, name = c :: r -> is_sep c = false) ->
  2 <= len name <= 60 ->
  (forall c, In c name -> is_linebreak c = false) ->
  match_keyword (map lower label) (label ++ lit ": " ++ name) = Some name.
Proof.
  intros Hhead Hlen Hline. unfold match_keyword.
  rewrite after_keyword_app.
  destruct name as [|c r]; [unfold len in Hlen; simpl in Hlen; lia|].
  assert (Hrun : sep_run (lit ": " ++ c :: r) = 2%nat).
  { cbn [lit list_ascii_of_string app sep_run].
    change (is_sep ":") with true. change (is_sep " ") with true.
    now rewrite (Hhead c r eq_refl). }
  rewrite Hrun, match_seps_succ.
  change (skipn 2 (lit ": " ++ c :: r)) with (c :: r).
  assert (Hg : match_group (c :: r) = Some (c :: r)).
  { apply match_group_some. split; [|split; [assumption|now left]].
    apply Forall_forall. intros d Hd E. apply Hline in Hd.
    unfold is_linebreak in Hd. rewrite E in Hd. discriminate Hd. }
  now rewrite Hg.
Qed.

Lemma name_search_label (label name : str) :
  map lower label = lit "name" \/ map lower label = lit "player" ->
  (forall c r, name = c :: r -> is_sep c = false) ->
  2 <= len name <= 60 ->
  (forall c, In c name -> is_linebreak c = false) ->
  name_search (label ++ lit ": " ++ name) = Some name.
Proof.
  intros [Hl|Hl] Hhead Hlen Hline; unfold name_search.
  - rewrite <- Hl, match_keyword_label by assumption. reflexivity.
  - assert (Hn : match_keyword (lit "name") (label ++ lit ": " ++ name)
                 = None).
    { destruct label as [|c label]; [discriminate Hl|].
      injection Hl as Hc _. unfold match_keyword.
      cbn [lit list_ascii_of_string app after_keyword]. rewrite Hc.
      reflexivity. }
    rewrite Hn, <- Hl. now apply match_keyword_label.
Qed.

(** A stats block whose first line is a label, a colon, a blank and a name
    gives that name back, whatever follows, when the name has 2 to 60
    characters, starts with no separator and ends with no blank. *)
Theorem labelled_name_round_trip (label name rest : str) :
  map lower label = lit "name" \/ map lower label = lit "player" ->
  2 <= len name <= 60 ->
  (forall c, In c name -> is_linebreak c = false) ->
  (forall c r, name = c :: r -> is_sep c = false) ->
  (forall r c, name = r ++ [c] -> isspace c = false) ->
  extract_player_name (label ++ lit ": " ++ name ++ chr 10 :: rest) = name.
Proof.
  intros Hl Hlen Hline Hhead Hlast.
  pose proof (label_letters label Hl) as Hlab.
  set (line := label ++ lit ": " ++ name).
  assert (Hvis : visible_ends line).
  { split.
    - destruct label as [|c label];
        [destruct Hl as [Hl|Hl]; discriminate Hl|].
      exists c, (label ++ lit ": " ++ name). split; [reflexivity|].
      apply Hlab. now left.
    - destruct (exists_last (l := name)) as (r & c & E).
      { intros ->. unfold len in Hlen. simpl in Hlen. lia. }
      exists (label ++ lit ": " ++ r), c. split.
      + unfold line. rewrite E, <- !app_assoc. reflexivity.
      + now apply (Hlast r c). }
  assert (Hbreak : forall c, In c line -> is_linebreak c = false).
  { intros c Hc. unfold line in Hc. apply in_app_or in Hc.
    destruct Hc as [Hc|Hc]; [now apply Hlab|].
    apply in_app_or in Hc. destruct Hc as [Hc|Hc]; [|now apply Hline].
    vm_compute in Hc. destruct Hc as [<-|[<-|[]]]; reflexivity. }
  assert (Hlines : stat_lines (label ++ lit ": " ++ name ++ chr 10 :: rest)
                   = line :: stat_lines rest).
  { unfold stat_lines, splitlines.
    replace (label ++ lit ": " ++ name ++ chr 10 :: rest)
      with (line ++ chr 10 :: rest)
      by (unfold line; now rewrite <- !app_assoc).
    rewrite splitlines_aux_first by assumption.
    pose proof (strip_visible line Hvis) as Hs.
    assert (Hne : nonempty line = true)
      by (destruct Hvis as [(c & r & E & _) _]; now rewrite E).
    cbn [rev app filter]. rewrite Hs, Hne. cbn [map]. now rewrite Hs. }
  rewrite extract_player_name_unfold, Hlines.
  cbn [firstn first_match]. unfold line at 1.
  rewrite (name_search_label label name Hl Hhead Hlen Hline).
  apply strip_visible. split.
  - destruct name as [|c r]; [unfold len in Hlen; simpl in Hlen; lia|].
    exists c, r. split; [reflexivity|].
    pose proof (Hhead c r eq_refl) as Hs. unfold is_sep in Hs.
    apply orb_false_iff in Hs. destruct Hs as [Hs _].
    apply orb_false_iff in Hs. apply Hs.
  - destruct (exists_last (l := name)) as (r & c & E).
    { intros ->. unfold len in Hlen. simpl in Hlen. lia. }
    exists r, c. split; [assumption|now apply (Hlast r c)].
Qed.

End LabelledName.

Section LabelledNameExample.

Lemma labelled_name_round_trip_witness :
  extract_player_name
    (lit "Name" ++ lit ": " ++ lit "Jane Doe" ++ chr 10 :: lit "GP: 10")
  = lit "Jane Doe".
Proof.
  apply labelled_name_round_trip.
  - now left.
  - vm_compute. split; discriminate.
  - intros c Hc. cbn [lit list_ascii_of_string In] in Hc.
    repeat (destruct Hc as [<-|Hc]; [reflexivity|]). contradiction.
  - intros c r E. injection E as <- _. reflexivity.
  - intros r c E.
    change (lit "Jane Doe") with (lit "Jane Do" ++ ["e"%char]) in E.
    apply app_inj_tail in E. destruct E as [_ <-]. reflexivity.
Defined.

End LabelledNameExample.

(** ** The teams *)

Section Teams.

Lemma find_arrow (a b : str) :
  contains (lit "->") a = false ->
  find (lit "->") (a ++ lit " -> " ++ b) = Some (S (List.length a)).
Proof.
  induction a as [|c a IH]; intros Ha; [reflexivity|].
  unfold contains in Ha. rewrite find_unfold in Ha.
  destruct (startswith (lit "->") (c :: a)) eqn:Hs; [discriminate Ha|].
  assert (Ha' : contains (lit "->") a = false).
  { unfold contains. destruct (find (lit "->") a); [discriminate Ha|].
    reflexivity. }
  rewrite <- app_comm_cons, find_unfold.
  assert (Hs' : startswith (lit "->") (c :: a ++ lit " -> " ++ b) = false).
  { cbn [lit list_ascii_of_string startswith] in Hs |- *.
    destruct (Ascii.eqb "-" c); [|reflexivity]. cbn [andb] in Hs |- *.
    destruct a as [|d a]; [reflexivity|]. exact Hs. }
  rewrite Hs', (IH Ha'). reflexivity.
Qed.

Lemma strip_blank_right (a : str) :
  visible_ends a -> strip (a ++ lit " ") = a.
Proof.
  intros [(c & r & E & Hc) (r' & c' & E' & Hc')].
  unfold strip.
  assert (Hl : lstrip (a ++ lit " ") = a ++ lit " ").
  { rewrite E. cbn [app lstrip]. now rewrite Hc. }
  rewrite Hl. unfold rstrip. rewrite rev_app_distr.
  cbn [lit list_ascii_of_string rev app lstrip].
  change (isspace " ") with true. cbv iota.
  rewrite E' at 1. rewrite rev_app_distr. cbn [rev app lstrip].
  rewrite Hc'. change (c' :: rev r') with (rev [c'] ++ rev r').
  rewrite <- rev_app_distr, rev_involutive. now symmetry.
Qed.

Lemma strip_blank_left (b : str) : strip (lit " " ++ b) = strip b.
Proof. reflexivity. Qed.

Lemma visible_ends_app (a m b : str) :
  visible_ends a -> visible_ends b -> visible_ends (a ++ m ++ b).
Proof.
  intros [(c & r & -> & Hc) _] [_ (r' & c' & -> & Hc')]. split.
  - exists c, (r ++ m ++ r' ++ [c']). split; [reflexivity|assumption].
  - exists ((c :: r) ++ m ++ r'), c'. split; [|assumption].
    now rewrite <- !app_assoc.
Qed.

Lemma split_teams_arrow (a b : str) :
  visible_ends a -> visible_ends b ->
  contains (lit "->") a = false ->
  split_teams (strip (a ++ lit " -> " ++ b)) = Done (a, b).
Proof.
  intros Ha Hb Hno.
  rewrite (strip_visible _ (visible_ends_app a (lit " -> ") b Ha Hb)).
  pose proof (find_arrow a b Hno) as Hf.
  unfold split_teams, contains. rewrite Hf.
  rewrite (split_once _ _ _ Hf).
  replace (firstn (S (List.length a)) (a ++ lit " -> " ++ b))
    with (a ++ lit " ").
  2:{ replace (S (List.length a)) with (List.length a + 1)%nat by lia.
      rewrite firstn_app_2. reflexivity. }
  replace (skipn (S (List.length a) + List.length (lit "->"))
             (a ++ lit " -> " ++ b)) with (lit " " ++ b).
  2:{ replace (S (List.length a) + List.length (lit "->"))%nat
        with (List.length a + 3)%nat by (simpl; lia).
      rewrite skipn_app, skipn_all2 by lia.
      replace (List.length a + 3 - List.length a)%nat with 3%nat by lia.
      reflexivity. }
  cbn [map unpack2].
  rewrite (strip_blank_right a Ha), strip_blank_left, (strip_visible b Hb).
  reflexivity.
Qed.

(** Two trimmed, non-empty names joined by [" -> "] are split back into
    themselves, when the first holds no ["->"]. *)
Theorem team_split_round_trip (a b : str) :
  visible_ends a -> visible_ends b -> ~ occurs (lit "->") a ->
  split_teams (strip (a ++ lit " -> " ++ b)) = Done (a, b).
Proof.
  intros Ha Hb Hno. apply split_teams_arrow; try assumption.
  now apply contains_false.
Qed.

Lemma team_split_round_trip_witness :
  split_teams (strip (lit "Rangers" ++ lit " -> " ++ lit "Devils"))
  = Done (lit "Rangers", lit "Devils").
Proof.
  apply team_split_round_trip.
  - split; [eexists _, _; split; reflexivity|].
    exists (lit "Ranger"), "s"%char. split; reflexivity.
  - split; [eexists _, _; split; reflexivity|].
    exists (lit "Devil"), "s"%char. split; reflexivity.
  - apply find_none. reflexivity.
Defined.

(** [split_teams] answers two trimmed names, each a piece of the text
    unless it is the default ["Unknown"], and never raises. *)
Lemma split_teams_pieces (raw : str) :
  exists a b,
    split_teams (strip raw) = Done (a, b)
    /\ strip a = a /\ strip b = b
    /\ (exists p q, raw = p ++ a ++ q)
    /\ (b = lit "Unknown" \/ exists p q, raw = p ++ b ++ q).
Proof.
  destruct (strip_piece raw) as (p0 & q0 & E0).
  assert (Hsep : forall sep,
             contains sep (strip raw) = true ->
             exists a b,
               unpack2 (map strip (split sep (Some 1%nat) (strip raw)))
               = Done (a, b)
               /\ strip a = a /\ strip b = b
               /\ (exists p q, raw = p ++ a ++ q)
               /\ (b = lit "Unknown" \/ exists p q, raw = p ++ b ++ q)).
  { intros sep H. destruct (unpack2_split _ _ H) as (a & b & [E _] & ->).
    exists (strip a), (strip b). split; [reflexivity|].
    split; [apply strip_idem|]. split; [apply strip_idem|]. split.
    - apply (piece_trans _ _ _ _ _ E0).
      apply (piece_trans _ [] a (sep ++ b) _ E). apply strip_piece.
    - right. apply (piece_trans _ _ _ _ _ E0).
      apply (piece_trans _ (a ++ sep) b [] _).
      + now rewrite app_nil_r, <- app_assoc.
      + apply strip_piece. }
  unfold split_teams.
  destruct (contains (lit "->") (strip raw)) eqn:H1; [now apply Hsep|].
  destruct (contains (lit "/") (strip raw)) eqn:H2; [now apply Hsep|].
  destruct (contains (lit ",") (strip raw)) eqn:H3; [now apply Hsep|].
  exists (strip raw), (lit "Unknown"). split; [reflexivity|].
  split; [apply strip_idem|]. split; [reflexivity|].
  split; [now exists p0, q0|now left].
Qed.

End Teams.

(** ** The handler *)

Section Handler.

(** The handler, with the unpacking of the teams done. *)
Lemma on_submit_unfold (self : RetentionModal) (now : Z) :
  exists tf tt,
    split_teams (strip (teams self)) = Done (tf, tt)
    /\ on_submit self now =
       match parse_salary_to_int (strip (player_salary self)) with
       | None => Rejected (SalaryNotice (strip (player_salary self)))
       | Some sv =>
           match parse_years (years_retained self) with
           | None => Rejected YearsNotice
           | Some ys =>
               let raw :=
                 keep digit_dot_or_minus (strip (retention_amount self)) in
               if str_eqb raw [] then Rejected RetentionNotice
               else
                 match compute_retention (retention_type self) sv raw with
                 | Rejected n => Rejected n
                 | Raised => Raised
                 | Done k =>
                     Done {| t_from := tf;
                             t_to := tt;
                             player_name :=
                               extract_player_name
                                 (strip (player_stats self));
                             salary_val := sv;
                             years := ys;
                             kept := k;
                             expire_year := now + ys;
                             ratio_denominator :=
                               (if ys >? 0 then ys else 1);
                             stats_preview :=
                               preview (strip (player_stats self));
                             footer :=
                               lit "Retention type: "
                               ++ (if str_eqb (retention_type self)
                                        (lit "percent")
                                   then lit "Percent"
                                   else lit "Numeric") |}
                 end
           end
       end.
Proof.
  destruct (split_teams_done (strip (teams self))) as [[tf tt] Ht].
  exists tf, tt. split; [assumption|]. unfold on_submit. rewrite Ht.
  cbn [bind]. destruct (parse_salary_to_int _); [|reflexivity].
  cbn [or_reject bind]. destruct (parse_years _); [|reflexivity].
  cbn [or_reject bind]. destruct (str_eqb _ []); [reflexivity|].
  destruct (compute_retention _ _ _); reflexivity.
Qed.

(** The two team names of the embed are trimmed, and each is a piece of the
    teams field unless it is the default. *)
Theorem team_names_trimmed (self : RetentionModal) (now : Z) (e : embed) :
  on_submit self now = Done e ->
  strip (t_from e) = t_from e /\ strip (t_to e) = t_to e
  /\ (exists p q, teams self = p ++ t_from e ++ q)
  /\ (t_to e = lit "Unknown" \/ exists p q, teams self = p ++ t_to e ++ q).
Proof.
  intros He. apply on_submit_done in He. destruct He as (Ht & _).
  destruct (split_teams_pieces (teams self)) as (a & b & Hs & H).
  rewrite Hs in Ht. injection Ht as <- <-. exact H.
Qed.

Lemma team_names_trimmed_witness :
  exists e,
    on_submit scenario_percent 2026 = Done e
    /\ strip (t_from e) = t_from e /\ strip (t_to e) = t_to e.
Proof.
  destruct (on_submit scenario_percent 2026) as [| |e] eqn:He;
    [vm_compute in He; discriminate He..|].
  exists e. split; [reflexivity|].
  destruct (team_names_trimmed scenario_percent 2026 e He) as (H1 & H2 & _).
  split; [exact H1|exact H2].
Defined.

(** The preview never has more than 1000 characters, keeps the first 997
    of the text, and previewing it again changes nothing; wrapped in its
    code fence it has at most 1006. *)
Theorem preview_bounded (stats_text : str) :
  len (preview stats_text) = Z.min (len stats_text) 1000
  /\ firstn 997 (preview stats_text) = firstn 997 stats_text
  /\ preview (preview stats_text) = preview stats_text
  /\ len (stats_field (preview stats_text)) <= 1006.
Proof.
  assert (H : len (preview stats_text) = Z.min (len stats_text) 1000
              /\ firstn 997 (preview stats_text) = firstn 997 stats_text).
  { destruct (Z.le_gt_cases (len stats_text) 1000) as [Hs|Hl].
    - rewrite preview_short by assumption. split; [lia|reflexivity].
    - destruct (preview_long stats_text) as (E & Hlen & _); [lia|].
      split; [lia|]. rewrite E.
      assert (Hn : List.length (firstn 997 stats_text) = 997%nat)
        by (rewrite length_firstn; unfold len in Hl; lia).
      rewrite <- Hn at 1. rewrite firstn_app, firstn_all, Nat.sub_diag.
      cbn [firstn]. apply app_nil_r. }
  destruct H as [Hlen Hfirst]. split; [assumption|]. split; [assumption|].
  split; [apply preview_short; lia|].
  unfold stats_field. rewrite !len_app, Hlen.
  change (len (lit "```")) with 3. lia.
Qed.

(** The years of an accepted submission: the denominator shown is the
    number of years, raised to 1 at least; the expiry year is not before
    the clock's year; and a years text without digit or minus sign counts
    as 0 years. *)
Theorem years_edges (self : RetentionModal) (now : Z) (e : embed) :
  on_submit self now = Done e ->
  ratio_denominator e = Z.max 1 (years e)
  /\ now <= expire_year e
  /\ (keep digit_or_minus (years_retained self) = [] ->
      years e = 0 /\ expire_year e = now /\ ratio_denominator e = 1).
Proof.
  intros He.
  destruct (on_submit_unfold self now) as (tf & tt & _ & Hu).
  rewrite Hu in He. clear Hu.
  destruct (parse_salary_to_int _) as [sv|]; [|discriminate He].
  destruct (parse_years (years_retained self)) as [ys|] eqn:Hy;
    [|discriminate He].
  cbv zeta in He. destruct (str_eqb _ []); [discriminate He|].
  destruct (compute_retention _ _ _) as [| |k]; try discriminate He.
  injection He as <-. cbn [ratio_denominator years expire_year].
  pose proof (parse_years_some _ _ Hy) as Hnn.
  assert (Hd : (if ys >? 0 then ys else 1) = Z.max 1 ys)
    by (destruct (Z.gtb_spec ys 0); lia).
  split; [assumption|]. split; [lia|]. intros Hk.
  assert (ys = 0); [|subst ys; repeat split; lia].
  unfold parse_years in Hy.
  rewrite (keep_strip digit_or_minus _ digit_or_minus_not_space), Hk in Hy.
  cbn in Hy. now injection Hy as <-.
Qed.

Lemma years_edges_witness :
  exists e,
    on_submit wordy_years_modal 2026 = Done e
    /\ years e = 0 /\ expire_year e = 2026 /\ ratio_denominator e = 1.
Proof.
  destruct (on_submit wordy_years_modal 2026) as [| |e] eqn:He;
    [vm_compute in He; discriminate He..|].
  exists e. split; [reflexivity|].
  destruct (years_edges wordy_years_modal 2026 e He) as (_ & _ & H).
  apply H. reflexivity.
Defined.

End Handler.

(** ** Currency *)

Section Currency.

Lemma group3_keep (n : nat) :
  forall rs : str,
    (List.length rs <= n)%nat -> all_digits rs = true ->
    keep digit_or_minus (group3 rs) = rs.
Proof.
  assert (Hk : forall rs, all_digits rs = true -> keep digit_or_minus rs = rs).
  { intros rs H. unfold keep. apply forallb_filter_id.
    apply forallb_forall. intros c Hc. unfold digit_or_minus.
    unfold all_digits in H. rewrite forallb_forall in H.
    now rewrite (H c Hc). }
  induction n as [|n IH]; intros rs Hn Hd.
  - destruct rs; [reflexivity|simpl in Hn; lia].
  - destruct rs as [|a [|b [|c [|d rest]]]]; try (now apply Hk).
    change (group3 (a :: b :: c :: d :: rest))
      with (a :: b :: c :: chr 44 :: group3 (d :: rest)).
    cbn [all_digits forallb] in Hd.
    apply andb_true_iff in Hd. destruct Hd as [Ha Hd].
    apply andb_true_iff in Hd. destruct Hd as [Hb Hd].
    apply andb_true_iff in Hd. destruct Hd as [Hc Hd].
    assert (Hcons : forall x s, is_digit x = true ->
              keep digit_or_minus (x :: s) = x :: keep digit_or_minus s).
    { intros x s Hx. unfold keep. cbn [filter]. unfold digit_or_minus at 1.
      now rewrite Hx. }
    rewrite !Hcons by assumption.
    change (keep digit_or_minus (chr 44 :: group3 (d :: rest)))
      with (keep digit_or_minus (group3 (d :: rest))).
    rewrite IH; [reflexivity|cbn [List.length] in Hn |- *; lia|exact Hd].
Qed.

Lemma all_digits_rev (ds : str) : all_digits (rev ds) = all_digits ds.
Proof.
  unfold all_digits. induction ds as [|c ds IH]; [reflexivity|].
  cbn [rev forallb]. rewrite forallb_app, IH. cbn [forallb].
  rewrite andb_true_r. apply andb_comm.
Qed.

(** What the cleaning regex keeps of a formatted amount: its sign and its
    digits. *)
Lemma keep_format_currency (n : Z) :
  keep digit_or_minus (format_currency n)
  = (if n <? 0 then [minus] else []) ++ str_of_nonneg (Z.abs n).
Proof.
  unfold format_currency, keep. rewrite filter_app. f_equal.
  - destruct (n <? 0); reflexivity.
  - fold (keep digit_or_minus (rev (group3 (rev (str_of_nonneg (Z.abs n)))))).
    rewrite keep_rev.
    destruct (str_of_nonneg_digits (Z.abs n) (Z.abs_nonneg n)) as [_ Hd].
    rewrite (group3_keep _ _ (le_n _)) by now rewrite all_digits_rev.
    apply rev_involutive.
Qed.

Lemma int_of_str_signed (n : Z) :
  int_of_str ((if n <? 0 then [minus] else []) ++ str_of_nonneg (Z.abs n))
  = Some n.
Proof.
  destruct (str_of_nonneg_digits (Z.abs n) (Z.abs_nonneg n)) as [Hne Hd].
  pose proof (str_of_nonneg_val (Z.abs n) (Z.abs_nonneg n)) as Hv.
  destruct (Z.ltb_spec n 0) as [Hneg|Hpos]; cbn [app].
  - unfold int_of_str. change (Ascii.eqb minus minus) with true. cbv iota.
    destruct (str_of_nonneg (Z.abs n)) as [|c ds]; [contradiction|].
    rewrite Hd, Hv. f_equal. lia.
  - unfold int_of_str.
    destruct (str_of_nonneg (Z.abs n)) as [|c ds] eqn:E; [contradiction|].
    assert (Hc : Ascii.eqb c minus = false).
    { destruct (Ascii.eqb_spec c minus) as [->|]; [|reflexivity].
      cbn [all_digits forallb] in Hd. rewrite minus_not_digit in Hd.
      discriminate Hd. }
    rewrite Hc, Hd, Hv. f_equal. lia.
Qed.

Lemma parse_salary_to_int_kept (s : str) (n : Z) :
  s <> [] ->
  keep digit_or_minus s
  = (if n <? 0 then [minus] else []) ++ str_of_nonneg (Z.abs n) ->
  parse_salary_to_int s = Some n.
Proof.
  intros Hs Hk. unfold parse_salary_to_int.
  destruct s as [|c0 s0]; [contradiction|]. cbv zeta. rewrite Hk.
  destruct (str_of_nonneg_digits (Z.abs n) (Z.abs_nonneg n)) as [Hne Hd].
  assert (H0 : str_eqb ((if n <? 0 then [minus] else [])
                        ++ str_of_nonneg (Z.abs n)) [] = false).
  { apply str_eqb_neq. destruct (n <? 0); [discriminate|assumption]. }
  assert (H1 : str_eqb ((if n <? 0 then [minus] else [])
                        ++ str_of_nonneg (Z.abs n)) (lit "-") = false).
  { apply str_eqb_neq. destruct (n <? 0); cbn [app].
    - intros E. injection E as E. now apply Hne.
    - intros E. rewrite E in Hd. discriminate Hd. }
  assert (H2 : str_eqb ((if n <? 0 then [minus] else [])
                        ++ str_of_nonneg (Z.abs n)) (lit "--") = false).
  { apply str_eqb_neq. destruct (n <? 0); cbn [app].
    - intros E. injection E as E. rewrite E in Hd. discriminate Hd.
    - intros E. rewrite E in Hd. discriminate Hd. }
  rewrite H0, H1, H2. cbn [orb]. apply int_of_str_signed.
Qed.

(** An amount of at most 4300 digits, which is what the interpreter writes
    and reads, written by [format_currency], with or without the dollar sign
    the embed puts before it, is read back by [parse_salary_to_int]. *)
Theorem currency_round_trip (n : Z) :
  Z.abs n < 10 ^ 4300 ->
  parse_salary_to_int (format_currency n) = Some n
  /\ parse_salary_to_int (lit "$" ++ format_currency n) = Some n.
Proof.
  intros _. split.
  - apply parse_salary_to_int_kept; [|apply keep_format_currency].
    unfold format_currency.
    destruct (str_of_nonneg_digits (Z.abs n) (Z.abs_nonneg n)) as [Hne _].
    intros E. apply app_eq_nil in E. destruct E as [_ E].
    apply (f_equal (@rev ascii)) in E. rewrite rev_involutive in E.
    cbn [rev] in E.
    destruct (rev (str_of_nonneg (Z.abs n))) as [|a [|b [|c [|d r]]]] eqn:Er;
      try discriminate E.
    apply (f_equal (@rev ascii)) in Er. rewrite rev_involutive in Er.
    now apply Hne.
  - apply parse_salary_to_int_kept; [discriminate|].
    unfold keep. rewrite filter_app. apply keep_format_currency.
Qed.

Lemma currency_round_trip_witness :
  parse_salary_to_int (format_currency (-12000000)) = Some (-12000000)
  /\ parse_salary_to_int (lit "$" ++ format_currency (-12000000))
     = Some (-12000000).
Proof.
  apply currency_round_trip. vm_compute. reflexivity.
Defined.

End Currency.

(** ** The retention text *)

Section RetentionText.

Lemma span_digits_spec (s ds r : str) :
  span_digits s = (ds, r) ->
  s = ds ++ r /\ all_digits ds = true
  /\ (forall c r', r = c :: r' -> is_digit c = false).
Proof.
  revert ds r. induction s as [|c s IH]; intros ds r H.
  - injection H as <- <-. repeat split. discriminate.
  - cbn [span_digits] in H. destruct (is_digit c) eqn:Hc.
    + destruct (span_digits s) as [ds0 r0]. injection H as <- <-.
      destruct (IH ds0 r0 eq_refl) as (E & Hd & Hr). split; [now rewrite E|].
      split; [|assumption]. cbn [all_digits forallb]. now rewrite Hc.
    + injection H as <- <-. repeat split.
      intros d r' E. now injection E as <- _.
Qed.

Lemma span_digits_app (ip frac : str) :
  all_digits ip = true ->
  (forall c r', frac = c :: r' -> is_digit c = false) ->
  span_digits (ip ++ frac) = (ip, frac).
Proof.
  intros Hd Hf. induction ip as [|c ip IH].
  - destruct frac as [|d r]; [reflexivity|]. cbn [app span_digits].
    now rewrite (Hf d r eq_refl).
  - cbn [all_digits forallb] in Hd. apply andb_true_iff in Hd.
    destruct Hd as [Hc Hd]. cbn [app span_digits].
    now rewrite Hc, (IH Hd).
Qed.

Lemma dot_not_digit : is_digit dot = false.
Proof. reflexivity. Qed.

(** The body of a literal, after the sign. *)
Lemma float_body (neg : bool) (body : str) :
  (let '(ip, rest) := span_digits body in
   match rest with
   | [] => if nonempty ip then Some (of_ratio neg (digits_val ip) 1)
           else None
   | c :: fp =>
       if Ascii.eqb c dot && all_digits fp && (nonempty ip || nonempty fp)
       then Some (of_ratio neg (digits_val (ip ++ fp)) (10 ^ len fp))
       else None
   end) <> None
  <-> exists ip frac,
        body = ip ++ frac /\ all_digits ip = true
        /\ ((frac = [] /\ ip <> [])
            \/ exists fp, frac = dot :: fp /\ all_digits fp = true
                          /\ (ip <> [] \/ fp <> [])).
Proof.
  split.
  - destruct (span_digits body) as [ip rest] eqn:Es.
    destruct (span_digits_spec _ _ _ Es) as (E & Hd & _).
    intros H. exists ip, rest. split; [assumption|]. split; [assumption|].
    destruct rest as [|c fp].
    + left. split; [reflexivity|]. apply nonempty_true.
      destruct (nonempty ip); [reflexivity|now contradiction H].
    + right. exists fp.
      destruct (Ascii.eqb c dot && all_digits fp
                && (nonempty ip || nonempty fp)) eqn:Hc;
        [|now contradiction H].
      apply andb_true_iff in Hc. destruct Hc as [Hc Hn].
      apply andb_true_iff in Hc. destruct Hc as [Hc Hf].
      apply Ascii.eqb_eq in Hc. subst c. split; [reflexivity|].
      split; [assumption|]. apply orb_true_iff in Hn.
      destruct Hn as [Hn|Hn]; apply nonempty_true in Hn; auto.
  - intros (ip & frac & -> & Hd & Hf).
    assert (Hs : span_digits (ip ++ frac) = (ip, frac)).
    { apply span_digits_app; [assumption|].
      destruct Hf as [[-> _]|(fp & -> & _)]; [discriminate|].
      intros c r' E. injection E as <- _. apply dot_not_digit. }
    rewrite Hs. destruct Hf as [[-> Hne]|(fp & -> & Hfp & Hne)].
    + apply nonempty_true in Hne. rewrite Hne. discriminate.
    + change (Ascii.eqb dot dot) with true. rewrite Hfp. cbn [andb].
      assert (Hn : nonempty ip || nonempty fp = true).
      { apply orb_true_iff.
        destruct Hne as [H|H]; apply nonempty_true in H; auto. }
      rewrite Hn. discriminate.
Qed.

(** [float] accepts exactly the decimal literals. *)
Lemma float_of_str_literal (s : str) :
  float_of_str s <> None <-> float_literal s.
Proof.
  unfold float_of_str, float_literal.
  destruct s as [|c r].
  - split; [intros H; now contradiction H|].
    intros (sign & ip & frac & E & _ & _ & Hf). symmetry in E.
    apply app_eq_nil in E. destruct E as [_ E].
    apply app_eq_nil in E. destruct E as [-> ->].
    destruct Hf as [[_ H]|(fp & H & _)]; [now contradiction H|discriminate].
  - destruct (Ascii.eqb_spec c minus) as [->|Hc].
    + rewrite float_body. split.
      * intros (ip & frac & -> & H). exists [minus], ip, frac.
        split; [reflexivity|]. split; [now right|exact H].
      * intros (sign & ip & frac & E & [-> | ->] & Hd & Hf).
        -- exfalso. cbn [app] in E. destruct ip as [|d ip].
           ++ destruct Hf as [[_ H]|(fp & -> & _)]; [now contradiction H|].
              discriminate E.
           ++ injection E as <- _. cbn [all_digits forallb] in Hd.
              rewrite minus_not_digit in Hd. discriminate Hd.
        -- injection E as ->. now exists ip, frac.
    + rewrite float_body. split.
      * intros (ip & frac & E & H). exists [], ip, frac.
        split; [exact E|]. split; [now left|exact H].
      * intros (sign & ip & frac & E & [-> | ->] & H).
        -- now exists ip, frac.
        -- injection E as E _. now contradiction Hc.
Qed.

Lemma float_of_str_none (s : str) :
  float_of_str s = None <-> ~ float_literal s.
Proof.
  rewrite <- float_of_str_literal.
  destruct (float_of_str s) as [f|].
  - split; [discriminate|]. intros H. contradiction H. discriminate.
  - split; [|reflexivity]. intros _ H. now contradiction H.
Qed.

Lemma float_literal_digit (s : str) :
  float_literal s -> exists c, In c s /\ is_digit c = true.
Proof.
  intros (sign & ip & frac & -> & _ & Hd & Hf).
  assert (Hin : forall ds, all_digits ds = true -> ds <> [] ->
                  exists c, In c ds /\ is_digit c = true).
  { intros [|c ds] H Hne; [contradiction|]. exists c. split; [now left|].
    cbn [all_digits forallb] in H. now apply andb_true_iff in H. }
  destruct Hf as [[-> Hne]|(fp & -> & Hfp & [Hne|Hne])].
  - destruct (Hin ip Hd Hne) as (c & Hc & Hdc). exists c.
    split; [|assumption]. apply in_or_app. right. apply in_or_app. now left.
  - destruct (Hin ip Hd Hne) as (c & Hc & Hdc). exists c.
    split; [|assumption]. apply in_or_app. right. apply in_or_app. now left.
  - destruct (Hin fp Hfp Hne) as (c & Hc & Hdc). exists c.
    split; [|assumption]. apply in_or_app. right. apply in_or_app. right.
    now right.
Qed.

Lemma digit_dot_or_minus_not_space (c : ascii) :
  digit_dot_or_minus c = true -> isspace c = false.
Proof.
  unfold digit_dot_or_minus. intros H. apply orb_true_iff in H.
  destruct H as [H|H]; [|now apply minus_not_space].
  apply orb_true_iff in H. destruct H as [H|H]; [now apply digit_not_space|].
  apply Ascii.eqb_eq in H. now subst c.
Qed.

Lemma retention_percent_rejected (s : Z) (raw : str) (n : notice) :
  retention_percent s raw = Rejected n <->
  n = PercentNotice /\ float_of_str raw = None.
Proof.
  unfold retention_percent. destruct (float_of_str raw) as [p|].
  - cbn [or_reject bind]. destruct (of_int s); cbn [or_raise bind].
    + destruct (floor _); cbn [or_raise bind]; split;
        try discriminate; intros [_ H]; discriminate H.
    + split; [discriminate|]. intros [_ H]; discriminate H.
  - cbn [or_reject bind]. split.
    + intros H. injection H as <-. now split.
    + intros [-> _]. reflexivity.
Qed.

(** The checks on the retention text, once the salary and the years are
    accepted: an empty cleaned text gets the retention notice; in percent
    mode the percent notice is given exactly to the cleaned texts that are
    not a decimal literal; in numeric mode such texts get the numeric
    notice. *)
Theorem retention_text_checks (self : RetentionModal) (now sv ys : Z) :
  parse_salary_to_int (strip (player_salary self)) = Some sv ->
  parse_years (years_retained self) = Some ys ->
  let raw := keep digit_dot_or_minus (retention_amount self) in
  (on_submit self now = Rejected RetentionNotice <-> raw = [])
  /\ (retention_type self = lit "percent" ->
      (on_submit self now = Rejected PercentNotice
       <-> raw <> [] /\ ~ float_literal raw))
  /\ (retention_type self <> lit "percent" ->
      raw <> [] -> ~ float_literal raw ->
      on_submit self now = Rejected NumericNotice).
Proof.
  intros Hs Hy raw.
  destruct (on_submit_unfold self now) as (tf & tt & _ & ->).
  rewrite Hs, Hy. cbv zeta.
  rewrite (keep_strip _ _ digit_dot_or_minus_not_space). fold raw.
  destruct (str_eqb raw []) eqn:Hraw.
  - apply str_eqb_eq in Hraw. split; [now split|]. split.
    + intros _. split; [discriminate|]. intros [H _]. contradiction.
    + intros _ H. contradiction.
  - apply str_eqb_neq in Hraw. split; [|split].
    + split; [|contradiction]. intros H. exfalso.
      destruct (compute_retention _ _ _) eqn:Hc; try discriminate H.
      injection H as ->. apply compute_retention_rejected in Hc.
      destruct Hc; discriminate.
    + intros Ht. unfold compute_retention. rewrite Ht.
      change (str_eqb (lit "percent") (lit "percent")) with true. cbv iota.
      rewrite <- float_of_str_none. split.
      * intros H. split; [assumption|].
        destruct (retention_percent sv raw) eqn:Hc; try discriminate H.
        injection H as ->. now apply retention_percent_rejected in Hc.
      * intros [_ H].
        assert (Hc : retention_percent sv raw = Rejected PercentNotice)
          by now apply retention_percent_rejected.
        now rewrite Hc.
    + intros Ht _ Hl. unfold compute_retention.
      apply str_eqb_neq in Ht. rewrite Ht.
      assert (Hc : retention_number sv raw = Rejected NumericNotice).
      { apply retention_number_rejected. left. now apply float_of_str_none. }
      now rewrite Hc.
Qed.

Lemma retention_text_checks_witness :
  on_submit dotted_retention_modal 2026 = Rejected PercentNotice.
Proof.
  assert (Hs : parse_salary_to_int
                 (strip (player_salary dotted_retention_modal))
               = Some 8000000) by reflexivity.
  assert (Hy : parse_years (years_retained dotted_retention_modal) = Some 2)
    by reflexivity.
  destruct (retention_text_checks dotted_retention_modal 2026 _ _ Hs Hy)
    as (_ & H & _).
  apply H; [reflexivity|]. split; [discriminate|].
  apply float_of_str_none. reflexivity.
Defined.

(** An accepted submission has a digit in its salary text and a digit in
    its retention text. *)
Theorem accepted_texts_have_digits (self : RetentionModal) (now : Z)
    (e : embed) :
  on_submit self now = Done e ->
  (exists c, In c (player_salary self) /\ is_digit c = true)
  /\ (exists c, In c (retention_amount self) /\ is_digit c = true).
Proof.
  intros He. apply on_submit_done in He. cbv zeta in He.
  destruct He as (_ & _ & Hs & _ & _ & Hc & _). split.
  - apply parse_salary_to_int_some in Hs.
    assert (Hl : int_literal (keep digit_or_minus (strip (player_salary self))))
      by (apply int_of_str_literal; congruence).
    destruct Hl as (ds & Hne & Hd & E).
    destruct ds as [|c ds]; [contradiction|]. exists c.
    assert (Hin : In c (keep digit_or_minus (strip (player_salary self))))
      by (destruct E as [-> | ->]; [now left|right; now left]).
    apply filter_In in Hin. split; [apply strip_In, Hin|].
    now inversion Hd.
  - rewrite (keep_strip _ _ digit_dot_or_minus_not_space) in Hc.
    assert (Hl : float_literal
                   (keep digit_dot_or_minus (retention_amount self))).
    { apply float_of_str_literal. unfold compute_retention in Hc.
      destruct (str_eqb _ _).
      - apply retention_percent_done in Hc.
        destruct Hc as (p & _ & Hp & _). congruence.
      - apply retention_number_done in Hc.
        destruct Hc as (f & _ & Hf & _). congruence. }
    destruct (float_literal_digit _ Hl) as (c & Hin & Hd).
    exists c. apply filter_In in Hin. split; [apply Hin|assumption].
Qed.

Lemma accepted_texts_have_digits_witness :
  exists e,
    on_submit scenario_percent 2026 = Done e
    /\ (exists c, In c (lit "$8,000,000") /\ is_digit c = true)
    /\ (exists c, In c (lit "25") /\ is_digit c = true).
Proof.
  destruct (on_submit scenario_percent 2026) as [| |e] eqn:He;
    [vm_compute in He; discriminate He..|].
  exists e. split; [reflexivity|].
  exact (accepted_texts_have_digits scenario_percent 2026 e He).
Defined.

End RetentionText.

(** ** Exceptions *)

Section NeverRaises.

Lemma binary_round_aux_opp (m e : Z) (l : location) :
  binary_round_aux prec emax true m e l
  = SFopp (binary_round_aux prec emax false m e l).
Proof.
  unfold binary_round_aux.
  destruct (shr_fexp prec emax m e l) as [mrs' e'].
  destruct (shr_fexp prec emax _ e' loc_Exact) as [mrs'' e''].
  destruct (shr_m mrs''); [reflexivity| |reflexivity].
  destruct (e'' <=? emax - prec); reflexivity.
Qed.

Lemma of_int_opp (p : positive) :
  of_int (Z.neg p) = option_map SFopp (of_int (Z.pos p)).
Proof.
  unfold of_int, binary_normalize, binary_round.
  destruct (shl_align p 0 _) as [mz ez]. rewrite binary_round_aux_opp.
  destruct (binary_round_aux prec emax false (Z.pos mz) ez loc_Exact);
    reflexivity.
Qed.

Lemma canonical_opp (x : float) : canonical x -> canonical (SFopp x).
Proof. destruct x; auto. Qed.

(** Every integer up to the largest float in size converts to a float. *)
Lemma of_int_total (z : Z) :
  Z.abs z <= max_float ->
  exists sf, of_int z = Some sf /\ canonical sf.
Proof.
  intros Hz. destruct z as [|p|p].
  - exists zero. now split.
  - destruct (of_int_some (Z.pos p)) as (sf & H & Hc & _);
      [unfold max_float in Hz; lia|]. now exists sf.
  - destruct (of_int_some (Z.pos p)) as (sf & H & Hc & _);
      [unfold max_float in Hz; lia|].
    exists (SFopp sf). rewrite of_int_opp, H. split; [reflexivity|].
    now apply canonical_opp.
Qed.

Lemma below_floor (mt et : Z) (x : float) :
  below mt et x -> exists v, floor x = Some v.
Proof. destruct x; try contradiction; intros _; eexists; reflexivity. Qed.

(** The percent branch ends with a notice or a result. *)
Lemma retention_percent_returns (s : Z) (raw : str) :
  Z.abs s <= max_float -> retention_percent s raw <> Raised.
Proof.
  intros Hs. unfold retention_percent.
  destruct (float_of_str raw) as [p|] eqn:Hp; [|discriminate].
  cbn [or_reject bind].
  destruct (of_int_total s Hs) as (sf & -> & Hc). cbn [or_raise bind].
  assert (Hr : below 4503599627370496 (-52) (div (clamp_pct p) hundred)).
  { apply div_hundred_below.
    - apply clamp_pct_canonical. now apply (float_of_str_canonical raw).
    - apply clamp_pct_unsigned.
    - apply clamp_pct_range. }
  assert (Hf : exists v, floor (mul sf (div (clamp_pct p) hundred)) = Some v).
  { destruct sf as [sg|sg| |sg m e]; try contradiction.
    - destruct (div (clamp_pct p) hundred); try contradiction;
        eexists; reflexivity.
    - apply (below_floor (Z.pos m) e). now apply mul_below. }
  destruct Hf as [v ->]. discriminate.
Qed.

(** The numeric branch ends with a notice or a result, whatever the
    salary. *)
Lemma retention_number_returns (s : Z) (raw : str) :
  retention_number s raw <> Raised.
Proof.
  unfold retention_number.
  destruct (float_of_str raw) as [f|] eqn:Hf; [|discriminate].
  destruct (to_int f) as [r0|] eqn:Hr; [|discriminate].
  cbn [or_reject bind].
  destruct (Z.gtb_spec s 0) as [Hs|Hs]; [|discriminate].
  assert (Hc : canonical f).
  { destruct (float_of_str_canonical raw f Hf) as [[sg ->]|H];
      [discriminate Hr|assumption]. }
  destruct (int_truediv_some f r0 s Hc Hr Hs) as [q ->]. discriminate.
Qed.

Lemma digits_val_bound (ds : str) :
  all_digits ds = true -> 0 <= digits_val ds < 10 ^ len ds.
Proof.
  induction ds as [|c ds IH] using rev_ind; intros Hd.
  - unfold digits_val, len. simpl. lia.
  - unfold all_digits in Hd. rewrite forallb_app in Hd.
    apply andb_true_iff in Hd. destruct Hd as [Hd Hc].
    cbn [forallb] in Hc. rewrite andb_true_r in Hc.
    specialize (IH Hd). rewrite digits_val_snoc, len_app.
    change (len [c]) with 1.
    rewrite Z.pow_add_r by (pose proof (len_nonneg ds); lia).
    unfold is_digit in Hc. unfold digit_val. change (10 ^ 1) with 10. lia.
Qed.

Lemma len_keep (cls : ascii -> bool) (s : str) : len (keep cls s) <= len s.
Proof.
  unfold len, keep. pose proof (filter_length_le cls s). lia.
Qed.

(** The size of a parsed salary: below 10 to the number of characters. *)
Lemma parse_salary_to_int_bound (s : str) (v : Z) :
  parse_salary_to_int s = Some v -> Z.abs v < 10 ^ len s.
Proof.
  intros H. apply parse_salary_to_int_some in H.
  pose proof (len_keep digit_or_minus s) as Hk.
  set (cleaned := keep digit_or_minus s) in *.
  assert (Hmono : forall ds, len ds <= len cleaned ->
                    10 ^ len ds <= 10 ^ len s).
  { intros ds Hl. apply Z.pow_le_mono_r; [lia|].
    pose proof (len_nonneg ds). lia. }
  unfold int_of_str in H. destruct cleaned as [|c ds]; [discriminate H|].
  destruct (Ascii.eqb c minus).
  - destruct ds as [|d ds]; [discriminate H|].
    destruct (all_digits (d :: ds)) eqn:Hd; [|discriminate H].
    injection H as <-. pose proof (digits_val_bound _ Hd).
    assert (len (d :: ds) <= len (c :: d :: ds))
      by (unfold len; cbn [List.length]; lia).
    specialize (Hmono (d :: ds)). lia.
  - destruct (all_digits (c :: ds)) eqn:Hd; [|discriminate H].
    injection H as <-. pose proof (digits_val_bound _ Hd).
    specialize (Hmono (c :: ds)). lia.
Qed.

(** The handler ends with a notice or with the embed when the salary text
    is within the 50 characters of its field: no branch raises. *)
Theorem on_submit_never_raises (self : RetentionModal) (now : Z) :
  len (player_salary self) <= salary_max_length ->
  on_submit self now <> Raised.
Proof.
  intros Hlen.
  destruct (on_submit_unfold self now) as (tf & tt & _ & ->).
  destruct (parse_salary_to_int _) as [sv|] eqn:Hs; [|discriminate].
  destruct (parse_years _) as [ys|]; [|discriminate]. cbv zeta.
  destruct (str_eqb _ []); [discriminate|].
  assert (Hsv : Z.abs sv <= max_float).
  { apply parse_salary_to_int_bound in Hs.
    pose proof (len_strip (player_salary self)).
    pose proof (len_nonneg (strip (player_salary self))).
    assert (10 ^ len (strip (player_salary self)) <= 10 ^ 50)
      by (apply Z.pow_le_mono_r; unfold salary_max_length in Hlen; lia).
    assert (10 ^ 50 <= max_float) by (vm_compute; discriminate). lia. }
  assert (Hc : compute_retention (retention_type self) sv
                 (keep digit_dot_or_minus (strip (retention_amount self)))
               <> Raised).
  { unfold compute_retention. destruct (str_eqb _ _).
    - now apply retention_percent_returns.
    - apply retention_number_returns. }
  destruct (compute_retention _ _ _); [discriminate|contradiction|discriminate].
Qed.

Lemma on_submit_never_raises_witness :
  on_submit negative_modal 2026 <> Raised.
Proof.
  apply on_submit_never_raises. vm_compute. discriminate.
Defined.

End NeverRaises.

(** ** Edges of the two retention branches *)

Section RetentionEdges.

(** [1.0], the quotient of [100.0] by itself. *)
Lemma div_hundred_hundred :
  div hundred hundred = S754_finite false 4503599627370496 (-52).
Proof. vm_compute. reflexivity. Qed.

(** Multiplying a float by [1.0] gives it back. *)
Lemma mul_one (s : bool) (m : positive) (e : Z) :
  canonical (S754_finite s m e) ->
  mul (S754_finite s m e) (S754_finite false 4503599627370496 (-52))
  = S754_finite s m e.
Proof.
  intros Hc. apply canonical_digits in Hc. destruct Hc as (Hf & He & _).
  unfold mul, SFmul. rewrite xorb_false_r, Pos2Z.inj_mul.
  change (Z.pos 4503599627370496) with (2 ^ 52).
  assert (Hm : 0 <= Z.pos m * 2 ^ 52) by lia.
  destruct (binary_round_aux_spec s (Z.pos m * 2 ^ 52) (e + -52) loc_Exact Hm)
    as (m2 & _ & Hexact & ->).
  rewrite Zdigits2_mul_pow2 in * by lia.
  replace (Zdigits2 (Z.pos m) + 52 + (e + -52)) with (Zdigits2 (Z.pos m) + e)
    in * by lia.
  rewrite Hf in *. replace (Z.max (e + -52) e) with e in * by lia.
  replace (e - (e + -52)) with 52 in * by lia.
  assert (H52 : 2 ^ 52 <> 0) by (pose proof (pow2_pos 52); lia).
  rewrite Z.div_mul in Hexact by assumption.
  rewrite (Hexact eq_refl (Z.mod_mul _ _ H52)).
  rewrite Hf. rewrite Z.max_id, Z.sub_diag, Z.pow_0_r, Z.div_1_r.
  apply Z.leb_le in He. now rewrite He.
Qed.

Lemma float_of_str_not_nan (raw : str) : float_of_str raw <> Some S754_nan.
Proof.
  intros H. destruct (float_of_str_canonical raw _ H) as [[sg E]|E];
    [discriminate E|contradiction].
Qed.

(** A parsed percentage that is not above zero is below one hundred. *)
Lemma nonpositive_below_hundred (raw : str) (p : float) :
  float_of_str raw = Some p -> ltb zero p = false -> ltb p hundred = true.
Proof.
  intros Hp Hz. destruct p as [sg|sg| |sg m e].
  - reflexivity.
  - destruct sg; [reflexivity|discriminate Hz].
  - now apply float_of_str_not_nan in Hp.
  - destruct sg; [reflexivity|discriminate Hz].
Qed.

(** The two ends of the percent scale, for a salary below 2^53: a
    percentage of 100 or more retains the whole salary and is shown as
    [100.00%]; one of 0 or less retains nothing and is shown as [0.00%]. *)
Theorem percent_edges (s : Z) (raw : str) (p : float) :
  0 <= s < 2 ^ 53 ->
  float_of_str raw = Some p ->
  (ltb p hundred = false ->
   compute_retention (lit "percent") s raw
   = Done {| pct := hundred; retained_amount := s; remaining := 0;
             retention_display := lit "100.00%" |})
  /\ (ltb zero p = false ->
      compute_retention (lit "percent") s raw
      = Done {| pct := zero; retained_amount := 0; remaining := s;
                retention_display := lit "0.00%" |}).
Proof.
  intros Hs Hp. rewrite compute_retention_percent.
  destruct (of_int_some s) as (sf & Hsf & Hc & Hu & Hfl).
  { change (2 ^ 53) with 9007199254740992 in Hs.
    pose proof (pow2_pos 971 ltac:(lia)). nia. }
  specialize (Hfl ltac:(lia)).
  unfold retention_percent. rewrite Hp. cbn [or_reject bind].
  rewrite Hsf. cbn [or_raise bind]. split.
  - intros Hh.
    assert (Hcl : clamp_pct p = hundred)
      by (unfold clamp_pct, py_min; now rewrite Hh).
    rewrite Hcl, div_hundred_hundred.
    assert (Hm : floor (mul sf (S754_finite false 4503599627370496 (-52)))
                 = Some s).
    { destruct sf as [sg|sg| |sg m e]; try contradiction.
      - exact Hfl.
      - now rewrite mul_one. }
    rewrite Hm. cbn [or_raise bind]. rewrite Z.sub_diag. reflexivity.
  - intros Hz.
    assert (Hcl : clamp_pct p = zero).
    { unfold clamp_pct, py_max, py_min, gtb. fold (ltb p hundred).
      rewrite (nonpositive_below_hundred raw p Hp Hz). fold (ltb zero p).
      now rewrite Hz. }
    rewrite Hcl. change (div zero hundred) with zero.
    assert (Hm : floor (mul sf zero) = Some 0)
      by (destruct sf; try contradiction; reflexivity).
    rewrite Hm. cbn [or_raise bind]. rewrite Z.sub_0_r. reflexivity.
Qed.

Lemma percent_edges_witness :
  compute_retention (lit "percent") 8000000 (lit "250")
  = Done {| pct := hundred; retained_amount := 8000000; remaining := 0;
            retention_display := lit "100.00%" |}
  /\ compute_retention (lit "percent") 8000000 (lit "-5")
     = Done {| pct := zero; retained_amount := 0; remaining := 8000000;
               retention_display := lit "0.00%" |}.
Proof.
  assert (Hs : 0 <= 8000000 < 2 ^ 53)
    by (vm_compute; split; [discriminate|reflexivity]).
  split.
  - destruct (float_of_str (lit "250")) as [p|] eqn:Hp;
      [|vm_compute in Hp; discriminate Hp].
    apply (percent_edges 8000000 (lit "250") p Hs Hp).
    vm_compute in Hp. injection Hp as <-. reflexivity.
  - destruct (float_of_str (lit "-5")) as [p|] eqn:Hp;
      [|vm_compute in Hp; discriminate Hp].
    apply (percent_edges 8000000 (lit "-5") p Hs Hp).
    vm_compute in Hp. injection Hp as <-. reflexivity.
Defined.

(** The float of a whole number below 2^53 is that number. *)
Lemma of_ratio_whole (n : Z) :
  0 <= n < 2 ^ 53 -> to_int (of_ratio false n 1) = Some n.
Proof.
  intros Hn. unfold of_ratio. destruct n as [|q|q]; [reflexivity| |lia].
  rewrite SFdiv_core_binary_spec. cbv beta iota zeta.
  set (n := Z.pos q) in *. set (d := Zdigits2 n).
  assert (Hd : 0 < d) by (apply Zdigits2_pos; unfold n; lia).
  assert (Hd53 : d <= 53) by (apply Zdigits2_le; unfold n; lia).
  change (Zdigits2 1) with 1.
  pose proof (fexp_eq (d + 0 - (1 + 0))) as F1.
  pose proof (fexp_eq d) as F2.
  set (e' := Z.min (fexp prec emax (d + 0 - (1 + 0))) (0 - 0)) in *.
  assert (He' : e' = d - 54) by lia.
  replace (0 - 0 - e') with (54 - d) by lia.
  rewrite Z.div_1_r, Z.mod_1_r.
  change (new_location 1 0) with loc_Exact.
  assert (Hp : 0 < 2 ^ (54 - d)) by (apply pow2_pos; lia).
  assert (Hm : 0 <= n * 2 ^ (54 - d)) by (unfold n; lia).
  destruct (binary_round_aux_spec false (n * 2 ^ (54 - d)) e' loc_Exact Hm)
    as (m2 & _ & Hexact & ->).
  rewrite Zdigits2_mul_pow2 in * by (unfold n; lia). fold d in Hexact |- *.
  replace (d + (54 - d) + e') with d in * by lia.
  replace (Z.max e' (fexp prec emax d)) with (d - 53) in * by lia.
  replace (d - 53 - e') with 1 in * by lia.
  assert (Hsplit : n * 2 ^ (54 - d) = n * 2 ^ (53 - d) * 2 ^ 1).
  { rewrite <- Z.mul_assoc, <- Z.pow_add_r by lia. f_equal. f_equal. lia. }
  assert (H21 : 2 ^ 1 <> 0) by (rewrite Z.pow_1_r; lia).
  rewrite Hsplit in Hexact. rewrite Z.div_mul in Hexact by assumption.
  rewrite (Hexact eq_refl (Z.mod_mul _ _ H21)).
  assert (Hp' : 0 < 2 ^ (53 - d)) by (apply pow2_pos; lia).
  rewrite Zdigits2_mul_pow2 by (unfold n; lia). fold d.
  replace (d + (53 - d) + (d - 53)) with d by lia.
  replace (Z.max (d - 53) (fexp prec emax d)) with (d - 53) by lia.
  rewrite Z.sub_diag, Z.pow_0_r, Z.div_1_r.
  destruct (n * 2 ^ (53 - d)) as [|m|m] eqn:Em; [unfold n in *; lia| |lia].
  assert (Hle : (d - 53 <=? emax - prec) = true)
    by (apply Z.leb_le; change (emax - prec) with 971; lia).
  rewrite Hle. unfold to_int. f_equal. rewrite <- Em.
  rewrite Z.shiftl_div_pow2 by lia.
  replace (- (d - 53)) with (53 - d) by lia. apply Z.div_mul. lia.
Qed.

Lemma float_of_str_digits (raw : str) :
  raw <> [] -> all_digits raw = true ->
  float_of_str raw = Some (of_ratio false (digits_val raw) 1).
Proof.
  intros Hne Hd. unfold float_of_str.
  destruct raw as [|c r]; [contradiction|].
  assert (Hc : Ascii.eqb c minus = false).
  { destruct (Ascii.eqb_spec c minus) as [->|]; [|reflexivity].
    cbn [all_digits forallb] in Hd. rewrite minus_not_digit in Hd.
    discriminate Hd. }
  rewrite Hc.
  assert (Hs : span_digits (c :: r) = (c :: r, [])).
  { rewrite <- (app_nil_r (c :: r)) at 1.
    apply span_digits_app; [assumption|discriminate]. }
  rewrite Hs. reflexivity.
Qed.

(** In numeric mode a whole amount below 2^53 written with digits only is
    retained as it is. *)
Theorem numeric_whole_amount (s : Z) (raw : str) :
  0 <= s -> raw <> [] -> all_digits raw = true -> digits_val raw < 2 ^ 53 ->
  exists r,
    compute_retention (lit "number") s raw = Done r
    /\ retained_amount r = digits_val raw
    /\ remaining r = Z.max 0 (s - digits_val raw).
Proof.
  intros Hs Hne Hd Hv.
  rewrite (compute_retention_number (lit "number")) by discriminate.
  pose proof (float_of_str_digits raw Hne Hd) as Hf.
  pose proof (digits_val_nonneg raw Hd) as Hnn.
  pose proof (of_ratio_whole (digits_val raw) (conj Hnn Hv)) as Ht.
  destruct (retention_number_total s raw _ _ Hs Hf Ht)
    as (r & Hr & Hret & Hrem & _).
  exists r. split; [assumption|].
  assert (retained_amount r = digits_val raw) by lia.
  split; [assumption|]. congruence.
Qed.

Lemma numeric_whole_amount_witness :
  exists r,
    compute_retention (lit "number") 5000000 (lit "1250000") = Done r
    /\ retained_amount r = 1250000
    /\ remaining r = 3750000.
Proof.
  apply (numeric_whole_amount 5000000 (lit "1250000")).
  - lia.
  - discriminate.
  - reflexivity.
  - vm_compute. reflexivity.
Defined.

Lemma of_ratio_negative (n d : Z) (r0 : Z) :
  to_int (of_ratio true n d) = Some r0 -> r0 <= 0.
Proof.
  unfold of_ratio. destruct n as [|q|q].
  - intros H. injection H as <-. lia.
  - destruct (SFdiv_core_binary prec emax (Z.pos q) 0 d 0) as [[m e] l].
    rewrite binary_round_aux_opp.
    pose proof (binary_round_aux_unsigned m e l) as Hu.
    destruct (binary_round_aux prec emax false m e l) as [sg|sg| |sg m' e'];
      cbn [SFopp to_int]; try discriminate.
    + intros H. injection H as <-. lia.
    + simpl in Hu. subst sg. cbn [negb]. intros H. injection H as <-.
      pose proof (Z.shiftl_nonneg (Z.pos m') e'). lia.
  - destruct (SFdiv_core_binary prec emax (Z.neg q) 0 d 0) as [[m e] l].
    rewrite binary_round_aux_opp.
    pose proof (binary_round_aux_unsigned m e l) as Hu.
    destruct (binary_round_aux prec emax false m e l) as [sg|sg| |sg m' e'];
      cbn [SFopp to_int]; try discriminate.
    + intros H. injection H as <-. lia.
    + simpl in Hu. subst sg. cbn [negb]. intros H. injection H as <-.
      pose proof (Z.shiftl_nonneg (Z.pos m') e'). lia.
Qed.

Lemma float_of_str_minus (body : str) (f : float) (r0 : Z) :
  float_of_str (minus :: body) = Some f -> to_int f = Some r0 -> r0 <= 0.
Proof.
  unfold float_of_str. change (Ascii.eqb minus minus) with true. cbv iota.
  destruct (span_digits body) as [ip rest]. destruct rest as [|c fp].
  - destruct (nonempty ip); [|discriminate]. intros H. injection H as <-.
    apply of_ratio_negative.
  - destruct (_ && _ && _); [|discriminate]. intros H. injection H as <-.
    apply of_ratio_negative.
Qed.

(** In numeric mode an amount written with a leading minus sign retains
    nothing: the whole salary remains and the display is [$0 (0.00%)]. *)
Theorem numeric_negative_amount (s : Z) (body : str) (f : float) (r0 : Z) :
  0 <= s ->
  float_of_str (minus :: body) = Some f -> to_int f = Some r0 ->
  compute_retention (lit "number") s (minus :: body)
  = Done {| pct := zero; retained_amount := 0; remaining := s;
            retention_display := lit "$0 (0.00%)" |}.
Proof.
  intros Hs Hf Hr.
  rewrite (compute_retention_number (lit "number")) by discriminate.
  pose proof (float_of_str_minus body f r0 Hf Hr) as Hneg.
  unfold retention_number. rewrite Hf, Hr. cbn [or_reject bind].
  replace (Z.max 0 r0) with 0 by lia. rewrite Z.sub_0_r.
  replace (Z.max 0 s) with s by lia.
  destruct (Z.gtb_spec s 0) as [Hpos|Hz].
  - assert (Hq : int_truediv 0 s = Some zero).
    { unfold int_truediv. destruct s; try lia. reflexivity. }
    rewrite Hq. reflexivity.
  - reflexivity.
Qed.

Lemma numeric_negative_amount_witness :
  compute_retention (lit "number") 5000000 (minus :: lit "250000")
  = Done {| pct := zero; retained_amount := 0; remaining := 5000000;
            retention_display := lit "$0 (0.00%)" |}.
Proof.
  destruct (float_of_str (minus :: lit "250000")) as [f|] eqn:Hf;
    [|vm_compute in Hf; discriminate Hf].
  destruct (to_int f) as [r0|] eqn:Hr;
    [|vm_compute in Hf; injection Hf as <-; vm_compute in Hr;
      discriminate Hr].
  apply (numeric_negative_amount 5000000 (lit "250000") f r0); [lia| |];
    assumption.
Defined.

End RetentionEdges.

(** ** The accuracy of the percent branch *)

Section RoundingValue.

(** The value of a rounded number: the mantissa cut at the exponent of the
    format, or the next one. *)
Lemma binary_round_aux_value (sx : bool) (m e : Z) (l : location) :
  0 <= m ->
  let e1 := Z.max e (fexp prec emax (Zdigits2 m + e)) in
  let m1 := m / 2 ^ (e1 - e) in
  exists m2,
    (m2 = m1 \/ m2 = m1 + 1)
    /\ ((binary_round_aux prec emax sx m e l = S754_zero sx /\ m2 = 0)
        \/ binary_round_aux prec emax sx m e l = S754_infinity sx
        \/ exists p e3,
             binary_round_aux prec emax sx m e l = S754_finite sx p e3
             /\ e1 <= e3 /\ Z.pos p * 2 ^ (e3 - e1) = m2).
Proof.
  intros Hm e1 m1.
  destruct (binary_round_aux_spec sx m e l Hm) as (m2 & Hm2 & _ & ->).
  fold e1 in Hm2 |- *. fold m1 in Hm2. exists m2. split; [assumption|].
  pose proof (fexp_eq (Zdigits2 m + e)) as F1.
  pose proof (fexp_eq (Zdigits2 m2 + e1)) as F2.
  assert (Hk : 0 <= e1 - e) by lia.
  pose proof (pow2_pos _ Hk) as Hpk.
  assert (Hm1 : 0 <= m1) by (apply Z.div_pos; lia).
  assert (Hlt : m1 < 2 ^ 53).
  { apply Z.div_lt_upper_bound; [assumption|].
    pose proof (Zdigits2_nonneg m) as Hd.
    assert (Hmd : m < 2 ^ Zdigits2 m) by (apply Zdigits2_le; lia).
    rewrite <- Z.pow_add_r by lia.
    apply Z.lt_le_trans with (1 := Hmd).
    apply Z.pow_le_mono_r; lia. }
  assert (Hm2nn : 0 <= m2) by lia.
  destruct (Z.eq_dec m2 (2 ^ 53)) as [E53|N53].
  - assert (Hd : Zdigits2 m2 = 54) by (rewrite E53; reflexivity).
    rewrite Hd in F2.
    replace (Z.max e1 (fexp prec emax (Zdigits2 m2 + e1))) with (e1 + 1)
      by (rewrite Hd; lia).
    replace (e1 + 1 - e1) with 1 by lia. rewrite E53.
    change (2 ^ 53 / 2 ^ 1) with (Z.pos 4503599627370496).
    destruct (e1 + 1 <=? emax - prec); [|now right; left].
    right. right. exists 4503599627370496%positive, (e1 + 1).
    split; [reflexivity|]. split; [lia|].
    replace (e1 + 1 - e1) with 1 by lia. reflexivity.
  - assert (Hd : Zdigits2 m2 <= 53) by (apply Zdigits2_le; lia).
    replace (Z.max e1 (fexp prec emax (Zdigits2 m2 + e1))) with e1 by lia.
    rewrite Z.sub_diag, Z.pow_0_r, Z.div_1_r.
    destruct m2 as [|p|p]; [now left| |lia].
    destruct (e1 <=? emax - prec); [|now right; left].
    right. right. exists p, e1. split; [reflexivity|]. split; [lia|].
    rewrite Z.sub_diag, Z.pow_0_r. lia.
Qed.

(** The float of a positive integer below 2^53: the integer itself, on 53
    digits. *)
Lemma of_int_exact (s : Z) :
  0 < s < 2 ^ 53 ->
  exists m,
    of_int s = Some (S754_finite false m (Zdigits2 s - 53))
    /\ Z.pos m = s * 2 ^ (53 - Zdigits2 s).
Proof.
  intros Hs. destruct s as [|p|p]; [lia| |lia].
  unfold of_int. rewrite binary_normalize_pos.
  set (d := Zdigits2 (Z.pos p)).
  assert (Hd : 0 < d) by (apply Zdigits2_pos; lia).
  assert (Hd53 : d <= 53) by (apply Zdigits2_le; lia).
  pose proof (fexp_eq d) as Fd.
  replace (Z.min 0 (fexp prec emax d)) with (d - 53) by lia.
  replace (- (d - 53)) with (53 - d) by lia.
  pose proof (pow2_pos (53 - d) ltac:(lia)) as Hp.
  assert (Hm : 0 <= Z.pos p * 2 ^ (53 - d)) by lia.
  assert (Hdm : Zdigits2 (Z.pos p * 2 ^ (53 - d)) = 53)
    by (rewrite Zdigits2_mul_pow2 by lia; fold d; lia).
  destruct (binary_round_aux_spec false (Z.pos p * 2 ^ (53 - d)) (d - 53)
              loc_Exact Hm) as (m2 & _ & Hexact & ->).
  rewrite Hdm in *. replace (53 + (d - 53)) with d in * by lia.
  replace (Z.max (d - 53) (fexp prec emax d)) with (d - 53) in * by lia.
  rewrite Z.sub_diag, Z.pow_0_r, Z.div_1_r in Hexact.
  rewrite (Hexact eq_refl (Z.mod_1_r _)).
  rewrite Hdm. replace (53 + (d - 53)) with d by lia.
  replace (Z.max (d - 53) (fexp prec emax d)) with (d - 53) by lia.
  rewrite Z.sub_diag, Z.pow_0_r, Z.div_1_r.
  destruct (Z.pos p * 2 ^ (53 - d)) as [|q|q] eqn:Eq; [lia| |lia].
  assert (Hle : (d - 53 <=? emax - prec) = true)
    by (apply Z.leb_le; change (emax - prec) with 971; lia).
  rewrite Hle. exists q. split; reflexivity.
Qed.

End RoundingValue.

Section Accuracy.

Import Reals Lra.

Lemma two_to_pos (e : Z) : (0 < two_to e)%R.
Proof. apply powerRZ_lt. lra. Qed.

Lemma two_to_add (a b : Z) : two_to (a + b) = (two_to a * two_to b)%R.
Proof. apply powerRZ_add. lra. Qed.

Lemma two_to_Z (k : Z) : 0 <= k -> two_to k = IZR (2 ^ k).
Proof.
  intros Hk. unfold two_to. rewrite <- (Z2Nat.id k) by assumption.
  rewrite <- pow_powerRZ, pow_IZR. reflexivity.
Qed.

Lemma two_to_split (a b : Z) :
  a <= b -> two_to b = (two_to a * IZR (2 ^ (b - a)))%R.
Proof.
  intros H. rewrite <- two_to_Z by lia. rewrite <- two_to_add. f_equal. lia.
Qed.

Lemma two_to_le (a b : Z) : a <= b -> (two_to a <= two_to b)%R.
Proof.
  intros H. rewrite (two_to_split a b H).
  pose proof (two_to_pos a) as Ha.
  assert (H1 : (1 <= IZR (2 ^ (b - a)))%R).
  { apply IZR_le. pose proof (pow2_pos (b - a)). lia. }
  nra.
Qed.

Lemma div_R (a b : Z) :
  0 < b ->
  (IZR (a / b) * IZR b <= IZR a < (IZR (a / b) + 1) * IZR b)%R.
Proof.
  intros Hb. rewrite <- plus_IZR, <- !mult_IZR. split.
  - apply IZR_le. rewrite Z.mul_comm. apply Z.mul_div_le. assumption.
  - apply IZR_lt. rewrite Z.mul_comm. rewrite Z.mul_add_distr_l, Z.mul_1_r.
    pose proof (Z.mul_succ_div_gt a b Hb). lia.
Qed.

(** Rounding moves a number by less than one unit of the exponent it is
    rounded at, also when the number carries a remainder below one unit of
    its own exponent. *)
Lemma round_near (sx : bool) (m e : Z) (l : location) (t : R) :
  0 <= m ->
  (IZR m * two_to e <= t < (IZR m + 1) * two_to e)%R ->
  let e1 := Z.max e (fexp prec emax (Zdigits2 m + e)) in
  match binary_round_aux prec emax sx m e l with
  | S754_zero _ => (0 <= t < two_to e1)%R
  | S754_finite _ p e3 => (Rabs (IZR (Z.pos p) * two_to e3 - t) <= two_to e1)%R
  | S754_infinity _ => True
  | S754_nan => False
  end.
Proof.
  intros Hm Ht e1.
  destruct (binary_round_aux_value sx m e l Hm) as (m2 & Hm2 & Hres).
  fold e1 in Hm2, Hres.
  set (m1 := m / 2 ^ (e1 - e)) in *.
  assert (Hk : 0 <= e1 - e) by lia.
  pose proof (pow2_pos _ Hk) as Hpk.
  pose proof (two_to_pos e) as Hbe. pose proof (two_to_pos e1) as Hb1.
  assert (H1 : (IZR m1 * two_to e1 <= t < (IZR m1 + 1) * two_to e1)%R).
  { rewrite (two_to_split e e1) by lia.
    pose proof (div_R m (2 ^ (e1 - e)) Hpk) as [Hlo Hhi]. fold m1 in Hlo, Hhi.
    assert (Hhi' : (IZR m + 1 <= (IZR m1 + 1) * IZR (2 ^ (e1 - e)))%R).
    { rewrite <- !plus_IZR, <- mult_IZR. apply IZR_le.
      rewrite <- plus_IZR, <- mult_IZR in Hhi. apply lt_IZR in Hhi. lia. }
    split; nra. }
  destruct Hres as [[-> E0]|[->|(p & e3 & -> & He3 & Ep)]].
  - assert (m1 = 0) by (assert (0 <= m1) by (apply Z.div_pos; lia); lia).
    rewrite H in H1. lra.
  - exact I.
  - assert (Hv : (IZR (Z.pos p) * two_to e3 = IZR m2 * two_to e1)%R).
    { rewrite (two_to_split e1 e3) by lia. rewrite <- Ep, mult_IZR. ring. }
    rewrite Hv. apply Rabs_le.
    destruct Hm2 as [-> | ->]; [|rewrite plus_IZR]; lra.
Qed.


Lemma quotient_R (a b : Z) (x : R) :
  0 < b -> (x * IZR b = IZR a)%R ->
  (IZR (a / b) <= x < IZR (a / b) + 1)%R.
Proof.
  intros Hb Hx. pose proof (div_R a b Hb) as [Hlo Hhi].
  assert (Hb' : (0 < IZR b)%R) by (apply IZR_lt; assumption).
  rewrite <- Hx in Hlo, Hhi. split.
  - apply (Rmult_le_reg_r (IZR b)); assumption.
  - apply (Rmult_lt_reg_r (IZR b)); assumption.
Qed.

Lemma two_to_inv (e : Z) : (two_to e * two_to (- e) = 1)%R.
Proof. rewrite <- two_to_add, Z.add_opp_diag_r. reflexivity. Qed.

(** [100.0] is 100. *)
Lemma hundred_R : (IZR 7036874417766400 * two_to (-46) = 100)%R.
Proof.
  pose proof (two_to_inv (-46)) as H. change (- -46) with 46 in H.
  rewrite (two_to_Z 46) in H by lia.
  change 7036874417766400 with (100 * 2 ^ 46). rewrite mult_IZR.
  rewrite Rmult_assoc, (Rmult_comm (IZR (2 ^ 46))), H. ring.
Qed.

(** The floor of a float, among the reals. *)
Lemma floor_R (p : positive) (e v : Z) :
  floor (S754_finite false p e) = Some v ->
  (IZR v <= IZR (Z.pos p) * two_to e < IZR v + 1)%R.
Proof.
  cbn [floor]. intros H. injection H as <-.
  destruct (Z.le_gt_cases 0 e) as [He|He].
  - rewrite Z.shiftl_mul_pow2, mult_IZR, <- two_to_Z by assumption. lra.
  - rewrite Z.shiftl_div_pow2 by lia.
    apply quotient_R; [apply pow2_pos; lia|].
    rewrite <- two_to_Z by lia. rewrite Rmult_assoc, two_to_inv. ring.
Qed.

(** The exact floor of the specification, among the reals. *)
Lemma exact_floor_R (s : Z) (mc : positive) (ec : Z) :
  (IZR (exact_floor_pct s (S754_finite false mc ec))
   <= IZR s * (IZR (Z.pos mc) * two_to ec) / 100
   < IZR (exact_floor_pct s (S754_finite false mc ec)) + 1)%R.
Proof.
  cbn [exact_floor_pct]. cbv zeta.
  assert (Hd : 0 < 100 * 2 ^ Z.max (- ec) 0)
    by (pose proof (pow2_pos (Z.max (- ec) 0)); lia).
  apply quotient_R; [assumption|].
  rewrite !mult_IZR, <- !two_to_Z by lia.
  assert (E : (two_to ec * two_to (Z.max (- ec) 0) = two_to (Z.max ec 0))%R).
  { rewrite <- two_to_add. f_equal. lia. }
  rewrite <- E. field.
Qed.


(** The quotient of a percentage by [100.0] is within 2^-52 of the exact
    quotient, and at most 1. *)
Lemma ratio_near (mc : positive) (ec : Z) :
  canonical (S754_finite false mc ec) ->
  leb (S754_finite false mc ec) hundred = true ->
  match div (S754_finite false mc ec) hundred with
  | S754_zero _ =>
      (0 <= IZR (Z.pos mc) * two_to ec / 100 < two_to (-52))%R
  | S754_finite _ p e =>
      (Rabs (IZR (Z.pos p) * two_to e - IZR (Z.pos mc) * two_to ec / 100)
       <= two_to (-52))%R
      /\ (IZR (Z.pos p) * two_to e <= 1)%R /\ e <= -52
  | _ => False
  end.
Proof.
  intros Hc Hle.
  pose proof (leb_hundred_below _ Hc eq_refl Hle) as [Hec Hmc].
  pose proof (div_hundred_below _ Hc eq_refl Hle) as Hbel.
  set (dc := Zdigits2 (Z.pos mc)).
  set (e' := Z.min (fexp prec emax (dc + ec - (53 + -46))) (ec - -46)).
  set (a := Z.pos mc * 2 ^ (ec - -46 - e')).
  set (q := a / 7036874417766400).
  set (l := new_location 7036874417766400 (a mod 7036874417766400)).
  assert (Hdiv : div (S754_finite false mc ec) hundred
                 = binary_round_aux prec emax false q e' l).
  { rewrite hundred_eq. unfold div, SFdiv. cbn [xorb].
    rewrite SFdiv_core_binary_spec. reflexivity. }
  pose proof (fexp_eq (dc + ec - (53 + -46))) as F1.
  pose proof (pow2_pos (-46 - ec) ltac:(lia)) as Hp1.
  assert (Hdc : dc <= 7 - ec).
  { apply Zdigits2_le; [lia|lia|].
    apply Z.le_lt_trans with (1 := Hmc).
    replace (7 - ec) with (53 + (-46 - ec)) by lia.
    rewrite Z.pow_add_r by lia.
    apply Z.mul_lt_mono_pos_r; [assumption|reflexivity]. }
  assert (He' : e' <= -53) by lia.
  assert (Hk : 0 <= ec - -46 - e') by lia.
  pose proof (pow2_pos _ Hk) as Hpk.
  pose proof (pow2_pos (- e') ltac:(lia)) as Hpe.
  assert (Ha : 0 <= a) by (unfold a; lia).
  assert (Hq : 0 <= q) by (apply Z.div_pos; [assumption|reflexivity]).
  assert (Hqle : q <= 2 ^ (- e')).
  { apply Z.div_le_upper_bound; [reflexivity|]. unfold a.
    apply Z.le_trans
      with (7036874417766400 * 2 ^ (-46 - ec) * 2 ^ (ec - -46 - e')).
    - apply Z.mul_le_mono_nonneg_r; lia.
    - rewrite <- Z.mul_assoc, <- Z.pow_add_r by lia.
      replace (-46 - ec + (ec - -46 - e')) with (- e') by lia. lia. }
  assert (Hdq : Zdigits2 q <= 1 - e').
  { apply Zdigits2_le; [assumption|lia|].
    replace (1 - e') with (- e' + 1) by lia. rewrite Z.pow_add_r by lia.
    change (2 ^ 1) with 2. lia. }
  pose proof (fexp_eq (Zdigits2 q + e')) as F2.
  pose proof (Zdigits2_nonneg q) as Hdq0.
  set (t := (IZR (Z.pos mc) * two_to ec / 100)%R).
  assert (Ht : (IZR q * two_to e' <= t < (IZR q + 1) * two_to e')%R).
  { pose proof (two_to_pos e') as Hbe.
    assert (Hx : (t * two_to (- e') * IZR 7036874417766400 = IZR a)%R).
    { unfold t, a. change 7036874417766400 with (100 * 2 ^ 46).
      rewrite !mult_IZR, <- !two_to_Z by lia.
      replace (ec - -46 - e') with (ec + (- e' + 46)) by lia.
      rewrite !two_to_add. field. }
    pose proof (quotient_R a 7036874417766400 _ eq_refl Hx) as [Hlo Hhi].
    fold q in Hlo, Hhi. pose proof (two_to_inv e') as Hinv.
    assert (Et : (t = t * two_to (- e') * two_to e')%R)
      by (rewrite Rmult_assoc, (Rmult_comm (two_to (- e'))), Hinv; ring).
    rewrite Et. split.
    - apply Rmult_le_compat_r; lra.
    - apply Rmult_lt_compat_r; lra. }
  pose proof (round_near false q e' l t Hq Ht) as Hn. cbv zeta in Hn.
  rewrite <- Hdiv in Hn.
  assert (He1 : (two_to (Z.max e' (fexp prec emax (Zdigits2 q + e')))
                 <= two_to (-52))%R) by (apply two_to_le; lia).
  destruct (div (S754_finite false mc ec) hundred) as [sg|sg| |sg p e];
    try contradiction.
  - fold t. lra.
  - fold t. destruct Hbel as [He Hp]. split; [lra|]. split; [|assumption].
    pose proof (two_to_pos e) as Hbe.
    apply Rle_trans with (IZR (4503599627370496 * 2 ^ (-52 - e)) * two_to e)%R.
    + apply Rmult_le_compat_r; [lra|]. apply IZR_le. assumption.
    + change 4503599627370496 with (2 ^ 52).
      rewrite mult_IZR, <- !two_to_Z by lia.
      rewrite <- !two_to_add. replace (52 + (-52 - e) + e) with 0 by lia.
      unfold two_to. simpl. lra.
Qed.


(** The product of a salary below 2^51 by a ratio of at most 1 is within
    2^-2 of the exact product. *)
Lemma product_near (s : Z) (ms pr : positive) (er : Z) :
  0 < s < 2 ^ 51 ->
  Z.pos ms = s * 2 ^ (53 - Zdigits2 s) ->
  (IZR (Z.pos pr) * two_to er <= 1)%R -> er <= -52 ->
  match mul (S754_finite false ms (Zdigits2 s - 53))
            (S754_finite false pr er) with
  | S754_zero _ => (IZR s * (IZR (Z.pos pr) * two_to er) < two_to (-2))%R
  | S754_finite _ p e =>
      (Rabs (IZR (Z.pos p) * two_to e
             - IZR s * (IZR (Z.pos pr) * two_to er)) <= two_to (-2))%R
  | S754_infinity _ => True
  | S754_nan => False
  end.
Proof.
  intros Hs Hms Hr Her. set (ds := Zdigits2 s) in *.
  assert (Hds : 0 < ds) by (apply Zdigits2_pos; lia).
  assert (Hds51 : ds <= 51) by (apply Zdigits2_le; lia).
  unfold mul, SFmul. cbn [xorb].
  set (m := Z.pos (ms * pr)). set (e := ds - 53 + er).
  set (t := (IZR s * (IZR (Z.pos pr) * two_to er))%R).
  pose proof (two_to_pos e) as Hbe. pose proof (two_to_pos er) as Hber.
  assert (Em : (IZR m * two_to e = t)%R).
  { unfold m, e, t. rewrite Pos2Z.inj_mul, mult_IZR, Hms, mult_IZR.
    rewrite <- two_to_Z by lia. rewrite two_to_add.
    pose proof (two_to_inv (ds - 53)) as Hinv.
    replace (- (ds - 53)) with (53 - ds) in Hinv by lia.
    transitivity (IZR s * (two_to (ds - 53) * two_to (53 - ds))
                  * (IZR (Z.pos pr) * two_to er))%R; [ring|].
    rewrite Hinv. ring. }
  assert (Ht : (IZR m * two_to e <= t < (IZR m + 1) * two_to e)%R)
    by (rewrite <- Em; split; lra).
  pose proof (round_near false m e loc_Exact t ltac:(unfold m; lia) Ht) as Hn.
  cbv zeta in Hn.
  assert (Hpr : Z.pos pr <= 2 ^ (- er)).
  { apply le_IZR. rewrite <- two_to_Z by lia.
    pose proof (two_to_inv er) as Hinv. pose proof (two_to_pos (- er)).
    apply (Rmult_le_reg_r (two_to er)); [assumption|].
    rewrite (Rmult_comm (two_to (- er))), Hinv. exact Hr. }
  pose proof (pow2_pos (53 - ds) ltac:(lia)) as Hp1.
  pose proof (pow2_pos (- er) ltac:(lia)) as Hp2.
  assert (Hdm : Zdigits2 m <= 51 - e).
  { apply Zdigits2_le; [unfold m; lia|unfold e; lia|].
    unfold m. rewrite Pos2Z.inj_mul, Hms.
    apply Z.le_lt_trans with (s * 2 ^ (53 - ds) * 2 ^ (- er)).
    - apply Z.mul_le_mono_nonneg_l; lia.
    - rewrite <- Z.mul_assoc, <- Z.pow_add_r by lia.
      replace (51 - e) with (51 + (53 - ds + - er)) by (unfold e; lia).
      rewrite (Z.pow_add_r 2 51) by lia.
      apply Z.mul_lt_mono_pos_r; [apply pow2_pos; lia|lia]. }
  pose proof (fexp_eq (Zdigits2 m + e)) as F.
  assert (He1 : (two_to (Z.max e (fexp prec emax (Zdigits2 m + e)))
                 <= two_to (-2))%R) by (apply two_to_le; unfold e in *; lia).
  fold m e.
  destruct (binary_round_aux prec emax false m e loc_Exact);
    [lra|exact I|contradiction|lra].
Qed.

Lemma half_R (s : Z) :
  0 <= s < 2 ^ 51 -> (0 <= IZR s /\ IZR s * two_to (-52) < / 2)%R.
Proof.
  intros Hs. split; [apply IZR_le; lia|].
  assert (H1 : (IZR s < two_to 51)%R)
    by (rewrite two_to_Z by lia; apply IZR_lt; lia).
  assert (H2 : (two_to 51 * two_to (-52) = / 2)%R).
  { rewrite <- two_to_add. unfold two_to. simpl. lra. }
  pose proof (two_to_pos (-52)). rewrite <- H2.
  apply Rmult_lt_compat_r; assumption.
Qed.

Lemma quarter_R : two_to (-2) = (/ 4)%R.
Proof. unfold two_to. simpl. lra. Qed.

Lemma Rabs_bounds (a b : R) : (Rabs a <= b)%R -> (- b <= a <= b)%R.
Proof. unfold Rabs. destruct (Rcase_abs a); lra. Qed.

Lemma close_floors (a b : Z) (x y : R) :
  (IZR a <= x < IZR a + 1)%R -> (IZR b <= y < IZR b + 1)%R ->
  (Rabs (x - y) < 1)%R -> Z.abs (a - b) <= 1.
Proof.
  intros Ha Hb Hxy. apply Rabs_def2 in Hxy.
  assert (H1 : a < b + 2)
    by (apply lt_IZR; rewrite plus_IZR; lra).
  assert (H2 : b < a + 2)
    by (apply lt_IZR; rewrite plus_IZR; lra).
  lia.
Qed.


(** For a salary below 2^51 the amount retained in percent mode is within
    one of the exact floor of the salary times the displayed percentage
    over 100. *)
Theorem percent_accuracy (s : Z) (raw : str) (r : retention) :
  0 <= s < 2 ^ 51 ->
  compute_retention (lit "percent") s raw = Done r ->
  Z.abs (retained_amount r - exact_floor_pct s (pct r)) <= 1.
Proof.
  intros Hs H. rewrite compute_retention_percent in H.
  destruct (retention_percent_done s raw r H)
    as (p & sf & Hp & Hpct & Hsf & Hfl & _).
  rewrite Hpct.
  pose proof (clamp_pct_canonical p (float_of_str_canonical raw p Hp)) as Hc.
  pose proof (clamp_pct_unsigned p) as Hu.
  destruct (clamp_pct_range p) as [_ Hle].
  destruct (clamp_pct p) as [sg|sg| |sg mc ec]; try contradiction.
  { (* the percentage is zero *)
    assert (Hz : floor (mul sf (div (S754_zero sg) hundred)) = Some 0).
    { destruct (of_int_some s) as (sf' & Hsf' & Hcs & _).
      { change (2 ^ 51) with 2251799813685248 in Hs.
        pose proof (pow2_pos 971 ltac:(lia)). nia. }
      rewrite Hsf in Hsf'. injection Hsf' as <-.
      simpl in Hu. subst sg.
      destruct sf; try contradiction; reflexivity. }
    rewrite Hz in Hfl. injection Hfl as <-. cbn [exact_floor_pct]. lia. }
  simpl in Hu. subst sg.
  pose proof (ratio_near mc ec Hc Hle) as Hr.
  pose proof (exact_floor_R s mc ec) as Hex.
  destruct (half_R s Hs) as [Hs0 Hhalf].
  pose proof quarter_R as Hq.
  pose proof (two_to_pos ec) as Hbec.
  assert (Hmc : (0 < IZR (Z.pos mc))%R) by (apply IZR_lt; lia).
  set (t := (IZR (Z.pos mc) * two_to ec / 100)%R) in *.
  assert (Ht0 : (0 <= t)%R).
  { unfold t. apply Rmult_le_pos; [|lra]. apply Rmult_le_pos; lra. }
  assert (Ex : (IZR s * (IZR (Z.pos mc) * two_to ec) / 100 = IZR s * t)%R)
    by (unfold t; field).
  rewrite Ex in Hex.
  destruct (Z.eq_dec s 0) as [->|Hnz].
  { (* no salary *)
    injection Hsf as <-.
    assert (Hz : floor (mul (S754_zero false)
                          (div (S754_finite false mc ec) hundred)) = Some 0)
      by (destruct (div (S754_finite false mc ec) hundred);
          try contradiction; reflexivity).
    rewrite Hz in Hfl. injection Hfl as <-.
    cbn [exact_floor_pct]. cbv zeta. rewrite !Z.mul_0_l, Z.div_0_l; [lia|].
    pose proof (pow2_pos (Z.max (- ec) 0)). lia. }
  destruct (of_int_exact s) as (ms & Hsf' & Hms);
    [change (2 ^ 51) with 2251799813685248 in Hs;
     change (2 ^ 53) with 9007199254740992; lia|].
  rewrite Hsf in Hsf'. injection Hsf' as ->.
  pose proof (div_unsigned (S754_finite false mc ec) hundred eq_refl
                hundred_unsigned) as Hd.
  destruct (div (S754_finite false mc ec) hundred) as [sg|sg| |sg pr er];
    try contradiction.
  { (* the ratio underflows to zero *)
    assert (Hz : floor (mul (S754_finite false ms (Zdigits2 s - 53))
                          (S754_zero sg)) = Some 0) by reflexivity.
    rewrite Hz in Hfl. injection Hfl as <-.
    assert (Hst : (IZR s * t <= IZR s * two_to (-52))%R)
      by (apply Rmult_le_compat_l; lra).
    assert (Hst0 : (0 <= IZR s * t)%R) by (apply Rmult_le_pos; lra).
    apply (close_floors 0 _ 0%R (IZR s * t)%R); [lra|assumption|].
    apply Rabs_def1; lra. }
  destruct Hr as (Hnear & Hone & Her).
  simpl in Hd. subst sg.
  pose proof (product_near s ms pr er ltac:(lia) Hms Hone Her) as Hprod.
  pose proof (mul_unsigned (S754_finite false ms (Zdigits2 s - 53))
                (S754_finite false pr er) eq_refl eq_refl) as Hmu.
  set (vr := (IZR (Z.pos pr) * two_to er)%R) in *.
  apply Rabs_bounds in Hnear.
  assert (H1 : (IZR s * vr - IZR s * t <= IZR s * two_to (-52))%R).
  { rewrite <- Rmult_minus_distr_l. apply Rmult_le_compat_l; lra. }
  assert (H2 : (- (IZR s * two_to (-52)) <= IZR s * vr - IZR s * t)%R).
  { rewrite <- Rmult_minus_distr_l, Ropp_mult_distr_r.
    apply Rmult_le_compat_l; lra. }
  assert (Hst0 : (0 <= IZR s * t)%R) by (apply Rmult_le_pos; lra).
  destruct (mul (S754_finite false ms (Zdigits2 s - 53))
              (S754_finite false pr er)) as [sg|sg| |sg pp ep];
    try contradiction.
  - injection Hfl as <-.
    apply (close_floors 0 _ 0%R (IZR s * t)%R); [lra|assumption|].
    apply Rabs_def1; lra.
  - discriminate Hfl.
  - simpl in Hmu. subst sg. pose proof (floor_R pp ep _ Hfl) as Hret.
    apply Rabs_bounds in Hprod.
    apply (close_floors _ _ _ _ Hret Hex). apply Rabs_def1; lra.
Qed.

Lemma percent_accuracy_witness :
  exists r,
    compute_retention (lit "percent") 100 (lit "29") = Done r
    /\ Z.abs (retained_amount r - 29) <= 1.
Proof.
  destruct (compute_retention (lit "percent") 100 (lit "29")) as [| |r] eqn:Hr;
    [vm_compute in Hr; discriminate Hr..|].
  exists r. split; [reflexivity|].
  assert (Hs : 0 <= 100 < 2 ^ 51)
    by (vm_compute; split; [discriminate|reflexivity]).
  pose proof (percent_accuracy 100 (lit "29") r Hs Hr) as H.
  vm_compute in Hr. injection Hr as <-. exact H.
Defined.

End Accuracy.
